(** * meeting-sync: action-item extraction and the checklist reducer

    A shallow embedding of [src/meeting_sync.py] (the transcript patterns and
    [extract_action_items_from_file]) and of [src/bot.py]
    ([split_katie_items], [build_all_done_blocks],
    [rebuild_blocks_after_check]), followed by the properties proved about
    them.

    Conventions of the embedding.
    - A Python [str] is a [string]; a character is an [ascii].  The character
      classes ([\s], [\w], case folding) are the ones Python uses on 7-bit
      text; the 128 upper values are plain characters that are neither
      whitespace, word characters nor letters.
    - Regular expressions are kept as syntax trees and run by a backtracking
      matcher with the priorities of Python's [re] (left alternative first,
      greedy loops longest first, lazy loops shortest first).
    - Python values travelling through Slack's JSON (blocks, options) are
      [pyval]; operations that can raise return a [result].
    - [json.loads] is a parameter of the reducer (the class [JsonLib]); the
      closed examples run it with the reference decoder [Json.loads].
    - The date read by [datetime.now()] is an argument, [today]. *)

From Stdlib Require Import ZArith Ascii String List Bool Lia.
From stdpp Require Import base option list strings gmap.

Local Open Scope string_scope.

(** ** Characters and strings as Python sees them *)

Definition code (c : ascii) : nat := nat_of_ascii c.

Definition between (lo hi n : nat) : bool := Nat.leb lo n && Nat.leb n hi.

(** [str.isspace] / [\s] on 7-bit text: TAB..CR, FS..US and the blank. *)
Definition is_space (c : ascii) : bool :=
  between 9 13 (code c) || between 28 32 (code c).

(** [\w]: letters, digits and the underscore. *)
Definition is_word (c : ascii) : bool :=
  between 48 57 (code c) || between 65 90 (code c)
  || between 97 122 (code c) || Nat.eqb (code c) 95.

Definition lower_char (c : ascii) : ascii :=
  if between 65 90 (code c) then ascii_of_nat (code c + 32) else c.

Definition NL : ascii := "010"%char.
Definition DQ : ascii := "034"%char.

Fixpoint py_lower (s : string) : string :=
  match s with
  | EmptyString => EmptyString
  | String c r => String (lower_char c) (py_lower r)
  end.

Definition py_len (s : string) : nat := String.length s.

(** [s[:n]] *)
Fixpoint py_take (n : nat) (s : string) : string :=
  match n, s with
  | S n', String c r => String c (py_take n' r)
  | _, _ => EmptyString
  end.

(** [s[n:]] *)
Fixpoint py_drop (n : nat) (s : string) : string :=
  match n, s with
  | S n', String _ r => py_drop n' r
  | _, _ => s
  end.

(** [s[i:j]] for [i <= j] *)
Definition py_slice (i j : nat) (s : string) : string :=
  py_take (j - i) (py_drop i s).

(** [s.startswith(p)] *)
Fixpoint startswith (p s : string) : bool :=
  match p, s with
  | EmptyString, _ => true
  | String a p', String b s' => if Ascii.eqb a b then startswith p' s' else false
  | String _ _, EmptyString => false
  end.

Fixpoint lstrip_by (f : ascii -> bool) (s : string) : string :=
  match s with
  | String c r => if f c then lstrip_by f r else s
  | EmptyString => EmptyString
  end.

Fixpoint rstrip_by (f : ascii -> bool) (s : string) : string :=
  match s with
  | EmptyString => EmptyString
  | String c r =>
      match rstrip_by f r with
      | EmptyString => if f c then EmptyString else String c EmptyString
      | r' => String c r'
      end
  end.

(** [s.strip()] *)
Definition py_strip (s : string) : string := rstrip_by is_space (lstrip_by is_space s).

(** [s.strip("*")] *)
Definition py_strip_star (s : string) : string :=
  rstrip_by (Ascii.eqb "*"%char) (lstrip_by (Ascii.eqb "*"%char) s).

(** [" ".join(parts)] *)
Fixpoint join_sp (parts : list string) : string :=
  match parts with
  | [] => EmptyString
  | [p] => p
  | p :: ps => p ++ " " ++ join_sp ps
  end.

(** [re.sub(r'\s+', ' ', s)]: every maximal run of whitespace becomes one
    blank.  [in_run] tells that the previous character was whitespace. *)
Fixpoint sub_ws (in_run : bool) (s : string) : string :=
  match s with
  | EmptyString => EmptyString
  | String c r =>
      if is_space c
      then (if in_run then sub_ws true r else String " "%char (sub_ws true r))
      else String c (sub_ws false r)
  end.

(** ** Regular expressions *)

Module Re.

Inductive atom : Type :=
| AChr (c : ascii)        (* a literal character *)
| ASpace                  (* \s *)
| AWord.                  (* \w *)

Inductive cclass : Type :=
| COne (a : atom)
| CAny                    (* . *)
| CIn (l : list atom)     (* [...] *)
| CNotIn (l : list atom). (* [^...] *)

Inductive regex : Type :=
| Nul                          (* matches nothing: the empty alternation *)
| Emp
| Cls (c : cclass)
| Lit (s : string)
| Cat (r1 r2 : regex)
| Alt (r1 r2 : regex)
| Opt (r : regex)              (* r?  *)
| Star (c : cclass)            (* c*  *)
| Plus (c : cclass)            (* c+  *)
| LazyStar (c : cclass)        (* c*? *)
| Bol                          (* ^   *)
| Eol                          (* $   *)
| EndZ                         (* \Z  *)
| WordB                        (* \b  *)
| Ahead (r : regex)            (* (?=r) *)
| Grp (n : nat) (r : regex).   (* the n-th capturing group *)

Fixpoint seq (rs : list regex) : regex :=
  match rs with
  | [] => Emp
  | [r] => r
  | r :: rs' => Cat r (seq rs')
  end.

Fixpoint alts (rs : list regex) : regex :=
  match rs with
  | [] => Nul
  | [r] => r
  | r :: rs' => Alt r (alts rs')
  end.

(** [(?:w1|w2|...)] *)
Definition words (ws : list string) : regex := alts (map Lit ws).

Record flags : Type := Flags { ignorecase : bool; multiline : bool; dotall : bool }.

Definition caps : Type := list (nat * (nat * nat)).

(** A position in the subject: index, the character before it, the text
    from it on, and the groups captured so far. *)
Record pos : Type := Pos { at_idx : nat; at_prev : option ascii; at_rest : string; at_caps : caps }.

Definition chr_eq (fl : flags) (a c : ascii) : bool :=
  if ignorecase fl then Ascii.eqb (lower_char a) (lower_char c) else Ascii.eqb a c.

Definition atom_match (fl : flags) (a : atom) (c : ascii) : bool :=
  match a with
  | AChr x => chr_eq fl x c
  | ASpace => is_space c
  | AWord => is_word c
  end.

Definition cmatch (fl : flags) (cl : cclass) (c : ascii) : bool :=
  match cl with
  | COne a => atom_match fl a c
  | CAny => dotall fl || negb (Ascii.eqb c NL)
  | CIn l => existsb (fun a => atom_match fl a c) l
  | CNotIn l => negb (existsb (fun a => atom_match fl a c) l)
  end.

Definition word_opt (o : option ascii) : bool :=
  match o with Some c => is_word c | None => false end.

Definition next_chr (s : string) : option ascii :=
  match s with String c _ => Some c | EmptyString => None end.

Definition at_bol (fl : flags) (p : pos) : bool :=
  match at_prev p with
  | None => true
  | Some c => multiline fl && Ascii.eqb c NL
  end.

Definition at_eol (fl : flags) (p : pos) : bool :=
  match at_rest p with
  | EmptyString => true
  | String c r =>
      Ascii.eqb c NL && (multiline fl || match r with EmptyString => true | _ => false end)
  end.

Definition at_end (p : pos) : bool :=
  match at_rest p with EmptyString => true | _ => false end.

Definition at_wordb (p : pos) : bool :=
  xorb (word_opt (at_prev p)) (word_opt (next_chr (at_rest p))).

Fixpoint lit_from (fl : flags) (s : string) (i : nat) (prev : option ascii) (rest : string)
  : option (nat * option ascii * string) :=
  match s with
  | EmptyString => Some (i, prev, rest)
  | String a s' =>
      match rest with
      | String c r => if chr_eq fl a c then lit_from fl s' (S i) (Some c) r else None
      | EmptyString => None
      end
  end.

Section Loops.
Context {A : Type} (fl : flags) (cl : cclass) (k : pos -> option A) (cs : caps).

Fixpoint greedy (i : nat) (prev : option ascii) (rest : string) : option A :=
  match rest with
  | String c r =>
      if cmatch fl cl c
      then match greedy (S i) (Some c) r with
           | Some x => Some x
           | None => k (Pos i prev rest cs)
           end
      else k (Pos i prev rest cs)
  | EmptyString => k (Pos i prev rest cs)
  end.

Fixpoint lazy (i : nat) (prev : option ascii) (rest : string) : option A :=
  match k (Pos i prev rest cs) with
  | Some x => Some x
  | None =>
      match rest with
      | String c r => if cmatch fl cl c then lazy (S i) (Some c) r else None
      | EmptyString => None
      end
  end.
End Loops.

Definition set_cap (n : nat) (i j : nat) (p : pos) : pos :=
  Pos (at_idx p) (at_prev p) (at_rest p) ((n, (i, j)) :: at_caps p).

Fixpoint rmatch (fl : flags) (A : Type) (r : regex) (k : pos -> option A) (p : pos) : option A :=
  match r with
  | Nul => None
  | Emp => k p
  | Cls cl =>
      match at_rest p with
      | String c rest =>
          if cmatch fl cl c then k (Pos (S (at_idx p)) (Some c) rest (at_caps p)) else None
      | EmptyString => None
      end
  | Lit s =>
      match lit_from fl s (at_idx p) (at_prev p) (at_rest p) with
      | Some (i, prev, rest) => k (Pos i prev rest (at_caps p))
      | None => None
      end
  | Cat r1 r2 => rmatch fl A r1 (rmatch fl A r2 k) p
  | Alt r1 r2 =>
      match rmatch fl A r1 k p with
      | Some x => Some x
      | None => rmatch fl A r2 k p
      end
  | Opt r1 =>
      match rmatch fl A r1 k p with
      | Some x => Some x
      | None => k p
      end
  | Star cl => greedy fl cl k (at_caps p) (at_idx p) (at_prev p) (at_rest p)
  | Plus cl =>
      match at_rest p with
      | String c rest =>
          if cmatch fl cl c then greedy fl cl k (at_caps p) (S (at_idx p)) (Some c) rest else None
      | EmptyString => None
      end
  | LazyStar cl => lazy fl cl k (at_caps p) (at_idx p) (at_prev p) (at_rest p)
  | Bol => if at_bol fl p then k p else None
  | Eol => if at_eol fl p then k p else None
  | EndZ => if at_end p then k p else None
  | WordB => if at_wordb p then k p else None
  | Ahead r1 =>
      match rmatch fl unit r1 (fun _ => Some tt) p with
      | Some _ => k p
      | None => None
      end
  | Grp n r1 => rmatch fl A r1 (fun q => k (set_cap n (at_idx p) (at_idx q) q)) p
  end.

(** A match object: where the match starts and ends and what it captured. *)
Record mobj : Type := MObj { m_start : nat; m_end : nat; m_caps : caps }.

Definition accept (start : nat) (p : pos) : option mobj :=
  Some (MObj start (at_idx p) (at_caps p)).

Definition match_at (fl : flags) (r : regex) (i : nat) (prev : option ascii) (rest : string)
  : option mobj :=
  rmatch fl mobj r (accept i) (Pos i prev rest []).

(** [pattern.match(s)] *)
Definition re_match (fl : flags) (r : regex) (s : string) : option mobj :=
  match_at fl r 0 None s.

Fixpoint search_from (fl : flags) (r : regex) (i : nat) (prev : option ascii) (rest : string)
  : option mobj :=
  match match_at fl r i prev rest with
  | Some m => Some m
  | None =>
      match rest with
      | String c rest' => search_from fl r (S i) (Some c) rest'
      | EmptyString => None
      end
  end.

(** [pattern.search(s)] *)
Definition re_search (fl : flags) (r : regex) (s : string) : option mobj :=
  search_from fl r 0 None s.

(** [pattern.finditer(s)] for a pattern that matches no empty string: the
    scan resumes where the previous match ended; [skip] counts the
    positions still covered by that match. *)
Fixpoint finditer_from (fl : flags) (r : regex) (skip : nat) (i : nat) (prev : option ascii)
  (rest : string) : list mobj :=
  match skip with
  | S skip' =>
      match rest with
      | String c rest' => finditer_from fl r skip' (S i) (Some c) rest'
      | EmptyString => []
      end
  | O =>
      match match_at fl r i prev rest with
      | Some m =>
          m :: match rest with
               | String c rest' => finditer_from fl r (m_end m - i - 1) (S i) (Some c) rest'
               | EmptyString => []
               end
      | None =>
          match rest with
          | String c rest' => finditer_from fl r 0 (S i) (Some c) rest'
          | EmptyString => []
          end
      end
  end.

Definition re_finditer (fl : flags) (r : regex) (s : string) : list mobj :=
  finditer_from fl r 0 0 None s.

(** The truth value of a match object or [None]. *)
Definition matched (o : option mobj) : bool :=
  match o with Some _ => true | None => false end.

Fixpoint cap_lookup (n : nat) (cs : caps) : option (nat * nat) :=
  match cs with
  | [] => None
  | (m, ij) :: cs' => if Nat.eqb m n then Some ij else cap_lookup n cs'
  end.

(** [m.group(n)]: [None] when the group took no part in the match. *)
Definition group (s : string) (m : mobj) (n : nat) : option string :=
  match cap_lookup n (m_caps m) with
  | Some (i, j) => Some (py_slice i j s)
  | None => None
  end.

End Re.

(** ** Exceptions *)

Inductive exn : Type :=
| JSONDecodeError | KeyError | TypeError | IndexError | AttributeError.

Inductive result (A : Type) : Type :=
| Ok (a : A)
| Raise (e : exn).
Arguments Ok {A} a.
Arguments Raise {A} e.

Definition bind {A B : Type} (m : result A) (f : A -> result B) : result B :=
  match m with
  | Ok a => f a
  | Raise e => Raise e
  end.

Notation "'let*' x ':=' m 'in' k" := (bind m (fun x => k))
  (at level 10, x name, m at level 100, k at level 200).

(** [o.attr] on a value that may be [None] *)
Definition attr_of {A : Type} (o : option A) : result A :=
  match o with
  | Some a => Ok a
  | None => Raise AttributeError
  end.

(** [l[i]] on a list *)
Definition index {A : Type} (l : list A) (i : nat) : result A :=
  match l !! i with
  | Some a => Ok a
  | None => Raise IndexError
  end.

(** ** meeting_sync.py: patterns and extraction *)

Module MeetingSync.
Import Re.

Definition IGNORECASE : flags := Flags true false false.
Definition MULTILINE : flags := Flags false true false.
Definition DOTALL : flags := Flags false false true.

Definition sp_plus : regex := Plus (COne ASpace).
Definition sp_star : regex := Star (COne ASpace).
Definition chr (c : ascii) : regex := Cls (COne (AChr c)).

Definition ill : regex := seq [Lit "i'"; words ["ll"; "m going to"; "m gonna"]].

Definition TRANSCRIPT_ACTION_PATTERNS : list regex :=
  [ seq [WordB; ill; sp_plus;
         words ["send"; "email"; "share"; "follow up"; "reach out"; "schedule"; "set up";
                "finalize"; "work on"; "handle"; "talk to"; "ping"; "create"; "draft";
                "write"; "build"; "update"; "put together"; "coordinate"; "own that"]];
    seq [WordB; Lit "i need to"; sp_plus;
         words ["send"; "email"; "share"; "follow up"; "reach out"; "schedule"; "set up";
                "finalize"; "work on"; "handle"; "talk to"; "figure out"; "check"; "get";
                "do"; "run"; "update"]];
    seq [WordB; Lit "we need to"; sp_plus;
         words ["send"; "email"; "share"; "follow up"; "reach out"; "schedule"; "set up";
                "finalize"; "work on"; "handle"; "figure out"; "check"; "get"; "do";
                "rebalance"; "reduce"; "pick"; "redesign"; "negotiate"]];
    seq [WordB; Lit "can you"; sp_plus;
         words ["send"; "email"; "share"; "follow up"; "reach out"; "schedule"; "set up";
                "get us"; "check"; "do"; "create"; "draft"; "handle"; "research"; "put"]];
    seq [WordB; Lit "by ";
         alts [Cat (Lit "end of ") (words ["day"; "week"]);
               Lit "monday"; Lit "tuesday"; Lit "wednesday"; Lit "thursday"; Lit "friday";
               Lit "next week"; Lit "tomorrow"; Lit "tonight"; Lit "eod"; Lit "eow"];
         WordB];
    seq [WordB; Lit "action item"; WordB];
    seq [WordB; Lit "next step"; Opt (Cls (CIn [AChr "s"])); sp_plus;
         words ["is"; "are"; "on"; "here"; "for"]; WordB];
    seq [WordB; Lit "follow"; Opt (Cls (CIn [AChr "-"; AChr " "])); Lit "up ";
         words ["with"; "on"]; WordB] ].

Definition TRANSCRIPT_ACTION_RE : regex := alts TRANSCRIPT_ACTION_PATTERNS.

Definition FILLER_WORDS : list string :=
  ["yeah"; "yep"; "okay"; "ok"; "cool"; "right"; "sure"; "mhm"; "uh huh"; "great";
   "alright"; "thanks"; "bye"; "hello"; "hi"; "hey"; "hmm"; "huh"; "wow"; "oh"].

Definition FILLER_TAIL : cclass := CIn [AChr "."; ASpace; AChr "!"; AChr "?"; AChr ","].

Definition FILLER_PATTERNS : regex :=
  seq [Bol; words FILLER_WORDS; Star FILLER_TAIL; Eol].

Definition NOISE_PATTERNS : regex :=
  alts [ seq [WordB; Lit "i need to ";
              words ["run"; "go"; "hop"; "jump"; "leave"; "mute"; "drop"]; WordB];
         seq [WordB; Lit "let me ";
              words ["see"; "show"; "think"; "check"; "look"; "pull up"; "share my screen"];
              WordB];
         seq [WordB; ill; Lit " "; words ["be "; "try "; "just "]] ].

(** [FILLER_PATTERNS.match(text)] *)
Definition is_filler (text : string) : bool :=
  matched (re_match IGNORECASE FILLER_PATTERNS text).

(** [TRANSCRIPT_ACTION_RE.search(text)] *)
Definition is_signal (text : string) : bool :=
  matched (re_search IGNORECASE TRANSCRIPT_ACTION_RE text).

(** [NOISE_PATTERNS.search(text)] *)
Definition is_noise (text : string) : bool :=
  matched (re_search IGNORECASE NOISE_PATTERNS text).

(** The decision taken for one utterance in the scanning loop: the filler
    test comes first ([continue]), then signal and not noise. *)
Definition is_actionable (text : string) : bool :=
  if is_filler text then false
  else is_signal text && negb (is_noise text).

(** [^title:\s*Q?([^Q\n]+)Q?] with [Q] the double quote *)
Definition TITLE_RE : regex :=
  seq [Bol; Lit "title:"; sp_star; Opt (chr DQ);
       Grp 1 (Plus (CNotIn [AChr DQ; AChr NL])); Opt (chr DQ)].

(** [## Transcript\n+(.*?)(?=\n## |\Z)] *)
Definition TRANSCRIPT_RE : regex :=
  seq [Lit "## Transcript"; Plus (COne (AChr NL)); Grp 1 (LazyStar CAny);
       Ahead (Alt (Lit (String NL "## ")) EndZ)].

(** [^\[([^\]]+)\]\s*\((\w+)\)\s*(.+)$] *)
Definition LINE_RE : regex :=
  seq [Bol; chr "["; Grp 1 (Plus (CNotIn [AChr "]"])); chr "]"; sp_star;
       chr "("; Grp 2 (Plus (COne AWord)); chr ")"; sp_star; Grp 3 (Plus CAny); Eol].

Record line : Type := Line { ts : option string; speaker : option string; text : string }.

(** How an f-string prints a value that is a [str] or [None]. *)
Definition fmt (o : option string) : string :=
  match o with Some s => s | None => "None" end.

Definition line_of_match (transcript_text : string) (m : mobj) : result line :=
  let* g3 := attr_of (group transcript_text m 3) in
  Ok (Line (group transcript_text m 1) (group transcript_text m 2) (py_strip g3)).

Fixpoint collect {A B : Type} (f : A -> result B) (l : list A) : result (list B) :=
  match l with
  | [] => Ok []
  | a :: l' => let* b := f a in let* bs := collect f l' in Ok (b :: bs)
  end.

Definition parse_lines (transcript_text : string) : result (list line) :=
  collect (line_of_match transcript_text) (re_finditer MULTILINE LINE_RE transcript_text).

(** The [for j in range(1, 3)] loop: [js] is what is left of the range. *)
Fixpoint context_parts (lines : list line) (idx : nat) (js : list nat) (parts : list string)
  : result (list string) :=
  match js with
  | [] => Ok parts
  | j :: js' =>
      if Nat.ltb (idx + j) (length lines)
      then
        let* next := index lines (idx + j) in
        let next_text := text next in
        if negb (is_filler next_text)
        then context_parts lines idx js' (parts ++ [next_text])
        else Ok parts
      else context_parts lines idx js' parts
  end.

(** Join, collapse whitespace, trim and truncate. *)
Definition combine (parts : list string) : string :=
  let combined := join_sp parts in
  let combined := py_strip (sub_ws false combined) in
  if Nat.ltb 200 (py_len combined) then py_take 200 combined ++ "..." else combined.

Definition dedup_key (combined : string) : string := py_lower (py_take 60 combined).

Definition tagged (l : line) (combined : string) : string :=
  "(" ++ fmt (speaker l) ++ ") " ++ combined.

(** The state of the scanning loop. *)
Record scan : Type := Scan { seen : gset string; action_items : list string }.

(** One iteration of [for idx, line in enumerate(lines)]. *)
Definition scan_step (lines : list line) (st : scan) (idx : nat) (l : line) : result scan :=
  if is_filler (text l) then Ok st
  else if is_signal (text l) && negb (is_noise (text l))
  then
    let* parts := context_parts lines idx [1; 2] [text l] in
    let combined := combine parts in
    let key := dedup_key combined in
    if bool_decide (key ∉ seen st) && Nat.ltb 10 (py_len combined)
    then Ok (Scan ({[key]} ∪ seen st) (action_items st ++ [tagged l combined]))
    else Ok st
  else Ok st.

Fixpoint scan_loop (lines : list line) (st : scan) (idx : nat) (todo : list line) : result scan :=
  match todo with
  | [] => Ok st
  | l :: todo' => let* st' := scan_step lines st idx l in scan_loop lines st' (S idx) todo'
  end.

(** [extract_action_items_from_file]; the file is given by its stem and its
    content.  [title_of] is the title line, or the stem when there is none. *)
Definition title_of (stem content : string) : result string :=
  match re_search MULTILINE TITLE_RE content with
  | Some title_match =>
      let* g := attr_of (group content title_match 1) in
      Ok (py_strip g)
  | None => Ok stem
  end.

Definition extract_action_items_from_file (stem content : string)
  : result (string * list string) :=
  let* title := title_of stem content in
  match re_search DOTALL TRANSCRIPT_RE content with
  | None => Ok (title, [])
  | Some transcript_match =>
      let* g := attr_of (group content transcript_match 1) in
      let transcript_text := py_strip g in
      if startswith "Transcript not available" transcript_text then Ok (title, [])
      else
        let* lines := parse_lines transcript_text in
        match lines with
        | [] => Ok (title, [])
        | _ =>
            let* st := scan_loop lines (Scan ∅ []) 0 lines in
            Ok (title, action_items st)
        end
  end.

End MeetingSync.

(** ** Python values

    What [json.loads] returns and what Slack's payload holds: [None],
    booleans, integers, strings, lists and dictionaries with string keys (in
    insertion order).  Floating-point numbers are outside the model. *)

#[local] Unset Elimination Schemes.
Inductive pyval : Type :=
| PNone
| PBool (b : bool)
| PInt (z : Z)
| PStr (s : string)
| PList (l : list pyval)
| PDict (d : list (string * pyval)).
#[local] Set Elimination Schemes.

(** What may be put in a [set]: [hash] and [==] identify [True] with [1] and
    [False] with [0]; lists and dictionaries are unhashable. *)
Inductive hkey : Type :=
| HNone
| HInt (z : Z)
| HStr (s : string).

#[global] Instance hkey_eq_dec : EqDecision hkey.
Proof. solve_decision. Defined.

#[global] Instance hkey_countable : Countable hkey.
Proof.
  refine (inj_countable'
            (fun k => match k with
                      | HNone => inl tt
                      | HInt z => inr (inl z)
                      | HStr s => inr (inr s)
                      end)
            (fun x => match x with
                      | inl _ => HNone
                      | inr (inl z) => HInt z
                      | inr (inr s) => HStr s
                      end) _).
  intros []; reflexivity.
Defined.

Module Py.

Definition hash_key (v : pyval) : result hkey :=
  match v with
  | PNone => Ok HNone
  | PBool b => Ok (HInt (if b then 1 else 0))
  | PInt z => Ok (HInt z)
  | PStr s => Ok (HStr s)
  | PList _ | PDict _ => Raise TypeError
  end.

(** [v in s] for a set [s] *)
Definition contains (s : gset hkey) (v : pyval) : result bool :=
  let* k := hash_key v in
  Ok (bool_decide (k ∈ s)).

(** [s.add(v)] *)
Definition set_add (s : gset hkey) (v : pyval) : result (gset hkey) :=
  let* k := hash_key v in
  Ok ({[k]} ∪ s).

Fixpoint dict_get (d : list (string * pyval)) (k : string) : option pyval :=
  match d with
  | [] => None
  | (k', v) :: d' => if String.eqb k' k then Some v else dict_get d' k
  end.

(** [d[k] = v]: an existing key keeps its place. *)
Fixpoint dict_set (d : list (string * pyval)) (k : string) (v : pyval) : list (string * pyval) :=
  match d with
  | [] => [(k, v)]
  | (k', v') :: d' => if String.eqb k' k then (k, v) :: d' else (k', v') :: dict_set d' k v
  end.

(** [v.get(k, default)] *)
Definition get (v : pyval) (k : string) (default : pyval) : result pyval :=
  match v with
  | PDict d => Ok (match dict_get d k with Some x => x | None => default end)
  | _ => Raise AttributeError
  end.

(** [v[k]] for a string [k] *)
Definition getitem (v : pyval) (k : string) : result pyval :=
  match v with
  | PDict d => match dict_get d k with Some x => Ok x | None => Raise KeyError end
  | _ => Raise TypeError
  end.

(** [v[0]] *)
Definition getitem0 (v : pyval) : result pyval :=
  match v with
  | PList (x :: _) => Ok x
  | PList [] => Raise IndexError
  | PStr (String c _) => Ok (PStr (String c EmptyString))
  | PStr EmptyString => Raise IndexError
  | PDict _ => Raise KeyError
  | _ => Raise TypeError
  end.

Fixpoint chars (s : string) : list pyval :=
  match s with
  | EmptyString => []
  | String c r => PStr (String c EmptyString) :: chars r
  end.

(** [for x in v] *)
Definition iter (v : pyval) : result (list pyval) :=
  match v with
  | PList l => Ok l
  | PStr s => Ok (chars s)
  | PDict d => Ok (map (fun kv => PStr (fst kv)) d)
  | _ => Raise TypeError
  end.

Definition truthy (v : pyval) : bool :=
  match v with
  | PNone => false
  | PBool b => b
  | PInt z => negb (Z.eqb z 0)
  | PStr s => negb (String.eqb s EmptyString)
  | PList l => match l with [] => false | _ => true end
  | PDict d => match d with [] => false | _ => true end
  end.

(** [v == s] for a string literal [s] *)
Definition is_str (v : pyval) (s : string) : bool :=
  match v with
  | PStr s' => String.eqb s' s
  | _ => false
  end.

(** [v.startswith(p)] *)
Definition str_startswith (v : pyval) (p : string) : result bool :=
  match v with
  | PStr s => Ok (startswith p s)
  | _ => Raise AttributeError
  end.

(** [v.strip("*")] *)
Definition str_strip_star (v : pyval) : result string :=
  match v with
  | PStr s => Ok (py_strip_star s)
  | _ => Raise AttributeError
  end.

(** [try: m  except (json.JSONDecodeError, KeyError): h] *)
Definition try_except {A : Type} (m : result A) (h : result A) : result A :=
  match m with
  | Raise JSONDecodeError | Raise KeyError => h
  | other => other
  end.

End Py.

(** The JSON library as the reducer uses it: [json.loads] on a string gives
    the decoded value, or [None] for [json.JSONDecodeError]. *)
Class JsonLib : Type := json_loads : string -> option pyval.

(** ** A reference decoder and encoder for JSON

    The reducer below is written over an arbitrary [JsonLib]; this module
    gives one to run it with: the JSON grammar as Python's [json] reads it,
    for the values of [pyval] (a text holding a float, [NaN] or an escape
    above 255 is not decoded).  [fuel] bounds the nesting and the number
    of elements; the length of the text is always enough. *)

Module Json.

Definition is_ws (c : ascii) : bool :=
  Nat.eqb (code c) 32 || Nat.eqb (code c) 9 || Nat.eqb (code c) 10 || Nat.eqb (code c) 13.

Definition is_digit (c : ascii) : bool := between 48 57 (code c).

Fixpoint skip_ws (s : string) : string :=
  match s with
  | String c r => if is_ws c then skip_ws r else s
  | EmptyString => EmptyString
  end.

Definition hex_val (c : ascii) : option nat :=
  let n := code c in
  if between 48 57 n then Some (n - 48)
  else if between 97 102 n then Some (n - 87)
  else if between 65 70 n then Some (n - 55)
  else None.

(** The four hexadecimal digits after a backslash and [u]. *)
Definition hex4 (s : string) : option (nat * string) :=
  match s with
  | String a (String b (String c (String d r))) =>
      match hex_val a, hex_val b, hex_val c, hex_val d with
      | Some x, Some y, Some z, Some w => Some (((x * 16 + y) * 16 + z) * 16 + w, r)
      | _, _, _, _ => None
      end
  | _ => None
  end.

Definition unescape (c : ascii) : option ascii :=
  if Ascii.eqb c DQ then Some DQ
  else if Ascii.eqb c "\"%char then Some "\"%char
  else if Ascii.eqb c "/"%char then Some "/"%char
  else if Ascii.eqb c "b"%char then Some "008"%char
  else if Ascii.eqb c "f"%char then Some "012"%char
  else if Ascii.eqb c "n"%char then Some "010"%char
  else if Ascii.eqb c "r"%char then Some "013"%char
  else if Ascii.eqb c "t"%char then Some "009"%char
  else None.

(** The text of a string literal, from after its opening quote. *)
Fixpoint parse_chars (fuel : nat) (s : string) : option (string * string) :=
  match fuel with
  | O => None
  | S fuel' =>
      match s with
      | EmptyString => None
      | String c r =>
          if Ascii.eqb c DQ then Some (EmptyString, r)
          else if Ascii.eqb c "\"%char then
            match r with
            | String e r' =>
                if Ascii.eqb e "u"%char then
                  match hex4 r' with
                  | Some (n, r'') =>
                      if Nat.ltb n 256 then
                        match parse_chars fuel' r'' with
                        | Some (t, rest) => Some (String (ascii_of_nat n) t, rest)
                        | None => None
                        end
                      else None
                  | None => None
                  end
                else
                  match unescape e with
                  | Some x =>
                      match parse_chars fuel' r' with
                      | Some (t, rest) => Some (String x t, rest)
                      | None => None
                      end
                  | None => None
                  end
            | EmptyString => None
            end
          else if Nat.ltb (code c) 32 then None
          else
            match parse_chars fuel' r with
            | Some (t, rest) => Some (String c t, rest)
            | None => None
            end
      end
  end.

Fixpoint digits (s : string) (acc : Z) : Z * string :=
  match s with
  | String c r =>
      if is_digit c then digits r (acc * 10 + Z.of_nat (code c - 48)) else (acc, s)
  | EmptyString => (acc, s)
  end.

(** [0|[1-9]\d*], refused when a fraction or an exponent follows. *)
Definition parse_nat (s : string) : option (Z * string) :=
  match s with
  | String c r =>
      if is_digit c then
        let '(n, rest) := if Ascii.eqb c "0"%char then (0%Z, r) else digits s 0 in
        match rest with
        | String d _ =>
            if Ascii.eqb d "."%char || Ascii.eqb d "e"%char || Ascii.eqb d "E"%char
            then None else Some (n, rest)
        | EmptyString => Some (n, rest)
        end
      else None
  | EmptyString => None
  end.

Definition literal (word : string) (v : pyval) (s : string) : option (pyval * string) :=
  if startswith word s then Some (v, py_drop (String.length word) s) else None.

(** The elements of an array, from after the bracket; [parse] reads one
    value. *)
Definition elems_loop (parse : string -> option (pyval * string))
  : nat -> string -> list pyval -> option (pyval * string) :=
  fix elems (n : nat) (s : string) (acc : list pyval) : option (pyval * string) :=
    match n with
    | O => None
    | S n' =>
        match parse s with
        | Some (v, rest) =>
            match skip_ws rest with
            | String ","%char rest' => elems n' (skip_ws rest') (acc ++ [v])%list
            | String "]"%char rest' => Some (PList (acc ++ [v])%list, rest')
            | _ => None
            end
        | None => None
        end
    end.

(** The pairs of an object, from after the brace; a key met again keeps its
    place and takes the new value. *)
Definition pairs_loop (parse : string -> option (pyval * string))
  : nat -> string -> list (string * pyval) -> option (pyval * string) :=
  fix pairs (n : nat) (s : string) (acc : list (string * pyval)) : option (pyval * string) :=
    match n with
    | O => None
    | S n' =>
        match s with
        | String q r1 =>
            if Ascii.eqb q DQ then
              match parse_chars (S (String.length r1)) r1 with
              | Some (key, rest) =>
                  match skip_ws rest with
                  | String ":"%char rest' =>
                      match parse (skip_ws rest') with
                      | Some (v, rest'') =>
                          match skip_ws rest'' with
                          | String ","%char r2 => pairs n' (skip_ws r2) (Py.dict_set acc key v)
                          | String "}"%char r2 => Some (PDict (Py.dict_set acc key v), r2)
                          | _ => None
                          end
                      | None => None
                      end
                  | _ => None
                  end
              | None => None
              end
            else None
        | EmptyString => None
        end
    end.

Fixpoint parse_value (fuel : nat) (s : string) : option (pyval * string) :=
  match fuel with
  | O => None
  | S fuel' =>
      match s with
      | EmptyString => None
      | String c r =>
          if Ascii.eqb c DQ then
            match parse_chars (S (String.length r)) r with
            | Some (t, rest) => Some (PStr t, rest)
            | None => None
            end
          else if Ascii.eqb c "n"%char then literal "null" PNone s
          else if Ascii.eqb c "t"%char then literal "true" (PBool true) s
          else if Ascii.eqb c "f"%char then literal "false" (PBool false) s
          else if Ascii.eqb c "-"%char then
            match parse_nat r with
            | Some (n, rest) => Some (PInt (- n), rest)
            | None => None
            end
          else if is_digit c then
            match parse_nat s with
            | Some (n, rest) => Some (PInt n, rest)
            | None => None
            end
          else if Ascii.eqb c "["%char then
            match skip_ws r with
            | String "]"%char rest => Some (PList [], rest)
            | r0 => elems_loop (parse_value fuel') fuel' r0 []
            end
          else if Ascii.eqb c "{"%char then
            match skip_ws r with
            | String "}"%char rest => Some (PDict [], rest)
            | r0 => pairs_loop (parse_value fuel') fuel' r0 []
            end
          else None
      end
  end.

(** [json.loads(s)], [None] standing for [json.JSONDecodeError]. *)
Definition loads (s : string) : option pyval :=
  match parse_value (S (String.length s)) (skip_ws s) with
  | Some (v, rest) =>
      match skip_ws rest with
      | EmptyString => Some v
      | _ => None
      end
  | None => None
  end.

Definition hex_digit (n : nat) : ascii :=
  if Nat.ltb n 10 then ascii_of_nat (48 + n) else ascii_of_nat (87 + n).

(** How [json.dumps] writes one character of a string. *)
Definition escape (c : ascii) : string :=
  if Ascii.eqb c DQ then String "\"%char (String DQ EmptyString)
  else if Ascii.eqb c "\"%char then "\\"
  else if Ascii.eqb c "010"%char then "\n"
  else if Ascii.eqb c "013"%char then "\r"
  else if Ascii.eqb c "009"%char then "\t"
  else if Ascii.eqb c "008"%char then "\b"
  else if Ascii.eqb c "012"%char then "\f"
  else if between 32 126 (code c) then String c EmptyString
  else "\u00" ++ String (hex_digit (code c / 16)) (String (hex_digit (code c mod 16)) EmptyString).

Fixpoint escape_all (s : string) : string :=
  match s with
  | EmptyString => EmptyString
  | String c r => escape c ++ escape_all r
  end.

(** [json.dumps(s)] for a string *)
Definition dumps_str (s : string) : string :=
  String DQ (escape_all s) ++ String DQ EmptyString.

(** The last decimal digit of a number. *)
Definition digit_char (n : nat) : ascii := ascii_of_nat (48 + n mod 10).

Fixpoint nat_digits (fuel n : nat) (acc : string) : string :=
  match fuel with
  | O => acc
  | S fuel' =>
      let acc' := String (digit_char n) acc in
      if Nat.ltb n 10 then acc' else nat_digits fuel' (n / 10) acc'
  end.

(** [json.dumps(n)] for a natural number *)
Definition dumps_nat (n : nat) : string := nat_digits (S n) n EmptyString.

End Json.

(** ** bot.py *)

Module Bot.
Import Re Py.

(** A meeting with its action items: [{"title": ..., "items": [...]}]. *)
Record meeting : Type := Meeting { title : string; items : list string }.

(** [\bkatie\b] *)
Definition KATIE_RE : regex := seq [WordB; Lit "katie"; WordB].

(** The test of [split_katie_items] on one item. *)
Definition is_katie (item : string) : bool :=
  startswith "(me)" item
  || matched (re_search (Flags true false false) KATIE_RE item).

(** The inner loop: [katie] and [other] are the two lists being filled. *)
Fixpoint split_items (todo : list string) (katie other : list string)
  : list string * list string :=
  match todo with
  | [] => (katie, other)
  | item :: todo' =>
      if is_katie item
      then split_items todo' (katie ++ [item]) other
      else split_items todo' katie (other ++ [item])
  end.

Definition nonempty {A : Type} (l : list A) : bool :=
  match l with [] => false | _ => true end.

Fixpoint split_meetings (todo : list meeting) (katie_items other_meetings : list meeting)
  : list meeting * list meeting :=
  match todo with
  | [] => (katie_items, other_meetings)
  | m :: todo' =>
      let '(katie, other) := split_items (items m) [] [] in
      let katie_items :=
        if nonempty katie then (katie_items ++ [Meeting (title m) katie])%list else katie_items in
      let other_meetings :=
        if nonempty other then (other_meetings ++ [Meeting (title m) other])%list
    else other_meetings in
      split_meetings todo' katie_items other_meetings
  end.

Definition split_katie_items (action_items_by_meeting : list meeting)
  : list meeting * list meeting :=
  split_meetings action_items_by_meeting [] [].

(** [{"type": "divider"}] *)
Definition divider : pyval := PDict [("type", PStr "divider")].

Definition mrkdwn_section (t : string) : pyval :=
  PDict [("type", PStr "section");
         ("text", PDict [("type", PStr "mrkdwn"); ("text", PStr t)])].

(** [build_all_done_blocks]; [today] is what
    [datetime.now().strftime('%B %d, %Y')] gives at the call. *)
Definition build_all_done_blocks (today : string) : list pyval :=
  [mrkdwn_section ("*All action items completed* — " ++ today ++ " :white_check_mark:")].

(** [json.dumps({"m": m_idx, "i": i_idx, "text": item})] *)
Definition option_value (m_idx i_idx : nat) (item : string) : string :=
  "{" ++ Json.dumps_str "m" ++ ": " ++ Json.dumps_nat m_idx ++ ", "
  ++ Json.dumps_str "i" ++ ": " ++ Json.dumps_nat i_idx ++ ", "
  ++ Json.dumps_str "text" ++ ": " ++ Json.dumps_str item ++ "}".

Definition checkbox (m_idx i_idx : nat) (item : string) : pyval :=
  PDict [("text", PDict [("type", PStr "mrkdwn"); ("text", PStr item)]);
         ("value", PStr (option_value m_idx i_idx item))].

(** The blocks appended for one meeting by the last loop of
    [build_interactive_blocks]. *)
Definition meeting_blocks (m_idx : nat) (m : meeting) : list pyval :=
  let options := imap (checkbox m_idx) (items m) in
  ([PDict [("type", PStr "section");
           ("block_id", PStr ("meeting_title_" ++ Json.dumps_nat m_idx));
           ("text", PDict [("type", PStr "mrkdwn"); ("text", PStr ("*" ++ title m ++ "*"))])]]
   ++ (if nonempty options
       then [PDict [("type", PStr "actions");
                    ("block_id", PStr ("meeting_actions_" ++ Json.dumps_nat m_idx));
                    ("elements",
                      PList [PDict [("type", PStr "checkboxes");
                                    ("action_id", PStr ("done_checkbox_" ++ Json.dumps_nat m_idx));
                                    ("options", PList options)]])]]
       else [])
   ++ [divider])%list.

(** [build_interactive_blocks], with the date as in [build_all_done_blocks]. *)
Definition build_interactive_blocks (today : string) (action_items_by_meeting : list meeting)
  : list pyval :=
  let '(katie_items, other_meetings) := split_katie_items action_items_by_meeting in
  let blocks :=
    [PDict [("type", PStr "header");
            ("text", PDict [("type", PStr "plain_text");
                            ("text", PStr ("Action Items — " ++ today))])];
     divider] in
  let blocks :=
    if nonempty katie_items
    then (blocks ++ [mrkdwn_section "*Your action items:*"])%list else blocks in
  let blocks :=
    if nonempty other_meetings && nonempty katie_items
    then (blocks ++ [divider; mrkdwn_section "*Other action items:*"])%list else blocks in
  let all_meetings := (katie_items ++ other_meetings)%list in
  (blocks ++ concat (imap meeting_blocks all_meetings))%list.

Section Reducer.
Context {lib : JsonLib}.

(** [json.loads(v)]: anything but a string is a [TypeError]. *)
Definition loads (v : pyval) : result pyval :=
  match v with
  | PStr s => match json_loads s with Some x => Ok x | None => Raise JSONDecodeError end
  | _ => Raise TypeError
  end.

(** [json.loads(v)["text"]] *)
Definition loads_text (v : pyval) : result pyval :=
  let* parsed := loads v in
  getitem parsed "text".

(** One turn of the loop over [checked_values]. *)
Definition add_checked (checked_texts : gset hkey) (val : string) : result (gset hkey) :=
  try_except
    (let* t := loads_text (PStr val) in set_add checked_texts t)
    (set_add checked_texts (PStr val)).

Fixpoint add_all_checked (checked_texts : gset hkey) (checked_values : list string)
  : result (gset hkey) :=
  match checked_values with
  | [] => Ok checked_texts
  | val :: rest =>
      let* checked_texts := add_checked checked_texts val in
      add_all_checked checked_texts rest
  end.

(** The first pass over the options: does [opt] stay? *)
Definition keeps (checked_texts : gset hkey) (opt : pyval) : result bool :=
  try_except
    (let* v := getitem opt "value" in
     let* t := loads_text v in
     let* b := contains checked_texts t in
     Ok (negb b))
    (let* v := getitem opt "value" in
     let* b := contains checked_texts v in
     Ok (negb b)).

Fixpoint filter_r {A : Type} (f : A -> result bool) (l : list A) : result (list A) :=
  match l with
  | [] => Ok []
  | a :: l' =>
      let* b := f a in
      let* r := filter_r f l' in
      Ok (if b then a :: r else r)
  end.

(** One turn of the loop over [initial_options]. *)
Definition add_initial (checked_texts : gset hkey) (opt : pyval) : result (gset hkey) :=
  try_except
    (let* v := getitem opt "value" in
     let* t := loads_text v in
     set_add checked_texts t)
    (Ok checked_texts).

Fixpoint add_all_initial (checked_texts : gset hkey) (opts : list pyval) : result (gset hkey) :=
  match opts with
  | [] => Ok checked_texts
  | opt :: rest =>
      let* checked_texts := add_initial checked_texts opt in
      add_all_initial checked_texts rest
  end.

(** The test of the list comprehension that filters a second time. *)
Definition keeps_again (checked_texts : gset hkey) (o : pyval) : result bool :=
  let* v := getitem o "value" in
  let* t := loads_text v in
  let* b := contains checked_texts t in
  Ok (negb b).

(** The state of the walk over [existing_blocks]. *)
Record walk : Type :=
  Walk { checked_texts : gset hkey; new_blocks : list pyval; any_items_remaining : bool }.

Definition push (st : walk) (bs : list pyval) : walk :=
  Walk (checked_texts st) (new_blocks st ++ bs)%list (any_items_remaining st).

(** [block.get("type") == "section" and
     (block.get("block_id") or "").startswith("meeting_title_")] *)
Definition is_title_block (block : pyval) : result bool :=
  let* ty := get block "type" PNone in
  if is_str ty "section"
  then
    let* bid := get block "block_id" PNone in
    str_startswith (if truthy bid then bid else PStr "") "meeting_title_"
  else Ok false.

Definition has_type (block : pyval) (t : string) : result bool :=
  let* ty := get block "type" PNone in
  Ok (is_str ty t).

(** The body of [if actions_block:], up to the skip. *)
Definition reduce_group (st : walk) (title_block : pyval) (title_text : pyval)
  (actions_block : pyval) : result walk :=
  let* elements := getitem actions_block "elements" in
  let* element := getitem0 elements in
  let* options := get element "options" (PList []) in
  let* options := iter options in
  let* remaining_options := filter_r (keeps (checked_texts st)) options in
  let* initial := get element "initial_options" (PList []) in
  let* initial := iter initial in
  let* checked := add_all_initial (checked_texts st) initial in
  let* remaining_options := filter_r (keeps_again checked) remaining_options in
  if nonempty remaining_options
  then
    let* action_id := getitem element "action_id" in
    let new_actions :=
      match actions_block with
      | PDict d =>
          PDict (dict_set d "elements"
                   (PList [PDict [("type", PStr "checkboxes");
                                  ("action_id", action_id);
                                  ("options", PList remaining_options)]]))
      | other => other
      end in
    Ok (Walk checked (new_blocks st ++ [divider; title_block; new_actions])%list true)
  else
    let* clean_title := str_strip_star title_text in
    Ok (Walk checked
          (new_blocks st
           ++ [divider; mrkdwn_section ("~" ++ clean_title ++ "~ — all done :white_check_mark:")])%list
          (any_items_remaining st)).

(** The [while i < len(existing_blocks)] loop; [blocks] is
    [existing_blocks[i:]]. *)
Fixpoint walk_blocks (blocks : list pyval) (st : walk) : result walk :=
  match blocks with
  | [] => Ok st
  | block :: rest =>
      let* header := has_type block "header" in
      if header then walk_blocks rest (push st [block])
      else
        let* is_title := is_title_block block in
        if is_title
        then
          let* text_obj := getitem block "text" in
          let* title_text := getitem text_obj "text" in
          match rest with
          | [] => walk_blocks rest (push st [divider; block])
          | next :: rest' =>
              let* actions := has_type next "actions" in
              if actions
              then
                let* st' := reduce_group st block title_text next in
                match rest' with
                | [] => walk_blocks rest' st'
                | third :: rest'' =>
                    let* div := has_type third "divider" in
                    if div then walk_blocks rest'' st' else walk_blocks rest' st'
                end
              else walk_blocks rest (push st [divider; block])
          end
        else
          let* div := has_type block "divider" in
          if div then walk_blocks rest st
          else walk_blocks rest (push st [block])
  end.

(** [rebuild_blocks_after_check]; [checked_values] is the set in the order its
    iteration yields, [today] the date read by [build_all_done_blocks]. *)
Definition rebuild_blocks_after_check (today : string) (existing_blocks : list pyval)
  (checked_values : list string) : result (list pyval) :=
  let* checked := add_all_checked ∅ checked_values in
  let* st := walk_blocks existing_blocks (Walk checked [] false) in
  if negb (any_items_remaining st)
  then Ok (build_all_done_blocks today)
  else Ok (new_blocks st).

End Reducer.

End Bot.

(** * Vocabulary of the statements *)

Import Re Py MeetingSync Bot.

(** ** Texts *)

(** No two whitespace characters in a row. *)
Fixpoint no_ws_run (s : string) : bool :=
  match s with
  | String a r =>
      match r with
      | String b _ => negb (is_space a && is_space b) && no_ws_run r
      | EmptyString => true
      end
  | EmptyString => true
  end.

Definition starts_ws (s : string) : bool :=
  match s with String c _ => is_space c | EmptyString => false end.

Fixpoint all_chars (f : ascii -> bool) (s : string) : bool :=
  match s with
  | EmptyString => true
  | String c r => f c && all_chars f r
  end.

(** [w] is, up to the case of letters, the beginning of [s]. *)
Definition ci_prefix (w s : string) : bool :=
  String.eqb (py_lower (py_take (String.length w) s)) (py_lower w).

Fixpoint last_chr (prev : option ascii) (s : string) : option ascii :=
  match s with
  | EmptyString => prev
  | String c r => last_chr (Some c) r
  end.

(** ** The classifier *)

Definition filler_tail_char (c : ascii) : bool :=
  is_space c || Ascii.eqb c "."%char || Ascii.eqb c "!"%char || Ascii.eqb c "?"%char
  || Ascii.eqb c ","%char.


(** ** One extraction pass *)

(** The combined text built for the line at [idx]. *)
Definition combined_at (lines : list line) (idx : nat) (l : line) : string :=
  match context_parts lines idx [1; 2] [text l] with
  | Ok parts => combine parts
  | Raise _ => EmptyString
  end.

(** The actionable lines from [idx] on, each with its combined text. *)
Fixpoint candidates (lines : list line) (idx : nat) (todo : list line) : list (line * string) :=
  match todo with
  | [] => []
  | l :: todo' =>
      ((if is_actionable (text l) then [(l, combined_at lines idx l)] else [])
       ++ candidates lines (S idx) todo')%list
  end.

Definition long_enough (combined : string) : bool := Nat.ltb 10 (py_len combined).

(** First occurrences: a candidate is retained when its text is longer than
    10 characters and no earlier candidate of the pass ([earlier] holds their
    combined texts) has the same dedup key. *)
Fixpoint retained (earlier : list string) (cs : list (line * string)) : list string :=
  match cs with
  | [] => []
  | (l, c) :: cs' =>
      ((if bool_decide (dedup_key c ∉ map dedup_key earlier) && long_enough c
        then [tagged l c] else [])
       ++ retained (c :: earlier) cs')%list
  end.

(** The keys the pass has stored after the candidates [earlier]. *)
Definition seen_of (earlier : list string) : gset string :=
  list_to_set (map dedup_key (List.filter long_enough earlier)).

(** An item as line 546 writes it: the speaker of the line in parentheses,
    a blank, and the text.  The speaker is what [\w+] has matched: a word
    that is not empty, so it holds no parenthesis and the item is split in
    one way only. *)
Definition speaker_tagged (item who text : string) : Prop :=
  item = "(" ++ who ++ ") " ++ text
  /\ who <> EmptyString /\ all_chars is_word who = true.

(** An action item is [(speaker) text] with a bounded, collapsed text. *)
Definition item_ok (item : string) : Prop :=
  exists who combined,
    speaker_tagged item who combined
    /\ py_len combined <= 203 /\ no_ws_run combined = true.

(** ** Capturing groups *)

(** Does every successful run of [r] fill group [n]? *)
Fixpoint binds (n : nat) (r : regex) : bool :=
  match r with
  | Grp m r1 => Nat.eqb m n || binds n r1
  | Cat r1 r2 => binds n r1 || binds n r2
  | Alt r1 r2 => binds n r1 && binds n r2
  | _ => false
  end.

Definition bound (n : nat) (cs : caps) : Prop := cap_lookup n cs <> None.

(** ** The owner's name *)

(** [\bkatie\b] matches at the beginning of [s], after [prev]. *)
Definition katie_at (prev : option ascii) (s : string) : bool :=
  negb (word_opt prev) && ci_prefix "katie" s && negb (word_opt (next_chr (py_drop 5 s))).

(** [item] holds the name as a whole word, in any case; [prev] is the
    character before [item]. *)
Definition katie_word_in (prev : option ascii) (item : string) : Prop :=
  exists pre w post,
    item = pre ++ w ++ post
    /\ py_lower w = "katie"
    /\ word_opt (last_chr prev pre) = false
    /\ word_opt (next_chr post) = false.

Definition whole_word_katie (item : string) : Prop := katie_word_in None item.

Definition not_katie (item : string) : bool := negb (is_katie item).

(** What one meeting contributes to a partition: its items that pass [f], in
    their order, when there is one. *)
Definition part (f : string -> bool) (m : meeting) : option meeting :=
  let its := List.filter f (items m) in
  if nonempty its then Some (Meeting (title m) its) else None.

(** ** Checklists *)

Definition field (b : pyval) (k : string) : option pyval :=
  match b with PDict d => dict_get d k | _ => None end.

Definition type_is (b : pyval) (t : string) : bool :=
  match field b "type" with Some (PStr s) => String.eqb s t | _ => false end.

(** A meeting title block. *)
Definition title_like (b : pyval) : bool :=
  type_is b "section"
  && match field b "block_id" with
     | Some (PStr id) => startswith "meeting_title_" id
     | _ => false
     end.

Definition title_text_of (b : pyval) : option string :=
  match field b "text" with
  | Some t => match field t "text" with Some (PStr s) => Some s | _ => None end
  | None => None
  end.

Definition is_dict (b : pyval) : bool :=
  match b with PDict _ => true | _ => false end.

(** A block other than an actions block: a dictionary whose [block_id], for
    a section, is a string or falsy, and whose text is a string when it is a
    title. *)
Definition block_ok (b : pyval) : bool :=
  is_dict b
  && (negb (type_is b "section")
      || match field b "block_id" with
         | None => true
         | Some (PStr _) => true
         | Some v => negb (truthy v)
         end)
  && (negb (title_like b) || bool_decide (is_Some (title_text_of b))).

(** [a["elements"][0]] *)
Definition element_of (a : pyval) : option pyval :=
  match field a "elements" with
  | Some (PList (el :: _)) => Some el
  | _ => None
  end.

Definition list_field (el : pyval) (k : string) : option (list pyval) :=
  match field el k with
  | None => Some []
  | Some (PList l) => Some l
  | Some _ => None
  end.

Definition options_of (a : pyval) (k : string) : list pyval :=
  match element_of a with
  | Some el => match list_field el k with Some l => l | None => [] end
  | None => []
  end.

(** A group unit: a title block and the options and initial options of the
    actions block that follows it. *)
Record cgroup : Type := CGroup { g_title : pyval; g_options : list pyval; g_initial : list pyval }.

Definition group_at (t a : pyval) : cgroup :=
  CGroup t (options_of a "options") (options_of a "initial_options").

Fixpoint groups_of (B : list pyval) : list cgroup :=
  match B with
  | [] => []
  | b :: rest =>
      ((match rest with
        | a :: _ => if title_like b && type_is a "actions" then [group_at b a] else []
        | [] => []
        end) ++ groups_of rest)%list
  end.

Definition all_options (B : list pyval) : list pyval :=
  concat (map g_options (groups_of B)).

(** Every title block is followed by its actions block. *)
Fixpoint no_dangling (B : list pyval) : bool :=
  match B with
  | [] => true
  | b :: rest =>
      (negb (title_like b)
       || match rest with a :: _ => type_is a "actions" | [] => false end)
      && no_dangling rest
  end.

Definition head_plain (out : list pyval) : Prop :=
  match out with
  | [] => True
  | b :: _ => type_is b "actions" = false
  end.

(** The actions block written back for a group that keeps [remaining]. *)
Definition rebuilt (a : pyval) (action_id : pyval) (remaining : list pyval) : pyval :=
  match a with
  | PDict d =>
      PDict (dict_set d "elements"
               (PList [PDict [("type", PStr "checkboxes");
                              ("action_id", action_id);
                              ("options", PList remaining)]]))
  | other => other
  end.

Definition done_marker (s : string) : pyval :=
  mrkdwn_section ("~" ++ py_strip_star s ++ "~ — all done :white_check_mark:").

Definition same_elements (S S' : list string) : bool :=
  forallb (fun v => bool_decide (v ∈ S')) S && forallb (fun v => bool_decide (v ∈ S)) S'.

Section Checklists.
Context {lib : JsonLib}.

Definition key_of (v : pyval) : option hkey :=
  match hash_key v with Ok k => Some k | Raise _ => None end.

(** The text an option value decodes to. *)
Definition value_key (v : string) : option hkey :=
  match json_loads v with
  | Some (PDict d) => match dict_get d "text" with Some t => key_of t | None => None end
  | _ => None
  end.

Definition option_key (opt : pyval) : option hkey :=
  match opt with
  | PDict d => match dict_get d "value" with Some (PStr v) => value_key v | _ => None end
  | _ => None
  end.

(** What a checked value stands for: its decoded text, or itself when it is
    no JSON text or an object without a text; nothing when the decoded value
    is not an object or its text cannot be hashed. *)
Definition checked_key (val : string) : option hkey :=
  match json_loads val with
  | None => Some (HStr val)
  | Some (PDict d) =>
      match dict_get d "text" with Some t => key_of t | None => Some (HStr val) end
  | Some _ => None
  end.

Definition checked_keys (checked_values : list string) : gset hkey :=
  list_to_set (omap checked_key checked_values).

(** Every checked value is a JSON object or a legacy plain text. *)
Definition checked_ok (checked_values : list string) : bool :=
  forallb (fun v => bool_decide (is_Some (checked_key v))) checked_values.

Definition options_ok (opts : option (list pyval)) : bool :=
  match opts with
  | Some l => forallb (fun o => bool_decide (is_Some (option_key o))) l
  | None => false
  end.

Definition actions_ok (a : pyval) : bool :=
  match element_of a with
  | Some el =>
      is_dict el
      && options_ok (list_field el "options")
      && options_ok (list_field el "initial_options")
      && bool_decide (is_Some (field el "action_id"))
  | None => false
  end.

(** A rendered checklist, as the renderer and the reducer write it: every
    actions block follows a title block and holds options whose values
    decode to an object with a text. *)
Fixpoint checklist_from (after_title : bool) (B : list pyval) : bool :=
  match B with
  | [] => true
  | b :: rest =>
      (if type_is b "actions" then after_title && actions_ok b else block_ok b)
      && checklist_from (title_like b) rest
  end.

Definition checklist (B : list pyval) : bool := checklist_from false B.

Definition all_keyed (l : list pyval) : Prop := Forall (fun o => is_Some (option_key o)) l.

Definition keep_opt (T : gset hkey) (o : pyval) : bool :=
  match option_key o with
  | Some k => bool_decide (k ∉ T)
  | None => false
  end.

Definition initial_keys (g : cgroup) : gset hkey :=
  list_to_set (omap option_key (g_initial g)).

(** The groups left by a reduction that starts with the checked texts [T]:
    a group loses the options whose text is in [T] or among its initial
    options, disappears when none is left, and hands its initial options on
    to the groups after it. *)
Fixpoint survivors (T : gset hkey) (gs : list cgroup) : list cgroup :=
  match gs with
  | [] => []
  | g :: gs' =>
      let T' := T ∪ initial_keys g in
      let opts := List.filter (keep_opt T') (g_options g) in
      ((if nonempty opts then [CGroup (g_title g) opts []] else []) ++ survivors T' gs')%list
  end.

(** [g'] is what is left of [g]: same title, some of its options, none of
    them checked ([T]) or recorded as initially checked in [g]. *)
Definition shrinks (T : gset hkey) (g g' : cgroup) : Prop :=
  g_title g' = g_title g
  /\ sublist (g_options g') (g_options g)
  /\ forall o k, o ∈ g_options g' -> option_key o = Some k -> (k ∉ T) /\ (k ∉ initial_keys g).

(** A group as the renderer writes it: at least one option, each with a
    decodable value, and no initial options. *)
Definition fresh_group (g : cgroup) : bool :=
  nonempty (g_options g)
  && forallb (fun o => bool_decide (is_Some (option_key o))) (g_options g)
  && negb (nonempty (g_initial g)).

Definition rendered (B : list pyval) : bool :=
  checklist B && forallb fresh_group (groups_of B) && no_dangling B.

(** What a stretch of the walk adds to the blocks built so far. *)
Definition outcome (st : walk) (gs : list cgroup) (st' : walk) : Prop :=
  exists out,
    new_blocks st' = (new_blocks st ++ out)%list
    /\ head_plain out
    /\ checklist out = true
    /\ groups_of out = gs
    /\ any_items_remaining st' = any_items_remaining st || nonempty gs.

End Checklists.

(** ** The renderer *)

Definition has_items (m : meeting) : Prop := nonempty (items m) = true.

(** The blocks of the meetings [ms], numbered from [k]. *)
Definition body (k : nat) (ms : list meeting) : list pyval :=
  concat (imap (fun i => meeting_blocks (k + i)) ms).

(** ** Data of the examples *)

(** The reference decoder as the JSON library of the closed examples. *)
Definition reference : JsonLib := Json.loads.

Definition LF : string := String NL EmptyString.

Definition example_meetings : list meeting :=
  [Meeting "Sync" ["(me) send it"; "(them) can you share the deck"];
   Meeting "Plan" ["(them) we need to pick a date"; "(me) send it"]].

Definition example_blocks : list pyval :=
  build_interactive_blocks "November 04, 2026" example_meetings.

(** A checklist posted with plain-text option values. *)
Definition legacy_blocks : list pyval :=
  [PDict [("type", PStr "section"); ("block_id", PStr "meeting_title_0");
          ("text", PDict [("type", PStr "mrkdwn"); ("text", PStr "*Sync*")])];
   PDict [("type", PStr "actions"); ("block_id", PStr "meeting_actions_0");
          ("elements",
            PList [PDict [("type", PStr "checkboxes");
                          ("action_id", PStr "done_checkbox_0");
                          ("options",
                            PList [PDict [("text", PDict [("type", PStr "mrkdwn");
                                                          ("text", PStr "legacy")]);
                                          ("value", PStr "legacy")]])]])]].

(** A file whose transcript has two lines, neither of the form
    [[timestamp] (speaker) text]. *)
Definition broken_lines_file : string :=
  "## Transcript" ++ LF ++ LF ++ "[a] (me)" ++ LF ++ "I'll send the report by Friday" ++ LF.

(** * The rest of meeting_sync.py *)

(** ** File names *)

Module Vault.

(** The characters that [re.sub(r'[^a-z0-9\s-]', '', text)] keeps. *)
Definition slug_keeps (c : ascii) : bool :=
  between 97 122 (code c) || between 48 57 (code c) || is_space c || Ascii.eqb c "-"%char.

Fixpoint py_filter (f : ascii -> bool) (s : string) : string :=
  match s with
  | EmptyString => EmptyString
  | String c r => if f c then String c (py_filter f r) else py_filter f r
  end.

(** [re.sub(r'[\s]+', '-', s)] and [re.sub(r'-+', '-', s)]: every maximal
    run of characters of the class [f] becomes one [rep].  [in_run] tells
    that the previous character was in the class. *)
Fixpoint sub_runs (f : ascii -> bool) (rep : ascii) (in_run : bool) (s : string) : string :=
  match s with
  | EmptyString => EmptyString
  | String c r =>
      if f c
      then (if in_run then sub_runs f rep true r else String rep (sub_runs f rep true r))
      else String c (sub_runs f rep false r)
  end.

Definition is_dash (c : ascii) : bool := Ascii.eqb c "-"%char.

(** [slugify(text, max_len)], for a [max_len] that is not negative. *)
Definition slugify (text : string) (max_len : nat) : string :=
  let text := py_lower text in
  let text := py_filter slug_keeps text in
  let text := sub_runs is_space "-"%char false (py_strip text) in
  let text := sub_runs is_dash "-"%char false text in
  rstrip_by is_dash (py_take max_len text).

(** ** Classification *)

(** [s.endswith(suffix)] *)
Definition endswith (suffix s : string) : bool :=
  Nat.leb (String.length suffix) (String.length s)
  && String.eqb (py_drop (String.length s - String.length suffix) s) suffix.

(** [needle in hay] for two strings *)
Fixpoint str_in (needle hay : string) : bool :=
  startswith needle hay
  || match hay with
     | String _ r => str_in needle r
     | EmptyString => false
     end.

(** [s.split(x)[0]] *)
Fixpoint before_chr (x : ascii) (s : string) : string :=
  match s with
  | EmptyString => EmptyString
  | String c r => if Ascii.eqb c x then EmptyString else String c (before_chr x r)
  end.

(** What follows the first [x] in [s], when there is one. *)
Fixpoint after_chr (x : ascii) (s : string) : option string :=
  match s with
  | EmptyString => None
  | String c r => if Ascii.eqb c x then Some r else after_chr x r
  end.

(** [e.split("@")[1] if "@" in e else ""] *)
Definition domain_of (e : string) : string :=
  match after_chr "@" e with
  | Some r => before_chr "@" r
  | None => EmptyString
  end.

(** [x in l] for a list of strings *)
Definition str_elem (x : string) (l : list string) : bool := existsb (String.eqb x) l.

(** A participant, [{"name": ..., "email": ...}], each field as
    [p.get(k, "")] finds it: a text, empty when the key is missing, or
    [None], which is what a null of the cache is read as. *)
Record participant : Type :=
  Participant { p_name : option string; p_email : option string }.

(** [v.lower()] for a value that is a text or [None] *)
Definition lower_of (v : option string) : result string :=
  match v with
  | Some s => Ok (py_lower s)
  | None => Raise AttributeError
  end.

(** One entry of [classification_rules]; the three lists are empty when
    missing, the folder is read with [rule["folder"]]. *)
Record rule : Type :=
  Rule { r_domains : list string; r_title_keywords : list string;
         r_name_keywords : list string; r_folder : option string }.

(** The part of the configuration that classification reads; the
    dictionary [one_on_one_names] in the order of its items. *)
Record config : Type :=
  Config { organization_domain : string; classification_rules : list rule;
           one_on_one_names : list (string * string); default_folder : option string }.

(** The three tests of one rule, in the order of the loop body. *)
Definition rule_hits (domains names : list string) (title_lower : string) (r : rule) : bool :=
  existsb (fun domain => str_elem domain domains) (r_domains r)
  || existsb (fun kw => str_in kw title_lower) (r_title_keywords r)
  || existsb (fun kw => existsb (str_in kw) names) (r_name_keywords r).

(** [rule["folder"]] *)
Definition folder_of (r : rule) : result string :=
  match r_folder r with Some f => Ok f | None => Raise KeyError end.

(** The loop over the rules: [None] when it ends without a [return]. *)
Fixpoint by_rules (domains names : list string) (title_lower : string) (rules : list rule)
  : option (result string) :=
  match rules with
  | [] => None
  | r :: rules' =>
      if rule_hits domains names title_lower r then Some (folder_of r)
      else by_rules domains names title_lower rules'
  end.

(** The loop over [one_on_one_names.items()]. *)
Fixpoint by_name (names : list string) (pairs : list (string * string)) : option string :=
  match pairs with
  | [] => None
  | (name_key, folder) :: pairs' =>
      if existsb (str_in name_key) names then Some folder else by_name names pairs'
  end.

Definition nonempty_str (s : string) : bool := negb (String.eqb s EmptyString).

(** [classify_meeting(title, participants, cfg)]; [title] may be [None]. *)
Definition classify_meeting (title : option string) (participants : list participant)
  (cfg : config) : result string :=
  let title_lower := py_lower (match title with Some t => t | None => EmptyString end) in
  let* emails := collect (fun p => lower_of (p_email p)) participants in
  let* names := collect (fun p => lower_of (p_name p)) participants in
  let domains := map domain_of emails in
  let org_domain := organization_domain cfg in
  let default := match default_folder cfg with Some f => f | None => "General" end in
  match by_rules domains names title_lower (classification_rules cfg) with
  | Some r => r
  | None =>
      if nonempty_str org_domain
      then
        let org_emails := List.filter (endswith ("@" ++ org_domain)) emails in
        let non_org :=
          List.filter (fun e => nonempty_str e && negb (endswith ("@" ++ org_domain) e)) emails in
        if Nat.eqb (length non_org) 0 && Nat.eqb (length org_emails) 2
        then
          match by_name names (one_on_one_names cfg) with
          | Some folder => Ok folder
          | None => Ok "1:1"
          end
        else Ok default
      else Ok default
  end.

(** ** The transcript of a meeting *)

(** [s.replace(x, y)] for a character [x] *)
Fixpoint replace_chr (x : ascii) (y : string) (s : string) : string :=
  match s with
  | EmptyString => EmptyString
  | String c r => if Ascii.eqb c x then y ++ replace_chr x y r else String c (replace_chr x y r)
  end.

(** [sep.join(parts)] *)
Fixpoint join (sep : string) (parts : list string) : string :=
  match parts with
  | [] => EmptyString
  | [p] => p
  | p :: ps => p ++ sep ++ join sep ps
  end.

(** A segment of a transcript in the cache: its text and start time (empty
    when missing) and its source, if it has one. *)
Record segment : Type :=
  Segment { seg_text : string; start_timestamp : string; seg_source : option string }.

(** ["me" if source == "microphone" else "them" if source == "system" else
    source] *)
Definition label_of (source : string) : string :=
  if String.eqb source "microphone" then "me"
  else if String.eqb source "system" then "them"
  else source.

Definition seg_ts (seg : segment) : string :=
  replace_chr "T" " " (py_take 19 (start_timestamp seg)).

Definition seg_label (seg : segment) : string :=
  label_of (match seg_source seg with Some s => s | None => "unknown" end).

(** One turn of the loop over the segments: the line it appends, if any. *)
Definition transcript_line (seg : segment) : option string :=
  let text := py_strip (seg_text seg) in
  if String.eqb text EmptyString then None
  else Some ("[" ++ seg_ts seg ++ "] (" ++ seg_label seg ++ ") " ++ text).

Definition transcript_lines (segs : list segment) : list string := omap transcript_line segs.

(** The [transcript] field of a new meeting. *)
Definition transcript_of (segs : list segment) : string :=
  join (String NL EmptyString) (transcript_lines segs).

(** ** Meeting files *)

(** A new meeting as [extract_new_meetings] builds it; the title is [None]
    when the cache holds a null. *)
Record new_meeting : Type :=
  NewMeeting { mt_id : string; mt_title : option string; mt_created_at : string;
               mt_granola_folder : string; mt_participants : list participant;
               mt_notes : string; mt_summary : string; mt_transcript : string;
               mt_has_transcript : bool }.

(** [s or default] for a string *)
Definition str_or (s default : string) : string :=
  if String.eqb s EmptyString then default else s.

(** [s] between double quotes *)
Definition quoted (s : string) : string := String DQ (s ++ String DQ EmptyString).

(** [v] in an f-string, for a value that is a text or [None] *)
Definition py_str (v : option string) : string :=
  match v with Some t => t | None => "None" end.

(** The loop that builds [participants_yaml]; [replace] raises on a name
    that is [None]. *)
Fixpoint participants_yaml (ps : list participant) : result string :=
  match ps with
  | [] => Ok EmptyString
  | p :: ps' =>
      let* name :=
        match p_name p with
        | Some n => Ok (replace_chr DQ (String "\"%char (String DQ EmptyString)) n)
        | None => Raise AttributeError
        end in
      let email := py_str (p_email p) in
      let* rest := participants_yaml ps' in
      Ok (("  - name: " ++ quoted name ++ LF ++ "    email: " ++ email ++ LF) ++ rest)
  end.

(** [str(b).lower()] *)
Definition bool_lower (b : bool) : string := if b then "true" else "false".

Definition NO_SUMMARY : string := "No summary available.".
Definition NO_NOTES : string := "No notes.".
Definition NO_TRANSCRIPT : string :=
  "Transcript not available — Granola only retains transcripts for recent meetings.".

(** The file up to the heading of the transcript; [yaml] is the text that
    the loop over the participants has built. *)
Definition file_front (meeting : new_meeting) (folder yaml : string) : string :=
  "---" ++ LF
  ++ "title: " ++ quoted (py_str (mt_title meeting)) ++ LF
  ++ "date: " ++ py_take 10 (mt_created_at meeting) ++ LF
  ++ "granola_id: " ++ mt_id meeting ++ LF
  ++ "granola_folder: " ++ quoted (mt_granola_folder meeting) ++ LF
  ++ "entity: " ++ quoted (before_chr "/" folder) ++ LF
  ++ "subproject: " ++ quoted EmptyString ++ LF
  ++ "has_transcript: " ++ bool_lower (mt_has_transcript meeting) ++ LF
  ++ "participants:" ++ LF
  ++ yaml ++ "---" ++ LF
  ++ LF
  ++ "## Summary" ++ LF
  ++ LF
  ++ str_or (mt_summary meeting) NO_SUMMARY ++ LF
  ++ LF
  ++ "## Notes" ++ LF
  ++ LF
  ++ str_or (mt_notes meeting) NO_NOTES ++ LF
  ++ LF.

(** The text of the file. *)
Definition file_content (meeting : new_meeting) (folder yaml : string) : string :=
  file_front meeting folder yaml
  ++ "## Transcript" ++ LF
  ++ LF
  ++ str_or (mt_transcript meeting) NO_TRANSCRIPT ++ LF.

(** The name of the file, from the slug of the title. *)
Definition file_name (meeting : new_meeting) (title_slug : string) : string :=
  py_take 10 (mt_created_at meeting) ++ "-" ++ title_slug ++ ".md".

(** [write_meeting_file(meeting, cfg)]: the relative path it returns and
    the text it writes there.  [slugify] raises on a title that is
    [None]. *)
Definition write_meeting_file (meeting : new_meeting) (cfg : config)
  : result (string * string) :=
  let* title_slug :=
    match mt_title meeting with
    | Some t => Ok (slugify t 80)
    | None => Raise AttributeError
    end in
  let filename := file_name meeting title_slug in
  let* folder := classify_meeting (mt_title meeting) (mt_participants meeting) cfg in
  let* yaml := participants_yaml (mt_participants meeting) in
  Ok (folder ++ "/" ++ filename, file_content meeting folder yaml).

Definition CR : ascii := "013"%char.

(** What [Path.read_text()] returns for a file in which [write_text] has
    stored [written] (where the line separator is the line feed, the text
    is stored as it is): in text mode a carriage return, with the line feed
    after it if there is one, is read as one line feed. *)
Fixpoint read_text (written : string) : string :=
  match written with
  | EmptyString => EmptyString
  | String c r =>
      if Ascii.eqb c CR
      then
        match r with
        | String c' r' =>
            if Ascii.eqb c' NL then String NL (read_text r') else String NL (read_text r)
        | EmptyString => String NL EmptyString
        end
      else String c (read_text r)
  end.

(** ** The participants of a meeting *)

(** A text of the cache, as [d.get(k, default)] finds it: the key is
    missing, the value is null, or it is a string. *)
Inductive jtext : Type :=
| Missing
| Null
| Text (s : string).

(** [d.get(k, default)]: a text, or [None] for a null. *)
Definition get_text (v : jtext) (default : option string) : option string :=
  match v with
  | Missing => default
  | Null => None
  | Text s => Some s
  end.

(** The truth value of a text or [None]. *)
Definition truthy (v : option string) : bool :=
  match v with Some s => nonempty_str s | None => false end.

(** A person of the cache ([people.creator], [people.attendees]): the
    email, the name and [details.person.name.fullName].  The email is
    empty when it is missing or null: the code uses it only after testing
    that it is true. *)
Record person : Type :=
  Person { pe_email : string; pe_name : jtext; pe_full_name : jtext }.

(** An attendee of the calendar event: the email, as for a person, and
    [displayName]. *)
Record cal_attendee : Type := CalAttendee { ca_email : string; ca_display_name : jtext }.

(** The two variables of the loops: [participants] and [seen_emails]. *)
Record roll : Type := Roll { participants : list participant; seen_emails : gset string }.

(** The [if creator.get("email"):] block. *)
Definition add_creator (creator : person) : roll :=
  if nonempty_str (pe_email creator)
  then
    let name := get_text (pe_name creator) (Some EmptyString) in
    let full_name := get_text (pe_full_name creator) name in
    Roll [Participant full_name (Some (pe_email creator))] {[py_lower (pe_email creator)]}
  else Roll [] ∅.

(** One turn of [for a in people_attendees]. *)
Definition add_attendee (st : roll) (a : person) : roll :=
  let email := pe_email a in
  let name := get_text (pe_name a) (Some EmptyString) in
  let name := if truthy name then name else get_text (pe_full_name a) (Some EmptyString) in
  if nonempty_str email && bool_decide (py_lower email ∉ seen_emails st)
  then Roll (participants st ++ [Participant name (Some email)])
         ({[py_lower email]} ∪ seen_emails st)
  else st.

(** One turn of [for a in cal_attendees]. *)
Definition add_cal_attendee (st : roll) (a : cal_attendee) : roll :=
  let email := ca_email a in
  if nonempty_str email && bool_decide (py_lower email ∉ seen_emails st)
  then Roll (participants st
             ++ [Participant (get_text (ca_display_name a) (Some EmptyString)) (Some email)])
         ({[py_lower email]} ∪ seen_emails st)
  else st.

(** The participants that [extract_new_meetings] builds for a document. *)
Definition participants_of (creator : person) (people_attendees : list person)
  (cal_attendees : list cal_attendee) : list participant :=
  participants
    (fold_left add_cal_attendee cal_attendees
       (fold_left add_attendee people_attendees (add_creator creator))).

(** ** Notes *)

(** A mark of a text node: its type and [attrs.href], empty when missing. *)
Record mark : Type := Mark { mark_type : string; mark_href : string }.

(** A ProseMirror node: a plain string, or a dictionary with its [type],
    [content], [text] and [marks] (empty when missing), [attrs.level]
    (1 when missing) and the truth value of [attrs.checked]. *)
#[local] Unset Elimination Schemes.
Inductive node : Type :=
| NStr (s : string)
| NDict (ntype : string) (content : list node) (text : string) (marks : list mark)
    (level : nat) (checked : bool).
#[local] Set Elimination Schemes.

(** The loop over the marks of a text node. *)
Fixpoint apply_marks (t : string) (ms : list mark) : string :=
  match ms with
  | [] => t
  | m :: ms' =>
      let t :=
        if String.eqb (mark_type m) "bold" then "**" ++ t ++ "**"
        else if String.eqb (mark_type m) "italic" then "*" ++ t ++ "*"
        else if String.eqb (mark_type m) "link" then "[" ++ t ++ "](" ++ mark_href m ++ ")"
        else t in
      apply_marks t ms'
  end.

(** [s.split("\n")]; [cur] is the line being read. *)
Fixpoint split_nl (cur : string) (s : string) : list string :=
  match s with
  | EmptyString => [cur]
  | String c r =>
      if Ascii.eqb c NL then cur :: split_nl EmptyString r
      else split_nl (cur ++ String c EmptyString) r
  end.

(** ["#" * level] *)
Fixpoint hashes (level : nat) : string :=
  match level with
  | O => EmptyString
  | S n => String "#"%char (hashes n)
  end.

(** The loop over [lines[1:]] of a list item. *)
Fixpoint more_lines (result : string) (lines : list string) : string :=
  match lines with
  | [] => result
  | line :: lines' =>
      more_lines
        (if nonempty_str (py_strip line) then result ++ "  " ++ line ++ LF else result) lines'
  end.

Definition list_item (joined : string) : string :=
  match split_nl EmptyString (py_strip joined) with
  | first :: rest => more_lines ("- " ++ first ++ LF) rest
  | [] => EmptyString
  end.

(** [prosemirror_to_md(node)] *)
Fixpoint prosemirror_to_md (n : node) : string :=
  match n with
  | NStr s => s
  | NDict ntype content text marks level checked =>
      if String.eqb ntype "text" then apply_marks text marks
      else
        let joined := fold_right String.append EmptyString (map prosemirror_to_md content) in
        if String.eqb ntype "paragraph" then joined ++ LF ++ LF
        else if String.eqb ntype "heading" then hashes level ++ " " ++ joined ++ LF ++ LF
        else if String.eqb ntype "bulletList" || String.eqb ntype "orderedList" then joined
        else if String.eqb ntype "listItem" then list_item joined
        else if String.eqb ntype "doc" then joined
        else if String.eqb ntype "taskList" then joined
        else if String.eqb ntype "taskItem"
        then "- " ++ (if checked then "[x]" else "[ ]") ++ " " ++ py_strip joined ++ LF
        else if String.eqb ntype "hardBreak" then LF
        else joined
  end.

(** The three fields of a document that hold notes: [notes_markdown] and
    [notes_plain] (empty when missing or [None]) and [notes]. *)
Record noted : Type :=
  Noted { notes_markdown : string; notes : option node; notes_plain : string }.

(** [md and len(md.strip()) > 5] *)
Definition worth (md : string) : bool :=
  nonempty_str md && Nat.ltb 5 (py_len (py_strip md)).

(** [get_notes(doc)] *)
Definition get_notes (doc : noted) : string :=
  let md := notes_markdown doc in
  if worth md then py_strip md
  else
    let from_notes :=
      match notes doc with
      | Some (NDict ntype content text marks level checked) =>
          let result := prosemirror_to_md (NDict ntype content text marks level checked) in
          if worth result then Some (py_strip result) else None
      | _ => None
      end in
    match from_notes with
    | Some r => r
    | None =>
        let plain := notes_plain doc in
        if worth plain then py_strip plain else EmptyString
    end.

(** ** The sync state *)

(** [k in v] for a string literal [k]: a key of a dictionary, an element of
    a list, a part of a string. *)
Definition has (v : pyval) (k : string) : result bool :=
  match v with
  | PDict d => Ok (bool_decide (is_Some (dict_get d k)))
  | PList l => Ok (existsb (fun x => is_str x k) l)
  | PStr s => Ok (str_in k s)
  | _ => Raise TypeError
  end.

(** [d[k] = v] for a dictionary with keys of any hashable type: an existing
    key keeps its place. *)
Fixpoint hdict_set (d : list (hkey * pyval)) (k : hkey) (v : pyval) : list (hkey * pyval) :=
  match d with
  | [] => [(k, v)]
  | (k', v') :: d' =>
      if bool_decide (k' = k) then (k', v) :: d' else (k', v') :: hdict_set d' k v
  end.

(** What [load_sync_state] returns: the value that [json.load] gave, or a
    dictionary of its own making, [{"last_sync": ..., "meetings": {...}}],
    whose [meetings] are keyed by the ids of the old list. *)
Inductive sync_state : Type :=
| Loaded (state : pyval)
| Made (last_sync : pyval) (meetings : list (hkey * pyval)).

(** The loop [for sid in ...: state["meetings"][sid] = {"skipped": True}]. *)
Fixpoint mark_skipped (meetings : list (hkey * pyval)) (ids : list pyval)
  : result (list (hkey * pyval)) :=
  match ids with
  | [] => Ok meetings
  | sid :: ids' =>
      let* k := hash_key sid in
      mark_skipped (hdict_set meetings k (PDict [("skipped", PBool true)])) ids'
  end.

Section SyncState.
Context {lib : JsonLib}.

(** [load_sync_state(cfg)]; [file] is the text of the state file, [None]
    when the file does not exist. *)
Definition load_sync_state (file : option string) : result sync_state :=
  match file with
  | Some text =>
      match json_loads text with
      | None => Raise JSONDecodeError
      | Some state =>
          let* old := has state "synced_ids" in
          let* migrate :=
            if old then (let* new := has state "meetings" in Ok (negb new)) else Ok false in
          if migrate
          then
            let* last_sync := get state "last_sync" PNone in
            let state := PDict [("last_sync", last_sync); ("meetings", PDict [])] in
            let* ids := get state "synced_ids" (PList []) in
            let* ids := iter ids in
            let* meetings := mark_skipped [] ids in
            Ok (Made last_sync meetings)
          else Ok (Loaded state)
      end
  | None => Ok (Made PNone [])
  end.

End SyncState.

(** [set(sync_state.get("meetings", {}).keys())], as [extract_new_meetings]
    computes it. *)
Definition known_ids (st : sync_state) : result (gset hkey) :=
  match st with
  | Loaded state =>
      let* meetings := get state "meetings" (PDict []) in
      match meetings with
      | PDict d => Ok (list_to_set (map (fun kv => HStr (fst kv)) d))
      | _ => Raise AttributeError
      end
  | Made _ meetings => Ok (list_to_set (map fst meetings))
  end.

(** ** The cache and the sync *)

(** [a < b] on strings *)
Fixpoint str_ltb (a b : string) : bool :=
  match a, b with
  | _, EmptyString => false
  | EmptyString, String _ _ => true
  | String x a', String y b' =>
      if Nat.ltb (code x) (code y) then true
      else if Nat.ltb (code y) (code x) then false
      else str_ltb a' b'
  end.

(** A panel of [documentPanels]: [original_content] and [title], empty when
    missing. *)
Record panel : Type := Panel { original_content : string; panel_title : string }.

(** A document of the cache, field by field as [extract_new_meetings] reads
    it: the truth value of [deleted_at], [valid_meeting] when it is a
    boolean, [created_at] (empty when missing), [title], the people, the
    attendees of the calendar event and the notes. *)
Record document : Type :=
  Document { deleted_at : bool; valid_meeting : option bool; created_at : string;
             doc_title : jtext; creator : person; attendees : list person;
             cal_attendees : list cal_attendee; doc_notes : noted }.

(** The state of the cache: the dictionaries [documents], [documentLists]
    (each list as the ids of its documents), [documentListsMetadata] (the
    titles of the lists), [documentPanels] and [transcripts], in the order
    of their items. *)
Record granola : Type :=
  Granola { documents : list (string * document);
            documentLists : list (string * list string);
            documentListsMetadata : list (string * string);
            documentPanels : list (string * list (string * panel));
            transcripts : list (string * list segment) }.

(** [d.get(k)] on a dictionary given by its items *)
Fixpoint item_of {A : Type} (d : list (string * A)) (k : string) : option A :=
  match d with
  | [] => None
  | (k', v) :: d' => if String.eqb k' k then Some v else item_of d' k
  end.

(** [d[k] = v] on such a dictionary *)
Fixpoint assign {A : Type} (d : list (string * A)) (k : string) (v : A) : list (string * A) :=
  match d with
  | [] => [(k, v)]
  | (k', v') :: d' => if String.eqb k' k then (k', v) :: d' else (k', v') :: assign d' k v
  end.

(** The folder lookup: the title of the last list that holds the document. *)
Definition folder_lookup (g : granola) : list (string * string) :=
  fold_left
    (fun lookup_so_far '(list_id, list_data) =>
       let folder_name :=
         match item_of (documentListsMetadata g) list_id with
         | Some title => title
         | None => "Unknown"
         end in
       fold_left
         (fun acc doc_id => if nonempty_str doc_id then assign acc doc_id folder_name else acc)
         list_data lookup_so_far)
    (documentLists g) [].

Section Summaries.
Variable html_to_md : string -> string.

(** The loop over the panels of a document. *)
Fixpoint summary_parts (panels : list (string * panel)) : list string :=
  match panels with
  | [] => []
  | (_, pdata) :: panels' =>
      let oc := original_content pdata in
      let title := panel_title pdata in
      if nonempty_str oc && Nat.ltb 10 (py_len oc)
      then
        let md := html_to_md oc in
        (if nonempty_str title && negb (String.eqb title "Summary")
         then "### " ++ title ++ LF ++ LF ++ md
         else md) :: summary_parts panels'
      else summary_parts panels'
  end.

(** [get_summary(state, doc_id)] *)
Definition get_summary (state : granola) (doc_id : string) : string :=
  match item_of (documentPanels state) doc_id with
  | None => EmptyString
  | Some panels => join (LF ++ LF ++ "---" ++ LF ++ LF) (summary_parts panels)
  end.

(** The test that lets a document through: not deleted, not marked as no
    meeting, not known, and of today or not older than the cutoff. *)
Definition is_new (known_ids : gset string) (cutoff today_prefix : string)
  (doc_id : string) (doc : document) : bool :=
  negb (deleted_at doc || bool_decide (valid_meeting doc = Some false))
  && negb (bool_decide (doc_id ∈ known_ids))
  && negb (negb (startswith today_prefix (created_at doc))
           && str_ltb (created_at doc) cutoff).

(** The dictionary appended for a document that is let through. *)
Definition meeting_of (state : granola) (doc_id : string) (doc : document) : new_meeting :=
  let segs := match item_of (transcripts state) doc_id with Some l => l | None => [] end in
  NewMeeting doc_id
    (get_text (doc_title doc) (Some "Untitled"))
    (created_at doc)
    (match item_of (folder_lookup state) doc_id with Some f => f | None => EmptyString end)
    (participants_of (creator doc) (attendees doc) (cal_attendees doc))
    (get_notes (doc_notes doc))
    (get_summary state doc_id)
    (transcript_of segs)
    (nonempty (transcript_lines segs)).

(** [extract_new_meetings(granola_state, sync_state)]: [last_sync] and
    [known_ids] are what it reads from the sync state, [week_ago] and
    [today_prefix] what it reads from the clock. *)
Definition extract_new_meetings (week_ago today_prefix : string) (granola_state : granola)
  (last_sync : string) (known_ids : gset string) : list new_meeting :=
  let cutoff := if nonempty_str last_sync then last_sync else week_ago in
  omap (fun '(doc_id, doc) =>
          if is_new known_ids cutoff today_prefix doc_id doc
          then Some (meeting_of granola_state doc_id doc) else None)
    (documents granola_state).

(** What the sync keeps of a meeting in its state. *)
Record synced : Type :=
  Synced { s_file : string; s_has_summary : bool; s_has_notes : bool;
           s_has_transcript : bool; s_entity : string; s_skipped : bool }.

(** The state of the sync: [last_sync] (empty when [None]) and the
    dictionary [meetings]. *)
Record sync : Type := Sync { last_sync : string; meetings : list (string * synced) }.

(** What a run leaves behind: the files it has written, as a dictionary
    from their paths to the texts they hold when the run ends (a second
    [write_text] to a path replaces the text of the first), the state
    saved, and the files of today that it returns. *)
Record sync_run : Type :=
  Run { written : list (string * string); saved : sync; today_files : list string }.

(** The loop over the new meetings.  [files] holds the files written so
    far, by path: [write_text] to a path that is already there replaces its
    text. *)
Fixpoint write_all (cfg : config) (today : string) (todo : list new_meeting)
  (files : list (string * string)) (meetings_dict : list (string * synced))
  (todays : list string) : result (list (string * string) * list (string * synced) * list string) :=
  match todo with
  | [] => Ok (files, meetings_dict, todays)
  | meeting :: todo' =>
      let* w := write_meeting_file meeting cfg in
      let '(rel_path, content) := w in
      let todays :=
        if String.eqb (py_take 10 (mt_created_at meeting)) today
        then (todays ++ [rel_path])%list else todays in
      let has_summary :=
        nonempty_str (mt_summary meeting)
        && negb (String.eqb (mt_summary meeting) NO_SUMMARY) in
      let has_notes :=
        nonempty_str (mt_notes meeting) && negb (String.eqb (mt_notes meeting) NO_NOTES) in
      write_all cfg today todo' (assign files rel_path content)
        (assign meetings_dict (mt_id meeting)
           (Synced rel_path has_summary has_notes (mt_has_transcript meeting)
              (before_chr "/" rel_path) false))
        todays
  end.

(** [sync_meetings(cfg)], from the cache and the state that were loaded;
    [week_ago] and [today_prefix] are read from the clock by
    [extract_new_meetings], [today] and [now] afterwards. *)
Definition sync_meetings (cfg : config) (week_ago today_prefix today now : string)
  (granola_state : granola) (sync_state : sync) : result sync_run :=
  let known_ids := list_to_set (map fst (meetings sync_state)) in
  let new_meetings :=
    extract_new_meetings week_ago today_prefix granola_state (last_sync sync_state)
      known_ids in
  match new_meetings with
  | [] => Ok (Run [] (Sync now (meetings sync_state)) [])
  | _ =>
      let* r := write_all cfg today new_meetings [] (meetings sync_state) [] in
      let '(files, meetings_dict, todays) := r in
      Ok (Run files (Sync now meetings_dict) todays)
  end.

End Summaries.

End Vault.

(** ** Vocabulary: slugs *)

(** A lower-case letter, a digit or a dash. *)
Definition slug_char (c : ascii) : bool :=
  between 97 122 (code c) || between 48 57 (code c) || Ascii.eqb c "-"%char.

(** No two dashes in a row. *)
Fixpoint no_dash_run (s : string) : bool :=
  match s with
  | String a r =>
      match r with
      | String b _ => negb (Vault.is_dash a && Vault.is_dash b) && no_dash_run r
      | EmptyString => true
      end
  | EmptyString => true
  end.

Definition starts_dash (s : string) : bool :=
  match s with String c _ => Vault.is_dash c | EmptyString => false end.

(** What a slug looks like: lower-case letters, digits and single dashes,
    none of them at the end, at most [max_len] characters. *)
Definition slug (max_len : nat) (s : string) : Prop :=
  all_chars slug_char s = true
  /\ no_dash_run s = true
  /\ last_chr None s <> Some "-"%char
  /\ String.length s <= max_len.

(** ** Vocabulary: what a match covers *)

(** [q] is [p] moved over the text [w]. *)
Definition adv (p : pos) (w : string) (q : pos) : Prop :=
  at_rest p = w ++ at_rest q
  /\ at_idx q = at_idx p + String.length w
  /\ at_prev q = last_chr (at_prev p) w.

(** [q] is [p] moved over a text of the class [cl], the groups untouched. *)
Definition run (fl : flags) (cl : cclass) (p q : pos) : Prop :=
  exists w, all_chars (cmatch fl cl) w = true /\ adv p w q /\ at_caps q = at_caps p.

(** The expression [r] can take the matcher from [p] to [q]: the relation
    that the backtracking matcher explores. *)
Fixpoint spans (fl : flags) (r : regex) (p q : pos) : Prop :=
  match r with
  | Nul => False
  | Emp => q = p
  | Cls cl =>
      exists c, cmatch fl cl c = true /\ adv p (String c EmptyString) q
                /\ at_caps q = at_caps p
  | Lit s =>
      lit_from fl s (at_idx p) (at_prev p) (at_rest p) = Some (at_idx q, at_prev q, at_rest q)
      /\ at_caps q = at_caps p
  | Cat r1 r2 => exists m, spans fl r1 p m /\ spans fl r2 m q
  | Alt r1 r2 => spans fl r1 p q \/ spans fl r2 p q
  | Opt r1 => spans fl r1 p q \/ q = p
  | Star cl | LazyStar cl => run fl cl p q
  | Plus cl => run fl cl p q /\ at_idx p < at_idx q
  | Bol => at_bol fl p = true /\ q = p
  | Eol => at_eol fl p = true /\ q = p
  | EndZ => at_end p = true /\ q = p
  | WordB => at_wordb p = true /\ q = p
  | Ahead r1 => (exists q', spans fl r1 p q') /\ q = p
  | Grp n r1 => exists q', spans fl r1 p q' /\ q = set_cap n (at_idx p) (at_idx q') q'
  end.

(** The position [p] lies in the subject [s]. *)
Definition in_subject (s : string) (p : pos) : Prop := at_rest p = py_drop (at_idx p) s.

(** ** Vocabulary: transcript lines *)

Definition not_chr (x : ascii) (c : ascii) : bool := negb (Ascii.eqb c x).

(** A word of [\w] characters, not empty. *)
Definition word (s : string) : Prop := s <> EmptyString /\ all_chars is_word s = true.

(** A line as [LINE_RE] reads it: a timestamp without a closing bracket, a
    speaker that is a word, and the trimmed rest of one line. *)
Definition line_read (l : line) : Prop :=
  exists t w g,
    ts l = Some t /\ speaker l = Some w /\ text l = py_strip g
    /\ t <> EmptyString /\ all_chars (not_chr "]") t = true
    /\ word w
    /\ g <> EmptyString /\ all_chars (not_chr NL) g = true.

(** ** Vocabulary: classification *)

(** The text has a letter that [lower()] changes. *)
Definition has_upper (s : string) : bool := negb (String.eqb (py_lower s) s).

(** A rule none of whose domains and keywords is in lower case. *)
Definition never_hits (r : Vault.rule) : bool :=
  forallb has_upper (Vault.r_domains r)
  && forallb has_upper (Vault.r_title_keywords r)
  && forallb has_upper (Vault.r_name_keywords r).

Definition with_rules (cfg : Vault.config) (rules : list Vault.rule) : Vault.config :=
  Vault.Config (Vault.organization_domain cfg) rules (Vault.one_on_one_names cfg)
    (Vault.default_folder cfg).

Definition lower_participant (p : Vault.participant) : Vault.participant :=
  Vault.Participant (option_map py_lower (Vault.p_name p))
    (option_map py_lower (Vault.p_email p)).



(** ** Vocabulary: action items *)

(** Whitespace other than the blank does not occur. *)
Definition only_blanks (s : string) : bool :=
  all_chars (fun c => negb (is_space c) || Ascii.eqb c " "%char) s.

Definition ends_ws (s : string) : bool :=
  match last_chr None s with Some c => is_space c | None => false end.

(** The candidates that a pass retains, each with its line. *)
Fixpoint retained_pairs (earlier : list string) (cs : list (line * string))
  : list (line * string) :=
  match cs with
  | [] => []
  | (l, c) :: cs' =>
      ((if bool_decide (dedup_key c ∉ map dedup_key earlier) && long_enough c
        then [(l, c)] else [])
       ++ retained_pairs (c :: earlier) cs')%list
  end.

(** An item in full: a speaker tag that is a word, a blank, and a text of
    11 to 203 characters in which whitespace is single blanks, none at
    either end. *)
Definition item_shape (item : string) : Prop :=
  exists w c,
    item = "(" ++ w ++ ") " ++ c
    /\ word w
    /\ 10 < py_len c <= 203
    /\ only_blanks c = true /\ no_ws_run c = true
    /\ starts_ws c = false /\ ends_ws c = false.

(** ** Vocabulary: written transcripts *)

(** What [LINE_RE] is meant to read back from the line of a segment. *)
Definition seg_record (seg : Vault.segment) : option line :=
  let text := py_strip (Vault.seg_text seg) in
  if String.eqb text EmptyString then None
  else Some (Line (Some (Vault.seg_ts seg)) (Some (Vault.seg_label seg)) text).

(** A segment whose line can be read back: a time without a closing
    bracket, a source that is a word, a text on one line. *)
Definition seg_ok (seg : Vault.segment) : bool :=
  String.eqb (py_strip (Vault.seg_text seg)) EmptyString
  || (negb (String.eqb (Vault.seg_ts seg) EmptyString)
      && all_chars (not_chr "]") (Vault.seg_ts seg)
      && negb (String.eqb (Vault.seg_label seg) EmptyString)
      && all_chars is_word (Vault.seg_label seg)
      && all_chars (not_chr NL) (py_strip (Vault.seg_text seg))).

(** The loop of a class stops at the beginning of [rest]. *)
Definition stops (fl : flags) (cl : cclass) (rest : string) : bool :=
  match rest with
  | EmptyString => true
  | String c _ => negb (cmatch fl cl c)
  end.

(** The line of a segment, character by character. *)
Definition line_text (t w g tail : string) : string :=
  String "["%char (t ++ String "]"%char (String " "%char (String "("%char
    (w ++ String ")"%char (String " "%char (g ++ tail)))))).

(** The match of [LINE_RE] on such a line that starts at [i]. *)
Definition line_mobj (i : nat) (t w g : string) : mobj :=
  let j1 := S i + String.length t in
  let j2 := j1 + 3 + String.length w in
  let j3 := j2 + 2 + String.length g in
  MObj i j3 [(3, (j2 + 2, j3)); (2, (j1 + 3, j2)); (1, (S i, j1))].

(** Nothing, or the beginning of another line, follows. *)
Definition line_end (tail : string) : bool :=
  match tail with
  | EmptyString => true
  | String c _ => Ascii.eqb c NL
  end.

(** The lines of the records [rs] (time, speaker, text), one below the
    other. *)
Fixpoint lines_text (rs : list (string * string * string)) : string :=
  match rs with
  | [] => EmptyString
  | (t, w, g) :: rs' =>
      line_text t w g (match rs' with [] => EmptyString | _ => String NL (lines_text rs') end)
  end.

(** Their matches, the first one starting at [i]. *)
Fixpoint lines_mobjs (i : nat) (rs : list (string * string * string)) : list mobj :=
  match rs with
  | [] => []
  | (t, w, g) :: rs' =>
      line_mobj i t w g :: lines_mobjs (S (m_end (line_mobj i t w g))) rs'
  end.

Definition rec_ok (r : string * string * string) : bool :=
  let '(t, w, g) := r in
  negb (String.eqb t EmptyString) && all_chars (not_chr "]") t
  && negb (String.eqb w EmptyString) && all_chars is_word w
  && negb (String.eqb g EmptyString) && all_chars (not_chr NL) g
  && negb (starts_ws g) && negb (ends_ws g).

Definition rec_line (r : string * string * string) : line :=
  let '(t, w, g) := r in Line (Some t) (Some w) g.

Definition rec_fmt (r : string * string * string) : string :=
  let '(t, w, g) := r in "[" ++ t ++ "] (" ++ w ++ ") " ++ g.

Definition seg_rec (seg : Vault.segment) : option (string * string * string) :=
  let text := py_strip (Vault.seg_text seg) in
  if String.eqb text EmptyString then None
  else Some (Vault.seg_ts seg, Vault.seg_label seg, text).

(** ** Data of the examples: a cache *)

Definition example_segments : list Vault.segment :=
  [Vault.Segment "  I'll send the proposal by Friday " "2026-11-04T09:30:12.250Z"
     (Some "microphone");
   Vault.Segment "yeah okay" "2026-11-04T09:30:20.000Z" (Some "system");
   Vault.Segment "   " "2026-11-04T09:30:21.000Z" (Some "system");
   Vault.Segment "can you share the deck?" "2026-11-04T09:31:02.100Z" None].

(** ** Vocabulary: written files *)

(** A title that the title line gives back: not empty, without a double
    quote or a line break. *)
Definition title_ok (t : string) : bool :=
  negb (String.eqb t EmptyString)
  && all_chars (fun c => negb (Ascii.eqb c DQ) && negb (Ascii.eqb c NL)) t.

Definition HEADING : string := "## Transcript".

(** The line break and the marks that end the transcript section. *)
Definition NEXT_SECTION : string := String NL "## ".

(** A segment whose line can be read back from a file: as [seg_ok], with a
    time on one line. *)
Definition seg_ok_in_file (seg : Vault.segment) : bool :=
  seg_ok seg
  && (String.eqb (py_strip (Vault.seg_text seg)) EmptyString
      || all_chars (not_chr NL) (Vault.seg_ts seg)).

Definition rec_one_line (r : string * string * string) : bool :=
  let '(t, _, _) := r in all_chars (not_chr NL) t.

(** ** Data of the examples: a meeting *)

Definition example_config : Vault.config :=
  Vault.Config "example.com"
    [Vault.Rule ["client.io"] ["kickoff"] [] (Some "Clients/Acme");
     Vault.Rule [] ["Board"] [] (Some "Board")]
    [("sam", "People/Sam")]
    None.

Definition example_meeting : Vault.new_meeting :=
  Vault.NewMeeting "doc-1" (Some "Weekly Kickoff: plans & next steps")
    "2026-11-04T09:30:00.000Z" "Team"
    [Vault.Participant (Some "Katie Roe") (Some "katie@example.com");
     Vault.Participant (Some "Lee") (Some "lee@Client.io")]
    EmptyString "Plans for the quarter."
    (Vault.transcript_of example_segments) true.

Definition example_meeting_without_transcript : Vault.new_meeting :=
  Vault.NewMeeting "doc-2" (Some "Planning") "2026-11-04T11:00:00.000Z" EmptyString []
    EmptyString EmptyString EmptyString false.

(** ** Vocabulary: participants *)

(** The addresses of the participants, in lower case. *)
Definition addresses (ps : list Vault.participant) : list (option string) :=
  map (fun p => option_map py_lower (Vault.p_email p)) ps.

(** The email of a participant is a text that is not empty. *)
Definition has_address (p : Vault.participant) : Prop :=
  exists e, Vault.p_email p = Some e /\ e <> EmptyString.

(** The addresses that the cache holds for a document. *)
Definition cache_addresses (creator : Vault.person) (people_attendees : list Vault.person)
  (cal_attendees : list Vault.cal_attendee) : list string :=
  (Vault.pe_email creator :: map Vault.pe_email people_attendees
   ++ map Vault.ca_email cal_attendees)%list.

(** What the loops keep true. *)
Definition roll_ok (st : Vault.roll) : Prop :=
  NoDup (addresses (Vault.participants st))
  /\ Forall has_address (Vault.participants st)
  /\ forall e, e ∈ Vault.seen_emails st <-> Some e ∈ addresses (Vault.participants st).

(** ** Data of the examples: a sync state of the old format *)

(** [{"last_sync": "2026-11-01", "synced_ids": ["doc-1", "doc-2"]}] *)
Definition legacy_state_file : string :=
  "{" ++ Vault.quoted "last_sync" ++ ": " ++ Vault.quoted "2026-11-01" ++ ", "
  ++ Vault.quoted "synced_ids" ++ ": [" ++ Vault.quoted "doc-1" ++ ", "
  ++ Vault.quoted "doc-2" ++ "]}".

(** ** Vocabulary: the rendered message *)

(** The label of an option. *)
Definition option_text (o : pyval) : option string :=
  match field o "text" with
  | Some t => match field t "text" with Some (PStr s) => Some s | _ => None end
  | None => None
  end.

(** The value of an option. *)
Definition option_value_of (o : pyval) : option string :=
  match field o "value" with Some (PStr v) => Some v | _ => None end.

(** The items of the meetings, one list. *)
Definition all_items (ms : list meeting) : list string := concat (map items ms).

(** [sum(len(m["items"]) for m in items)] *)
Definition total_items (ms : list meeting) : nat :=
  fold_right (fun m n => length (items m) + n) 0 ms.

(** The options of the meetings [ms], numbered from [k]. *)
Definition body_options (k : nat) (ms : list meeting) : list pyval :=
  concat (imap (fun i m => imap (checkbox (k + i)) (items m)) ms).

(** The values of the options of a message: what Slack sends back when
    every box is ticked. *)
Definition all_values (B : list pyval) : list string := omap option_value_of (all_options B).

(** ** Vocabulary: the sync *)

(** The ids that a state knows. *)
Definition ids_of (st : Vault.sync) : gset string := list_to_set (map fst (Vault.meetings st)).

(** The ids of a list of new meetings. *)
Definition new_ids (ms : list Vault.new_meeting) : list string := map Vault.mt_id ms.


(** The entry that the sync keeps for a meeting written to [rel_path] in
    [folder]: the three flags tell whether the file holds something else
    than the sentence that stands for a missing summary, for missing notes
    or for a missing transcript. *)
Definition entry_of (m : Vault.new_meeting) (rel_path folder : string) : Vault.synced :=
  Vault.Synced rel_path
    (negb (String.eqb (Vault.str_or (Vault.mt_summary m) Vault.NO_SUMMARY) Vault.NO_SUMMARY))
    (negb (String.eqb (Vault.str_or (Vault.mt_notes m) Vault.NO_NOTES) Vault.NO_NOTES))
    (negb (String.eqb (Vault.str_or (Vault.mt_transcript m) Vault.NO_TRANSCRIPT)
             Vault.NO_TRANSCRIPT))
    (Vault.before_chr "/" folder) false.

(** ** Data of the examples: a cache *)

Definition example_document : Vault.document :=
  Vault.Document false None "2026-11-04T09:30:00.000Z" (Vault.Text "Weekly Kickoff")
    (Vault.Person "katie@example.com" (Vault.Text "Katie") (Vault.Text "Katie Roe"))
    [Vault.Person "lee@Client.io" (Vault.Text "Lee") Vault.Missing]
    [Vault.CalAttendee "LEE@client.io" (Vault.Text "Lee C.")]
    (Vault.Noted "Agenda and budget." None EmptyString).

Definition old_document : Vault.document :=
  Vault.Document false None "2026-10-01T09:30:00.000Z" Vault.Missing
    (Vault.Person EmptyString Vault.Missing Vault.Missing) [] []
    (Vault.Noted EmptyString None EmptyString).

Definition example_cache : Vault.granola :=
  Vault.Granola [("doc-1", example_document); ("doc-0", old_document)]
    [("list-1", ["doc-1"])] [("list-1", "Team")] []
    [("doc-1", example_segments)].

Definition example_sync : Vault.sync := Vault.Sync "2026-11-03T18:00:00+00:00" [].

(** The clock of the example: a week ago, today, and now. *)
Definition WEEK_AGO : string := "2026-10-28T18:00:00+00:00".
Definition TODAY : string := "2026-11-04".
Definition NOW : string := "2026-11-04T18:00:00+00:00".

(** The meeting that the example cache yields, and the run that syncs it
    (summaries left as they are). *)
Definition example_new : Vault.new_meeting :=
  Vault.meeting_of (fun s => s) example_cache "doc-1" example_document.

Definition example_yaml : string :=
  "  - name: " ++ Vault.quoted "Katie Roe" ++ LF ++ "    email: katie@example.com" ++ LF
  ++ "  - name: " ++ Vault.quoted "Lee" ++ LF ++ "    email: lee@Client.io" ++ LF.

Definition example_run : Vault.sync_run :=
  Vault.Run
    [("Clients/Acme/2026-11-04-weekly-kickoff.md",
      Vault.file_content example_new "Clients/Acme" example_yaml)]
    (Vault.Sync NOW
       [("doc-1", entry_of example_new "Clients/Acme/2026-11-04-weekly-kickoff.md"
                    "Clients/Acme")])
    ["Clients/Acme/2026-11-04-weekly-kickoff.md"].

(** The title of a list of the cache, as the folder lookup reads it. *)
Definition list_title (g : Vault.granola) (list_id : string) : string :=
  match Vault.item_of (Vault.documentListsMetadata g) list_id with
  | Some title => title
  | None => "Unknown"
  end.

(** A cache with two documents of the same day whose titles have the same
    slug. *)
Definition twin_cache : Vault.granola :=
  Vault.Granola
    [("doc-1",
      Vault.Document false None "2026-11-04T09:30:00.000Z" (Vault.Text "Weekly Kickoff")
        (Vault.Person "katie@example.com" (Vault.Text "Katie") Vault.Missing) [] []
        (Vault.Noted EmptyString None EmptyString));
     ("doc-2",
      Vault.Document false None "2026-11-04T15:00:00.000Z" (Vault.Text "Weekly kickoff!")
        (Vault.Person "katie@example.com" (Vault.Text "Katie") Vault.Missing) [] []
        (Vault.Noted EmptyString None EmptyString))]
    [] [] [] [("doc-1", example_segments)].

(** * Properties *)

(** ** Whitespace and length of the combined text *)

Lemma str_length_app (a b : string) :
  String.length (a ++ b) = String.length a + String.length b.
Proof. induction a as [|c a IH]; simpl; [reflexivity | now rewrite IH]. Qed.

Lemma py_take_length (n : nat) (s : string) : String.length (py_take n s) <= n.
Proof.
  revert s; induction n as [|n IH]; intros [|c s]; simpl; try lia.
  specialize (IH s). lia.
Qed.

Lemma no_ws_run_cons (c : ascii) (s : string) :
  no_ws_run (String c s) = negb (is_space c && starts_ws s) && no_ws_run s.
Proof. destruct s as [|b s]; simpl; [now rewrite andb_false_r | reflexivity]. Qed.

Lemma sub_ws_shape (b : bool) (s : string) :
  no_ws_run (sub_ws b s) = true /\ (b = true -> starts_ws (sub_ws b s) = false).
Proof.
  revert b; induction s as [|c s IH]; intros b; simpl; [easy|].
  destruct (is_space c) eqn:Hc.
  - destruct b.
    + apply IH.
    + destruct (IH true) as [H1 H2]. split; [|easy].
      rewrite no_ws_run_cons, H1, (H2 eq_refl). now rewrite andb_false_r.
  - destruct (IH false) as [H1 _]. split.
    + rewrite no_ws_run_cons, H1, Hc. reflexivity.
    + intros _. exact Hc.
Qed.

Lemma no_ws_run_tail (c : ascii) (s : string) :
  no_ws_run (String c s) = true -> no_ws_run s = true.
Proof. rewrite no_ws_run_cons. intros H. apply andb_prop in H. tauto. Qed.

Lemma lstrip_no_ws_run (f : ascii -> bool) (s : string) :
  no_ws_run s = true -> no_ws_run (lstrip_by f s) = true.
Proof.
  induction s as [|c s IH]; simpl; [easy|]. intros H.
  destruct (f c); [apply IH; eapply no_ws_run_tail; eauto | exact H].
Qed.

Lemma starts_ws_rstrip (f : ascii -> bool) (s : string) :
  starts_ws (rstrip_by f s) = true -> starts_ws s = true.
Proof.
  destruct s as [|c s]; simpl; [easy|].
  destruct (rstrip_by f s); [destruct (f c)|]; simpl; easy.
Qed.

Lemma rstrip_no_ws_run (f : ascii -> bool) (s : string) :
  no_ws_run s = true -> no_ws_run (rstrip_by f s) = true.
Proof.
  induction s as [|c s IH]; [easy|]. intros H.
  pose proof (no_ws_run_tail _ _ H) as Ht. specialize (IH Ht).
  rewrite no_ws_run_cons in H. apply andb_prop in H as [H _].
  change (rstrip_by f (String c s)) with
    (match rstrip_by f s with
     | EmptyString => if f c then EmptyString else String c EmptyString
     | r' => String c r'
     end).
  destruct (rstrip_by f s) as [|d r] eqn:E.
  - destruct (f c); reflexivity.
  - rewrite no_ws_run_cons, IH, andb_true_r.
    destruct (is_space c) eqn:Hc; [|reflexivity].
    simpl in H. apply negb_true_iff in H.
    destruct (starts_ws (String d r)) eqn:Hd; [|reflexivity].
    rewrite <- E in Hd. apply starts_ws_rstrip in Hd. congruence.
Qed.

Lemma take_no_ws_run (n : nat) (s : string) :
  no_ws_run s = true -> no_ws_run (py_take n s) = true.
Proof.
  revert s; induction n as [|n IH]; intros [|c s] H; simpl; try reflexivity.
  pose proof (no_ws_run_tail _ _ H) as Ht.
  rewrite no_ws_run_cons in H. apply andb_prop in H as [H _].
  change (no_ws_run (String c (py_take n s)) = true).
  rewrite no_ws_run_cons, (IH s Ht), andb_true_r.
  destruct (is_space c); [|reflexivity]. simpl in *.
  apply negb_true_iff in H. apply negb_true_iff.
  destruct n, s; simpl in *; congruence.
Qed.

Lemma app_dots_no_ws_run (s : string) :
  no_ws_run s = true -> no_ws_run (s ++ "...") = true.
Proof.
  induction s as [|c s IH]; [reflexivity|]. intros H.
  pose proof (no_ws_run_tail _ _ H) as Ht.
  rewrite no_ws_run_cons in H. apply andb_prop in H as [H _].
  change (no_ws_run (String c (s ++ "...")) = true).
  rewrite no_ws_run_cons, (IH Ht), andb_true_r.
  destruct s; [simpl; now rewrite andb_false_r | exact H].
Qed.

Lemma combine_length (parts : list string) : py_len (combine parts) <= 203.
Proof.
  unfold combine, py_len.
  destruct (Nat.ltb 200 _) eqn:E.
  - rewrite str_length_app. pose proof (py_take_length 200 (py_strip (sub_ws false (join_sp parts)))).
    change (String.length "...") with 3. lia.
  - apply Nat.ltb_ge in E. unfold py_len in E. lia.
Qed.

Lemma combine_no_ws_run (parts : list string) : no_ws_run (combine parts) = true.
Proof.
  unfold combine.
  assert (H : no_ws_run (py_strip (sub_ws false (join_sp parts))) = true).
  { unfold py_strip. apply rstrip_no_ws_run, lstrip_no_ws_run, sub_ws_shape. }
  destruct (Nat.ltb 200 _); [apply app_dots_no_ws_run, take_no_ws_run|]; exact H.
Qed.

(** ** The matcher *)

(* ---- lemmas ---- *)
Lemma py_lower_length (s : string) : String.length (py_lower s) = String.length s.
Proof. induction s as [|c s IH]; simpl; [reflexivity | now rewrite IH]. Qed.

Lemma lower_char_idem (c : ascii) : lower_char (lower_char c) = lower_char c.
Proof. destruct c as [[] [] [] [] [] [] [] []]; reflexivity. Qed.

Lemma is_word_lower (c : ascii) : is_word (lower_char c) = is_word c.
Proof. destruct c as [[] [] [] [] [] [] [] []]; reflexivity. Qed.


Lemma nl_filler_tail (c : ascii) : Ascii.eqb c NL = true -> filler_tail_char c = true.
Proof. intros H. apply Ascii.eqb_eq in H. subst. reflexivity. Qed.

Lemma lit_from_spec (ml da : bool) (w : string) :
  forall i prev rest,
    lit_from (Flags true ml da) w i prev rest
    = if ci_prefix w rest
      then Some (i + String.length w,
                 last_chr prev (py_take (String.length w) rest),
                 py_drop (String.length w) rest)
      else None.
Proof.
  induction w as [|a w IH]; intros i prev rest.
  - simpl. destruct rest; simpl; rewrite Nat.add_0_r; reflexivity.
  - destruct rest as [|c rest]; [reflexivity|].
    cbn [lit_from]. unfold chr_eq. cbn [ignorecase].
    unfold ci_prefix.
    cbn [String.length py_take py_lower py_drop String.eqb].
    rewrite (Ascii.eqb_sym (lower_char c)).
    destruct (Ascii.eqb (lower_char a) (lower_char c)); [|reflexivity].
    rewrite IH. unfold ci_prefix.
    destruct (String.eqb _ _); [|reflexivity].
    replace (S i + String.length w) with (i + S (String.length w)) by lia.
    reflexivity.
Qed.





Lemma all_chars_ext (f g : ascii -> bool) (s : string) :
  (forall c, f c = g c) -> all_chars f s = all_chars g s.
Proof. intros H. induction s as [|c s IH]; simpl; [reflexivity | now rewrite H, IH]. Qed.


Lemma ci_prefix_katie_word (s : string) :
  ci_prefix "katie" s = true ->
  word_opt (next_chr s) = true /\ word_opt (last_chr None (py_take 5 s)) = true
  /\ forall prev, last_chr prev (py_take 5 s) = last_chr None (py_take 5 s).
Proof.
  unfold ci_prefix.
  destruct s as [|c1 [|c2 [|c3 [|c4 [|c5 s]]]]];
    cbn [String.length py_take py_lower]; intros H; apply String.eqb_eq in H;
    try discriminate H.
  injection H as H1 H2 H3 H4 H5.
  cbn [next_chr word_opt last_chr]. repeat split.
  - rewrite <- is_word_lower, H1. reflexivity.
  - rewrite <- is_word_lower, H5. reflexivity.
Qed.

Lemma katie_match_at (i : nat) (prev : option ascii) (s : string) :
  matched (match_at (Flags true false false) KATIE_RE i prev s) = katie_at prev s.
Proof.
  unfold match_at, KATIE_RE, katie_at.
  change (seq [WordB; Lit "katie"; WordB]) with (Cat WordB (Cat (Lit "katie") WordB)).
  cbn [rmatch at_idx at_prev at_rest at_caps].
  rewrite lit_from_spec. unfold at_wordb. cbn [at_prev at_rest].
  destruct (ci_prefix "katie" s) eqn:E.
  - destruct (ci_prefix_katie_word s E) as (H1 & H2 & H3).
    rewrite H1. cbn [String.length]. rewrite H3, H2.
    destruct (word_opt prev); cbn [xorb negb andb]; [reflexivity|].
    destruct (word_opt (next_chr (py_drop 5 s))); reflexivity.
  - rewrite andb_false_r. destruct (xorb _ _); reflexivity.
Qed.

(** ** Capturing groups and totality *)

Section Engine.
Context (fl : flags).

Lemma greedy_inv {A : Type} (cl : cclass) (k : pos -> option A) (cs : caps) (rest : string) :
  forall i prev x,
    greedy fl cl k cs i prev rest = Some x ->
    exists q, k q = Some x /\ at_caps q = cs.
Proof.
  induction rest as [|c r IH]; intros i prev x; simpl.
  - intros H. eexists; split; [exact H | reflexivity].
  - destruct (cmatch fl cl c).
    + destruct (greedy fl cl k cs (S i) (Some c) r) eqn:E.
      * intros [= <-]. eapply IH; eauto.
      * intros H. eexists; split; [exact H | reflexivity].
    + intros H. eexists; split; [exact H | reflexivity].
Qed.

Lemma lazy_inv {A : Type} (cl : cclass) (k : pos -> option A) (cs : caps) (rest : string) :
  forall i prev x,
    lazy fl cl k cs i prev rest = Some x ->
    exists q, k q = Some x /\ at_caps q = cs.
Proof.
  induction rest as [|c r IH]; intros i prev x; simpl.
  - destruct (k _) eqn:E; [|discriminate].
    intros [= <-]. eexists; split; [exact E | reflexivity].
  - destruct (k _) eqn:E.
    + intros [= <-]. eexists; split; [exact E | reflexivity].
    + destruct (cmatch fl cl c); [|discriminate]. apply IH.
Qed.

Lemma rmatch_binds (n : nat) (r : regex) :
  forall (A : Type) (k : pos -> option A) (p : pos) (x : A),
    rmatch fl A r k p = Some x ->
    exists q, k q = Some x
              /\ (binds n r = true \/ bound n (at_caps p) -> bound n (at_caps q)).
Proof.
  induction r as [| |cl|s|r1 IH1 r2 IH2|r1 IH1 r2 IH2|r1 IH1|cl|cl|cl| | | | |r1 IH1|m r1 IH1];
    intros A k p x; simpl.
  - discriminate.
  - intros H. exists p. split; [exact H|]. intros [?|?]; [discriminate | assumption].
  - destruct (at_rest p) as [|c rest]; [discriminate|].
    destruct (cmatch fl cl c); [|discriminate].
    intros H. eexists; split; [exact H|]. simpl. intros [?|?]; [discriminate | assumption].
  - destruct (lit_from _ _ _ _ _) as [[[i prev] rest]|]; [|discriminate].
    intros H. eexists; split; [exact H|]. simpl. intros [?|?]; [discriminate | assumption].
  - intros H. apply IH1 in H as (q1 & H & B1). apply IH2 in H as (q & H & B2).
    exists q. split; [exact H|]. intros [Hb|Hb].
    + apply orb_prop in Hb as [Hb|Hb]; auto.
    + auto.
  - destruct (rmatch fl A r1 k p) eqn:E.
    + intros [= <-]. apply IH1 in E as (q & H & B). exists q. split; [exact H|].
      intros [Hb|Hb]; [apply andb_prop in Hb as [Hb _]|]; auto.
    + intros H. apply IH2 in H as (q & H & B). exists q. split; [exact H|].
      intros [Hb|Hb]; [apply andb_prop in Hb as [_ Hb]|]; auto.
  - destruct (rmatch fl A r1 k p) eqn:E.
    + intros [= <-]. apply IH1 in E as (q & H & B). exists q. split; [exact H|].
      intros [Hb|Hb]; [discriminate | auto].
    + intros H. exists p. split; [exact H|]. intros [?|?]; [discriminate | assumption].
  - intros H. apply greedy_inv in H as (q & H & E). exists q. split; [exact H|].
    rewrite E. intros [?|?]; [discriminate | assumption].
  - destruct (at_rest p) as [|c rest]; [discriminate|].
    destruct (cmatch fl cl c); [|discriminate].
    intros H. apply greedy_inv in H as (q & H & E). exists q. split; [exact H|].
    rewrite E. intros [?|?]; [discriminate | assumption].
  - intros H. apply lazy_inv in H as (q & H & E). exists q. split; [exact H|].
    rewrite E. intros [?|?]; [discriminate | assumption].
  - destruct (at_bol fl p); [|discriminate].
    intros H. exists p. split; [exact H|]. intros [?|?]; [discriminate | assumption].
  - destruct (at_eol fl p); [|discriminate].
    intros H. exists p. split; [exact H|]. intros [?|?]; [discriminate | assumption].
  - destruct (at_end p); [|discriminate].
    intros H. exists p. split; [exact H|]. intros [?|?]; [discriminate | assumption].
  - destruct (at_wordb p); [|discriminate].
    intros H. exists p. split; [exact H|]. intros [?|?]; [discriminate | assumption].
  - destruct (rmatch fl unit r1 _ p); [|discriminate].
    intros H. exists p. split; [exact H|]. intros [?|?]; [discriminate | assumption].
  - intros H. apply IH1 in H as (q & H & B). eexists; split; [exact H|].
    unfold bound in *. simpl. intros Hb.
    destruct (Nat.eqb m n) eqn:E; [discriminate|].
    apply B. destruct Hb as [Hb|Hb]; [left; exact Hb | right; exact Hb].
Qed.

Lemma match_at_binds (n : nat) (r : regex) (i : nat) (prev : option ascii) (rest : string)
  (m : mobj) :
  binds n r = true -> match_at fl r i prev rest = Some m -> bound n (m_caps m).
Proof.
  intros Hb H. unfold match_at in H.
  apply (rmatch_binds n) in H as (q & H & B).
  unfold accept in H. injection H as <-. simpl. auto.
Qed.

Lemma search_from_binds (n : nat) (r : regex) (rest : string) :
  forall i prev m,
    binds n r = true -> search_from fl r i prev rest = Some m -> bound n (m_caps m).
Proof.
  induction rest as [|c rest IH]; intros i prev m Hb; simpl.
  - destruct (match_at fl r i prev "") eqn:E; [|discriminate].
    intros [= <-]. eapply match_at_binds; eauto.
  - destruct (match_at fl r i prev (String c rest)) eqn:E.
    + intros [= <-]. eapply match_at_binds; eauto.
    + apply IH, Hb.
Qed.

Lemma finditer_from_binds (n : nat) (r : regex) (rest : string) :
  forall skip i prev,
    binds n r = true ->
    Forall (fun m => bound n (m_caps m)) (finditer_from fl r skip i prev rest).
Proof.
  induction rest as [|c rest IH]; intros skip i prev Hb; simpl.
  - destruct skip; [|constructor].
    destruct (match_at fl r i prev "") eqn:E; constructor; [|constructor].
    eapply match_at_binds; eauto.
  - destruct skip; [|apply IH, Hb].
    destruct (match_at fl r i prev (String c rest)) eqn:E.
    + constructor; [eapply match_at_binds; eauto | apply IH, Hb].
    + apply IH, Hb.
Qed.

End Engine.

Lemma group_bound (s : string) (m : mobj) (n : nat) :
  bound n (m_caps m) -> exists g, group s m n = Some g.
Proof.
  unfold bound, group. destruct (cap_lookup n (m_caps m)) as [[i j]|]; [eauto | easy].
Qed.

Lemma title_of_ok (stem content : string) : exists t, title_of stem content = Ok t.
Proof.
  unfold title_of. destruct (re_search MULTILINE TITLE_RE content) as [m|] eqn:E; [|eauto].
  apply (search_from_binds _ 1) in E; [|reflexivity].
  destruct (group_bound content m 1 E) as [g ->]. simpl. eauto.
Qed.

Lemma collect_ok {A B : Type} (f : A -> result B) (l : list A) :
  Forall (fun a => exists b, f a = Ok b) l -> exists bs, collect f l = Ok bs.
Proof.
  induction 1 as [|a l [b Hb] _ [bs IH]]; simpl; [eauto|].
  rewrite Hb. simpl. rewrite IH. simpl. eauto.
Qed.

Lemma parse_lines_ok (transcript_text : string) :
  exists lines, parse_lines transcript_text = Ok lines.
Proof.
  unfold parse_lines. apply collect_ok.
  eapply Forall_impl; [apply (finditer_from_binds MULTILINE 3); reflexivity|].
  intros m Hm. unfold line_of_match.
  destruct (group_bound transcript_text m 3 Hm) as [g ->]. simpl. eauto.
Qed.

Lemma context_parts_ok (lines : list line) (idx : nat) (js : list nat) :
  forall parts, exists parts', context_parts lines idx js parts = Ok parts'.
Proof.
  induction js as [|j js IH]; intros parts; simpl; [eauto|].
  destruct (Nat.ltb (idx + j) (length lines)) eqn:E; [|apply IH].
  apply Nat.ltb_lt in E. unfold index.
  destruct (lookup_lt_is_Some_2 lines (idx + j) E) as [l ->]. simpl.
  destruct (negb (is_filler (text l))); [apply IH | eauto].
Qed.

Lemma scan_step_ok (lines : list line) (st : scan) (idx : nat) (l : line) :
  exists st', scan_step lines st idx l = Ok st'.
Proof.
  unfold scan_step.
  destruct (is_filler (text l)); [eauto|].
  destruct (is_signal (text l) && negb (is_noise (text l))); [|eauto].
  destruct (context_parts_ok lines idx [1; 2] [text l]) as [parts ->]. simpl.
  destruct (_ && _); eauto.
Qed.

Lemma scan_loop_ok (lines : list line) (todo : list line) :
  forall st idx, exists st', scan_loop lines st idx todo = Ok st'.
Proof.
  induction todo as [|l todo IH]; intros st idx; simpl; [eauto|].
  destruct (scan_step_ok lines st idx l) as [st' ->]. simpl. apply IH.
Qed.

Lemma extract_total (stem content : string) :
  exists title items, extract_action_items_from_file stem content = Ok (title, items).
Proof.
  unfold extract_action_items_from_file.
  destruct (title_of_ok stem content) as [t ->]. cbn [bind attr_of].
  destruct (re_search DOTALL TRANSCRIPT_RE content) as [m|] eqn:E; [|eauto].
  apply (search_from_binds _ 1) in E; [|reflexivity].
  destruct (group_bound content m 1 E) as [g ->]. cbn [bind attr_of].
  destruct (startswith "Transcript not available" (py_strip g)); [eauto|].
  destruct (parse_lines_ok (py_strip g)) as [lines ->]. cbn [bind attr_of].
  destruct lines as [|l0 lines0]; [eauto|].
  destruct (scan_loop_ok (l0 :: lines0) (l0 :: lines0) (Scan ∅ []) 0) as [st ->]. cbn [bind attr_of]. eauto.
Qed.

(** ** The extraction pass *)

Lemma py_take_length_min (n : nat) (s : string) :
  String.length (py_take n s) = Nat.min n (String.length s).
Proof.
  revert s; induction n as [|n IH]; intros [|c s]; simpl; try reflexivity.
  now rewrite IH.
Qed.

Lemma dedup_key_long (c c' : string) :
  dedup_key c = dedup_key c' -> long_enough c = long_enough c'.
Proof.
  intros H. apply (f_equal String.length) in H. unfold dedup_key in H.
  rewrite !py_lower_length, !py_take_length_min in H.
  unfold long_enough, py_len.
  destruct (Nat.ltb_spec 10 (String.length c)), (Nat.ltb_spec 10 (String.length c')); 
    try reflexivity; lia.
Qed.

Lemma seen_of_test (earlier : list string) (c : string) :
  bool_decide (dedup_key c ∉ seen_of earlier) && long_enough c
  = bool_decide (dedup_key c ∉ map dedup_key earlier) && long_enough c.
Proof.
  destruct (long_enough c) eqn:L; [|now rewrite !andb_false_r].
  rewrite !andb_true_r. apply bool_decide_ext. unfold seen_of.
  rewrite elem_of_list_to_set, !list_elem_of_fmap.
  split; intros H [c' [E Hin]]; apply H.
  - exists c'. split; [exact E|]. apply list_elem_of_In, filter_In.
    split; [now apply list_elem_of_In|]. now rewrite <- (dedup_key_long _ _ E).
  - exists c'. split; [exact E|]. apply list_elem_of_In. apply list_elem_of_In, filter_In in Hin.
    tauto.
Qed.

Lemma scan_step_actionable (lines : list line) (st : scan) (idx : nat) (l : line) :
  is_actionable (text l) = true ->
  scan_step lines st idx l
  = Ok (let c := combined_at lines idx l in
        if bool_decide (dedup_key c ∉ seen st) && long_enough c
        then Scan ({[dedup_key c]} ∪ seen st) (action_items st ++ [tagged l c])
        else st).
Proof.
  unfold is_actionable, scan_step, combined_at.
  destruct (is_filler (text l)); [discriminate|]. intros ->.
  destruct (context_parts_ok lines idx [1; 2] [text l]) as [parts ->].
  cbn [bind]. unfold long_enough. destruct (_ && _); reflexivity.
Qed.

Lemma scan_step_other (lines : list line) (st : scan) (idx : nat) (l : line) :
  is_actionable (text l) = false -> scan_step lines st idx l = Ok st.
Proof.
  unfold is_actionable, scan_step.
  destruct (is_filler (text l)); [reflexivity|]. intros ->. reflexivity.
Qed.

Lemma scan_loop_retained (lines : list line) (todo : list line) :
  forall idx st earlier,
    seen st = seen_of earlier ->
    exists st',
      scan_loop lines st idx todo = Ok st'
      /\ action_items st' = (action_items st ++ retained earlier (candidates lines idx todo))%list.
Proof.
  induction todo as [|l todo IH]; intros idx st earlier Hseen.
  - exists st. split; [reflexivity|]. simpl. now rewrite app_nil_r.
  - cbn [scan_loop candidates].
    destruct (is_actionable (text l)) eqn:Ha.
    + rewrite (scan_step_actionable _ _ _ _ Ha). cbn [bind].
      cbn [app retained]. set (c := combined_at lines idx l).
      rewrite Hseen, seen_of_test.
      destruct (bool_decide (dedup_key c ∉ map dedup_key earlier) && long_enough c) eqn:T.
      * destruct (IH (S idx) (Scan ({[dedup_key c]} ∪ seen_of earlier)
                                   (action_items st ++ [tagged l c])) (c :: earlier))
          as (st' & H1 & H2).
        { cbn [seen]. unfold seen_of. cbn [List.filter].
          apply andb_prop in T as [_ ->]. reflexivity. }
        exists st'. split; [exact H1|]. rewrite H2. cbn [action_items].
        now rewrite <- app_assoc.
      * destruct (IH (S idx) st (c :: earlier)) as (st' & H1 & H2).
        { rewrite Hseen. unfold seen_of. cbn [List.filter].
          destruct (long_enough c) eqn:L; [|reflexivity].
          rewrite andb_true_r in T. apply bool_decide_eq_false in T.
          cbn [map list_to_set].
          assert (dedup_key c ∈ seen_of earlier).
          { apply dec_stable in T. apply list_elem_of_fmap in T as [c' [E Hin]].
            unfold seen_of. apply elem_of_list_to_set, list_elem_of_fmap.
            exists c'. split; [exact E|]. apply list_elem_of_In, filter_In.
            split; [now apply list_elem_of_In|]. now rewrite <- (dedup_key_long _ _ E). }
          symmetry. apply subseteq_union_1_L, singleton_subseteq_l. exact H. }
        exists st'. split; [exact H1|]. rewrite H2. reflexivity.
    + rewrite (scan_step_other _ _ _ _ Ha). cbn [bind app]. apply IH, Hseen.
Qed.

(** ** The partition *)

Lemma str_app_cons (c : ascii) (a b : string) : String c a ++ b = String c (a ++ b).
Proof. reflexivity. Qed.

Lemma take_drop (n : nat) (s : string) : py_take n s ++ py_drop n s = s.
Proof.
  revert s; induction n as [|n IH]; intros [|c s]; cbn [py_take py_drop];
    try reflexivity.
  now rewrite str_app_cons, IH.
Qed.

Lemma take_app_exact (w post : string) : py_take (String.length w) (w ++ post) = w.
Proof.
  induction w as [|c w IH]; [now destruct post|].
  rewrite str_app_cons. cbn [String.length py_take]. now rewrite IH.
Qed.

Lemma drop_app_exact (w post : string) : py_drop (String.length w) (w ++ post) = post.
Proof.
  induction w as [|c w IH]; [now destruct post|].
  rewrite str_app_cons. cbn [String.length py_drop]. exact IH.
Qed.

Lemma katie_at_spec (prev : option ascii) (s : string) :
  katie_at prev s = true <->
  exists w post, s = w ++ post /\ py_lower w = "katie"
                 /\ word_opt prev = false /\ word_opt (next_chr post) = false.
Proof.
  unfold katie_at, ci_prefix. split.
  - intros H. apply andb_prop in H as [H H3]. apply andb_prop in H as [H1 H2].
    apply String.eqb_eq in H2. apply negb_true_iff in H1, H3.
    exists (py_take 5 s), (py_drop 5 s). rewrite take_drop. auto.
  - intros (w & post & -> & Hw & H1 & H3).
    assert (L : String.length w = 5).
    { rewrite <- py_lower_length, Hw. reflexivity. }
    change (String.length "katie") with 5. rewrite <- L at 1 2.
    rewrite take_app_exact, drop_app_exact, Hw, H1, H3. reflexivity.
Qed.

Lemma katie_search_spec (s : string) :
  forall i prev,
    matched (search_from (Flags true false false) KATIE_RE i prev s) = true
    <-> katie_word_in prev s.
Proof.
  induction s as [|c s IH]; intros i prev.
  - cbn [search_from]. split.
    + destruct (match_at _ _ _ _ _) eqn:E; [|discriminate]. intros _.
      assert (K : katie_at prev "" = true) by (rewrite <- (katie_match_at i), E; reflexivity).
      unfold katie_at in K. replace (ci_prefix "katie" "") with false in K by reflexivity.
      rewrite andb_false_r in K. discriminate K.
    + intros (pre & w & post & E & Hw & _).
      destruct pre; [|rewrite str_app_cons in E; discriminate E].
      destruct w; [discriminate Hw | rewrite str_app_cons in E; discriminate E].
  - cbn [search_from]. pose proof (katie_match_at i prev (String c s)) as M.
    destruct (match_at _ KATIE_RE i prev (String c s)) eqn:E.
    + split; [intros _|reflexivity]. symmetry in M. apply katie_at_spec in M.
      destruct M as (w & post & E1 & Hw & H1 & H3).
      exists "", w, post. auto.
    + rewrite IH. split.
      * intros (pre & w & post & -> & Hw & H1 & H3).
        exists (String c pre), w, post. auto.
      * intros (pre & w & post & E1 & Hw & H1 & H3).
        destruct pre as [|c' pre].
        -- exfalso. cbn [matched] in M. symmetry in M.
           apply not_true_iff_false in M. apply M, katie_at_spec.
           exists w, post. auto.
        -- injection E1 as -> ->. exists pre, w, post. auto.
Qed.

Lemma is_katie_spec (item : string) :
  is_katie item = true <-> startswith "(me)" item = true \/ whole_word_katie item.
Proof.
  unfold is_katie, re_search, whole_word_katie.
  rewrite orb_true_iff, katie_search_spec. reflexivity.
Qed.

(** On an item that carries the tag of a speaker, the prefix [(me)] is
    followed by a blank: the speaker is then [me], and a blank follows the
    closing parenthesis. *)
Lemma me_tag_blank (item who text : string) :
  speaker_tagged item who text -> startswith "(me)" item = startswith "(me) " item.
Proof.
  intros (-> & N & W).
  destruct who as [|a [|b [|c who]]]; [contradiction| | |].
  - change ("(" ++ String a EmptyString ++ ") " ++ text)
      with (String "(" (String a (String ")" (String " " text)))).
    cbn [startswith]. destruct (Ascii.eqb "m" a); reflexivity.
  - change ("(" ++ String a (String b EmptyString) ++ ") " ++ text)
      with (String "(" (String a (String b (String ")" (String " " text))))).
    cbn [startswith]. destruct (Ascii.eqb "m" a), (Ascii.eqb "e" b); reflexivity.
  - change ("(" ++ String a (String b (String c who)) ++ ") " ++ text)
      with (String "(" (String a (String b (String c (who ++ ") " ++ text))))).
    cbn [all_chars] in W. apply andb_prop in W as [_ W]. apply andb_prop in W as [_ W].
    apply andb_prop in W as [W _].
    cbn [startswith]. destruct (Ascii.eqb_spec ")" c) as [<-|]; [discriminate W|].
    destruct (Ascii.eqb "m" a), (Ascii.eqb "e" b); reflexivity.
Qed.

Lemma split_items_spec (todo : list string) :
  forall katie other,
    split_items todo katie other
    = ((katie ++ List.filter is_katie todo)%list, (other ++ List.filter not_katie todo)%list).
Proof.
  induction todo as [|item todo IH]; intros katie other; cbn [split_items List.filter].
  - now rewrite !app_nil_r.
  - unfold not_katie at 1. destruct (is_katie item); cbn [negb]; rewrite IH, <- ?app_assoc; reflexivity.
Qed.

Lemma omap_cons {A B : Type} (f : A -> option B) (a : A) (l : list A) :
  omap f (a :: l) = match f a with Some b => b :: omap f l | None => omap f l end.
Proof. reflexivity. Qed.

Lemma split_meetings_spec (todo : list meeting) :
  forall katie_items other_meetings,
    split_meetings todo katie_items other_meetings
    = ((katie_items ++ omap (part is_katie) todo)%list,
       (other_meetings ++ omap (part not_katie) todo)%list).
Proof.
  induction todo as [|m todo IH]; intros ks os.
  - cbn [split_meetings omap list_omap]. now rewrite !app_nil_r.
  - cbn [split_meetings]. rewrite split_items_spec. cbn [app]. rewrite IH.
    rewrite !omap_cons.
    assert (Hk : part is_katie m
                 = if nonempty (List.filter is_katie (items m))
                   then Some (Meeting (title m) (List.filter is_katie (items m))) else None)
      by reflexivity.
    assert (Ho : part not_katie m
                 = if nonempty (List.filter not_katie (items m))
                   then Some (Meeting (title m) (List.filter not_katie (items m))) else None)
      by reflexivity.
    rewrite Hk, Ho.
    destruct (nonempty (List.filter is_katie (items m)));
      destruct (nonempty (List.filter not_katie (items m)));
      rewrite <- ?app_assoc; reflexivity.
Qed.

(** ** The reducer *)

Ltac set_eq_tac :=
  apply set_eq; intros ?;
  rewrite ?elem_of_union, ?elem_of_singleton, ?elem_of_empty; tauto.

Section ReducerTheory.
Context {lib : JsonLib}.

Lemma add_checked_spec (T : gset hkey) (val : string) :
  add_checked T val
  = match checked_key val with
    | Some k => Ok ({[k]} ∪ T)
    | None => Raise TypeError
    end.
Proof.
  unfold add_checked, checked_key, loads_text, loads, getitem, set_add, key_of.
  destruct (json_loads val) as [[| | | | |d]|]; try reflexivity.
  cbn [bind]. destruct (dict_get d "text") as [t|]; [|reflexivity].
  cbn [bind]. destruct t; reflexivity.
Qed.

Lemma add_all_checked_spec (checked_values : list string) :
  forall T,
    add_all_checked T checked_values
    = if checked_ok checked_values then Ok (T ∪ checked_keys checked_values)
      else Raise TypeError.
Proof.
  induction checked_values as [|v vs IH]; intros T.
  - cbn. f_equal. unfold checked_keys. cbn. set_eq_tac.
  - cbn [add_all_checked]. rewrite add_checked_spec.
    unfold checked_ok, checked_keys. cbn [forallb omap list_omap].
    destruct (checked_key v) as [k|]; [|reflexivity].
    cbn [bind]. rewrite IH. unfold checked_ok, checked_keys.
    rewrite bool_decide_eq_true_2 by eauto. cbn [andb].
    destruct (forallb _ vs); [|reflexivity].
    f_equal. cbn [list_to_set]. set_eq_tac.
Qed.

Lemma keeps_spec (T : gset hkey) (opt : pyval) :
  is_Some (option_key opt) -> keeps T opt = Ok (keep_opt T opt).
Proof.
  unfold keeps, keeps_again, keep_opt, option_key, value_key, key_of, loads_text, loads,
    getitem, contains.
  intros [k Hk]. destruct opt as [| | | | |d]; try discriminate.
  destruct (dict_get d "value") as [[| | |v| |]|]; try discriminate.
  cbn [bind]. destruct (json_loads v) as [[| | | | |p]|]; try discriminate.
  cbn [bind]. destruct (dict_get p "text") as [t|]; try discriminate.
  cbn [bind]. destruct (hash_key t) as [k'|]; try discriminate.
  cbn [bind try_except]. f_equal. apply eq_true_iff_eq.
  rewrite negb_true_iff, bool_decide_eq_false, bool_decide_eq_true. reflexivity.
Qed.

Lemma keeps_again_spec (T : gset hkey) (opt : pyval) :
  is_Some (option_key opt) -> keeps_again T opt = Ok (keep_opt T opt).
Proof.
  unfold keeps, keeps_again, keep_opt, option_key, value_key, key_of, loads_text, loads,
    getitem, contains.
  intros [k Hk]. destruct opt as [| | | | |d]; try discriminate.
  destruct (dict_get d "value") as [[| | |v| |]|]; try discriminate.
  cbn [bind]. destruct (json_loads v) as [[| | | | |p]|]; try discriminate.
  cbn [bind]. destruct (dict_get p "text") as [t|]; try discriminate.
  cbn [bind]. destruct (hash_key t) as [k'|]; try discriminate.
  cbn [bind]. f_equal. apply eq_true_iff_eq.
  rewrite negb_true_iff, bool_decide_eq_false, bool_decide_eq_true. reflexivity.
Qed.

Lemma add_initial_spec (T : gset hkey) (opt : pyval) (k : hkey) :
  option_key opt = Some k -> add_initial T opt = Ok ({[k]} ∪ T).
Proof.
  unfold add_initial, option_key, value_key, key_of, loads_text, loads, getitem, set_add.
  intros Hk. destruct opt as [| | | | |d]; try discriminate.
  destruct (dict_get d "value") as [[| | |v| |]|]; try discriminate.
  cbn [bind]. destruct (json_loads v) as [[| | | | |p]|]; try discriminate.
  cbn [bind]. destruct (dict_get p "text") as [t|]; try discriminate.
  cbn [bind]. destruct (hash_key t) as [k'|]; try discriminate.
  injection Hk as ->. reflexivity.
Qed.

Lemma filter_r_spec {A : Type} (f : A -> result bool) (g : A -> bool) (l : list A) :
  Forall (fun a => f a = Ok (g a)) l -> filter_r f l = Ok (List.filter g l).
Proof.
  induction 1 as [|a l Ha _ IH]; [reflexivity|].
  cbn [filter_r List.filter]. rewrite Ha, IH. cbn [bind]. reflexivity.
Qed.

Lemma options_ok_keyed (o : option (list pyval)) (l : list pyval) :
  o = Some l -> options_ok o = true -> all_keyed l.
Proof.
  intros -> H. unfold options_ok in H. apply Forall_forall. intros x Hx.
  rewrite forallb_forall in H. apply list_elem_of_In in Hx.
  specialize (H x Hx). now apply bool_decide_eq_true in H.
Qed.

Lemma add_all_initial_spec (opts : list pyval) :
  all_keyed opts ->
  forall T, add_all_initial T opts = Ok (T ∪ list_to_set (omap option_key opts)).
Proof.
  induction 1 as [|o l [k Hk] _ IH]; intros T.
  - cbn. f_equal. set_eq_tac.
  - cbn [add_all_initial]. rewrite (add_initial_spec _ _ _ Hk). cbn [bind].
    rewrite IH. f_equal. cbn [omap list_omap]. rewrite Hk. cbn [list_to_set]. set_eq_tac.
Qed.

Lemma keep_opt_union (T1 T2 : gset hkey) (o : pyval) :
  keep_opt (T1 ∪ T2) o = keep_opt T1 o && keep_opt T2 o.
Proof.
  unfold keep_opt. destruct (option_key o) as [k|]; [|reflexivity].
  apply eq_true_iff_eq. rewrite andb_true_iff, !bool_decide_eq_true, elem_of_union. tauto.
Qed.

Lemma filter_filter {A : Type} (f g : A -> bool) (l : list A) :
  List.filter f (List.filter g l) = List.filter (fun a => g a && f a) l.
Proof.
  induction l as [|a l IH]; [reflexivity|]. cbn [List.filter].
  destruct (g a); cbn [List.filter andb]; [destruct (f a)|]; now rewrite IH.
Qed.

Lemma filter_keep_twice (T1 T2 : gset hkey) (l : list pyval) :
  List.filter (keep_opt T2) (List.filter (keep_opt T1) l) = List.filter (keep_opt (T1 ∪ T2)) l.
Proof.
  rewrite filter_filter. apply filter_ext. intros o. now rewrite keep_opt_union.
Qed.

Lemma dict_get_set_eq (d : list (string * pyval)) (k : string) (v : pyval) :
  dict_get (dict_set d k v) k = Some v.
Proof.
  induction d as [|[k' v'] d IH]; cbn [dict_set dict_get].
  - now rewrite String.eqb_refl.
  - destruct (String.eqb k' k) eqn:E; cbn [dict_get]; [now rewrite String.eqb_refl|].
    now rewrite E.
Qed.

Lemma dict_get_set_ne (d : list (string * pyval)) (k k' : string) (v : pyval) :
  k <> k' -> dict_get (dict_set d k v) k' = dict_get d k'.
Proof.
  intros Hne. induction d as [|[k0 v0] d IH]; cbn [dict_set dict_get].
  - apply String.eqb_neq in Hne. now rewrite Hne.
  - destruct (String.eqb k0 k) eqn:E; cbn [dict_get].
    + apply String.eqb_eq in E. subst k0. apply String.eqb_neq in Hne. now rewrite Hne.
    + destruct (String.eqb k0 k'); [reflexivity | exact IH].
Qed.

Lemma list_field_get (el : pyval) (k : string) (l : list pyval) :
  is_dict el = true -> list_field el k = Some l ->
  (let* v := get el k (PList []) in iter v) = Ok l.
Proof.
  destruct el as [| | | | |d]; try discriminate. intros _.
  unfold list_field, field, get. destruct (dict_get d k) as [[| | | |l'|]|]; try discriminate.
  - intros [= <-]. reflexivity.
  - intros [= <-]. reflexivity.
Qed.

Lemma filter_all_keyed (f : pyval -> bool) (l : list pyval) :
  all_keyed l -> all_keyed (List.filter f l).
Proof.
  unfold all_keyed. rewrite !Forall_forall. intros H x Hx.
  apply list_elem_of_In, filter_In in Hx as [Hx _]. apply H. now apply list_elem_of_In.
Qed.

Lemma reduce_group_spec (st : walk) (t : pyval) (s : string) (a el action_id : pyval)
  (opts init : list pyval) :
  element_of a = Some el ->
  is_dict el = true ->
  list_field el "options" = Some opts ->
  list_field el "initial_options" = Some init ->
  all_keyed opts -> all_keyed init ->
  field el "action_id" = Some action_id ->
  reduce_group st t (PStr s) a
  = let T' := checked_texts st ∪ list_to_set (omap option_key init) in
    let remaining := List.filter (keep_opt T') opts in
    Ok (if nonempty remaining
        then Walk T' (new_blocks st ++ [divider; t; rebuilt a action_id remaining]) true
        else Walk T' (new_blocks st ++ [divider; done_marker s]) (any_items_remaining st)).
Proof.
  intros Hel Hd Hopts Hinit Ko Ki Hid. unfold reduce_group.
  unfold element_of, field in Hel. destruct a as [| | | | |ad]; try discriminate.
  unfold getitem at 1. destruct (dict_get ad "elements") as [[| | | |[|el' els]|]|];
    try discriminate.
  injection Hel as ->. cbn [bind getitem0].
  pose proof (list_field_get el "options" opts Hd Hopts) as Go.
  pose proof (list_field_get el "initial_options" init Hd Hinit) as Gi.
  destruct (get el "options" (PList [])) as [ov|] eqn:Eo; [|discriminate Go].
  cbn [bind] in Go |- *. rewrite Go. cbn [bind].
  rewrite (filter_r_spec _ (keep_opt (checked_texts st))).
  2:{ eapply Forall_impl; [exact Ko|]. intros o Ho. now apply keeps_spec. }
  cbn [bind].
  destruct (get el "initial_options" (PList [])) as [iv|] eqn:Ei; [|discriminate Gi].
  cbn [bind] in Gi |- *. rewrite Gi. cbn [bind].
  rewrite (add_all_initial_spec _ Ki). cbn [bind].
  rewrite (filter_r_spec _ (keep_opt (checked_texts st ∪ list_to_set (omap option_key init)))).
  2:{ eapply Forall_impl; [apply filter_all_keyed, Ko|]. intros o Ho. now apply keeps_again_spec. }
  cbn [bind]. rewrite filter_keep_twice.
  replace (checked_texts st ∪ (checked_texts st ∪ list_to_set (omap option_key init)))
    with (checked_texts st ∪ list_to_set (omap option_key init)) by set_eq_tac.
  cbv zeta.
  destruct (nonempty (List.filter _ opts)).
  - destruct el as [| | | | |ed]; try discriminate. unfold getitem, field in *.
    rewrite Hid. reflexivity.
  - reflexivity.
Qed.

Lemma type_is_excl (b : pyval) (t1 t2 : string) :
  type_is b t1 = true -> t1 <> t2 -> type_is b t2 = false.
Proof.
  unfold type_is. destruct (field b "type") as [[| | |s| |]|]; try discriminate.
  intros H Hne. apply String.eqb_eq in H. subst s. now apply String.eqb_neq.
Qed.

Lemma title_like_section (b : pyval) : title_like b = true -> type_is b "section" = true.
Proof. unfold title_like. intros H. now apply andb_prop in H. Qed.

Lemma not_title (b : pyval) (t : string) :
  type_is b t = true -> t <> "section" -> title_like b = false.
Proof.
  intros H Hne. unfold title_like. now rewrite (type_is_excl b t "section" H Hne).
Qed.

Lemma has_type_spec (b : pyval) (t : string) :
  is_dict b = true -> has_type b t = Ok (type_is b t).
Proof.
  destruct b as [| | | | |d]; try discriminate. intros _.
  unfold has_type, type_is, field, get. cbn [bind].
  destruct (dict_get d "type") as [[]|]; reflexivity.
Qed.

Lemma block_ok_dict (b : pyval) : block_ok b = true -> is_dict b = true.
Proof. unfold block_ok. intros H. apply andb_prop in H as [H _]. now apply andb_prop in H. Qed.

Lemma is_title_block_spec (b : pyval) :
  block_ok b = true -> is_title_block b = Ok (title_like b).
Proof.
  unfold block_ok. intros H. apply andb_prop in H as [H _]. apply andb_prop in H as [Hd H].
  destruct b as [| | | | |d]; try discriminate.
  unfold is_title_block, title_like, type_is, field, get in *. cbn [bind].
  destruct (dict_get d "type") as [[| | |ty| |]|]; try reflexivity.
  cbn [is_str]. destruct (String.eqb ty "section"); [|reflexivity].
  cbn [negb orb andb] in *.
  destruct (dict_get d "block_id") as [[|[]|z|id|l|bd]|]; try reflexivity; try discriminate.
  - cbn [truthy] in *. destruct (Z.eqb z 0); [reflexivity | discriminate].
  - cbn [truthy str_startswith]. destruct id; reflexivity.
  - cbn [truthy] in *. destruct l; [reflexivity | discriminate].
  - cbn [truthy] in *. destruct bd; [reflexivity | discriminate].
Qed.

Lemma title_text_get (b : pyval) (s : string) :
  title_text_of b = Some s ->
  (let* text_obj := getitem b "text" in getitem text_obj "text") = Ok (PStr s).
Proof.
  unfold title_text_of, field, getitem.
  destruct b as [| | | | |d]; try discriminate.
  destruct (dict_get d "text") as [[| | | | |td]|]; try discriminate.
  cbn [bind]. destruct (dict_get td "text") as [[]|]; try discriminate.
  now intros [= ->].
Qed.

Lemma actions_ok_dict (a : pyval) : actions_ok a = true -> is_dict a = true.
Proof.
  unfold actions_ok, element_of, field. destruct a; try discriminate. reflexivity.
Qed.

Lemma checklist_from_plain (pt : bool) (B : list pyval) :
  head_plain B -> checklist_from pt B = checklist_from false B.
Proof. destruct B as [|b B]; [reflexivity|]. cbn. now intros ->. Qed.

Lemma checklist_app (nb chunk : list pyval) :
  head_plain chunk ->
  forall pt, checklist_from pt (nb ++ chunk) = checklist_from pt nb && checklist_from false chunk.
Proof.
  intros Hc. induction nb as [|b nb IH]; intros pt.
  - cbn [app checklist_from andb]. now apply checklist_from_plain.
  - cbn [app checklist_from]. rewrite IH. now rewrite andb_assoc.
Qed.

Lemma groups_of_app (nb chunk : list pyval) :
  head_plain chunk -> groups_of (nb ++ chunk) = (groups_of nb ++ groups_of chunk)%list.
Proof.
  intros Hc. induction nb as [|b nb IH]; [reflexivity|].
  cbn [app groups_of]. rewrite IH, app_assoc. f_equal.
  destruct nb as [|a nb]; [|reflexivity].
  cbn [app]. destruct chunk as [|c chunk]; [reflexivity|].
  cbn in Hc. rewrite Hc, andb_false_r. reflexivity.
Qed.

Lemma outcome_nil (st : walk) : outcome st [] st.
Proof.
  exists []. rewrite app_nil_r, orb_false_r. repeat split.
Qed.

Lemma nonempty_app {A : Type} (l1 l2 : list A) :
  nonempty (l1 ++ l2) = nonempty l1 || nonempty l2.
Proof. destruct l1; reflexivity. Qed.

Lemma outcome_step (chunk : list pyval) (st st1 st' : walk) (gs : list cgroup) :
  new_blocks st1 = (new_blocks st ++ chunk)%list ->
  head_plain chunk ->
  checklist chunk = true ->
  any_items_remaining st1 = any_items_remaining st || nonempty (groups_of chunk) ->
  outcome st1 gs st' ->
  outcome st (groups_of chunk ++ gs) st'.
Proof.
  intros Hnb Hh Hc Hany (out & H1 & H2 & H3 & H4 & H5).
  exists (chunk ++ out)%list. repeat split.
  - rewrite H1, Hnb. now rewrite app_assoc.
  - destruct chunk; [exact H2 | exact Hh].
  - unfold checklist. rewrite checklist_app by exact H2.
    unfold checklist in Hc, H3. now rewrite Hc, H3.
  - rewrite groups_of_app by exact H2. now rewrite H4.
  - rewrite H5, Hany, nonempty_app, orb_assoc. reflexivity.
Qed.

Lemma outcome_push (chunk : list pyval) (st st' : walk) (gs : list cgroup) :
  head_plain chunk ->
  checklist chunk = true ->
  groups_of chunk = [] ->
  outcome (push st chunk) gs st' ->
  outcome st gs st'.
Proof.
  intros Hh Hc Hg O. change gs with ([] ++ gs)%list. rewrite <- Hg.
  apply (outcome_step chunk st (push st chunk)); [reflexivity | exact Hh | exact Hc | | exact O].
  rewrite Hg. cbn. now rewrite orb_false_r.
Qed.

Lemma divider_facts :
  type_is divider "divider" = true /\ type_is divider "actions" = false
  /\ title_like divider = false /\ block_ok divider = true.
Proof. repeat split. Qed.

Lemma done_marker_facts (s : string) :
  type_is (done_marker s) "actions" = false /\ title_like (done_marker s) = false
  /\ block_ok (done_marker s) = true.
Proof. repeat split. Qed.

Lemma rebuilt_facts (a action_id : pyval) (remaining : list pyval) :
  type_is a "actions" = true ->
  all_keyed remaining ->
  type_is (rebuilt a action_id remaining) "actions" = true
  /\ title_like (rebuilt a action_id remaining) = false
  /\ actions_ok (rebuilt a action_id remaining) = true
  /\ options_of (rebuilt a action_id remaining) "options" = remaining
  /\ options_of (rebuilt a action_id remaining) "initial_options" = [].
Proof.
  intros Ht Hk. destruct a as [| | | | |d]; try discriminate.
  assert (T : type_is (rebuilt (PDict d) action_id remaining) "actions" = true).
  { unfold type_is, rebuilt, field in *. rewrite dict_get_set_ne by discriminate. exact Ht. }
  split; [exact T|]. split; [now apply (not_title _ "actions")|].
  unfold actions_ok, options_of, element_of, rebuilt, field.
  rewrite dict_get_set_eq. cbn. repeat split.
  rewrite !andb_true_r. apply forallb_forall. intros o Ho.
  apply bool_decide_eq_true. unfold all_keyed in Hk. rewrite Forall_forall in Hk.
  apply Hk. now apply list_elem_of_In.
Qed.

Lemma push_blocks (st : walk) (bs : list pyval) :
  new_blocks (push st bs) = (new_blocks st ++ bs)%list
  /\ checked_texts (push st bs) = checked_texts st
  /\ any_items_remaining (push st bs) = any_items_remaining st.
Proof. repeat split. Qed.

Lemma checklist_head (b : pyval) (rest : list pyval) :
  checklist (b :: rest) = true ->
  type_is b "actions" = false /\ block_ok b = true
  /\ checklist_from (title_like b) rest = true.
Proof.
  unfold checklist. cbn [checklist_from]. intros H. apply andb_prop in H as [H1 H2].
  destruct (type_is b "actions"); [discriminate H1 | auto].
Qed.

Lemma actions_ok_parts (a : pyval) :
  actions_ok a = true ->
  exists el opts init action_id,
    element_of a = Some el /\ is_dict el = true
    /\ list_field el "options" = Some opts
    /\ list_field el "initial_options" = Some init
    /\ all_keyed opts /\ all_keyed init
    /\ field el "action_id" = Some action_id.
Proof.
  unfold actions_ok. destruct (element_of a) as [el|]; [|discriminate].
  intros H. apply andb_prop in H as [H H4]. apply andb_prop in H as [H H3].
  apply andb_prop in H as [H1 H2].
  destruct (list_field el "options") as [opts|] eqn:Eo; [|discriminate].
  destruct (list_field el "initial_options") as [init|] eqn:Ei; [|discriminate].
  apply bool_decide_eq_true in H4 as [action_id Hid].
  exists el, opts, init, action_id.
  split; [reflexivity|]. split; [exact H1|]. split; [exact Eo|]. split; [exact Ei|].
  split; [eapply options_ok_keyed; [reflexivity | exact H2]|].
  split; [eapply options_ok_keyed; [reflexivity | exact H3]|].
  exact Hid.
Qed.

Lemma survivors_cons (T : gset hkey) (g : cgroup) (gs : list cgroup) :
  survivors T (g :: gs)
  = ((if nonempty (List.filter (keep_opt (T ∪ initial_keys g)) (g_options g))
      then [CGroup (g_title g) (List.filter (keep_opt (T ∪ initial_keys g)) (g_options g)) []]
      else [])
     ++ survivors (T ∪ initial_keys g) gs)%list.
Proof. reflexivity. Qed.

Lemma walk_spec (n : nat) :
  forall B st,
    length B <= n ->
    checklist B = true ->
    exists st',
      walk_blocks B st = Ok st'
      /\ outcome st (survivors (checked_texts st) (groups_of B)) st'.
Proof.
  induction n as [|n IH]; intros B st Hlen Hc.
  { destruct B; [|cbn in Hlen; lia]. exists st. split; [reflexivity | apply outcome_nil]. }
  destruct B as [|block rest].
  { exists st. split; [reflexivity | apply outcome_nil]. }
  cbn [length] in Hlen.
  destruct (checklist_head _ _ Hc) as (Hna & Hok & Hrest).
  pose proof (block_ok_dict _ Hok) as Hd.
  cbn [walk_blocks].
  rewrite (has_type_spec _ "header" Hd). cbn [bind].
  destruct (type_is block "header") eqn:Hh.
  { (* header *)
    assert (Ht : title_like block = false) by (apply (not_title _ "header"); [easy | discriminate]).
    rewrite Ht in Hrest.
    destruct (IH rest (push st [block])) as (st' & W & O); [lia | exact Hrest |].
    exists st'. split; [exact W|].
    assert (G : groups_of (block :: rest) = groups_of rest).
    { cbn [groups_of]. rewrite Ht. destruct rest; reflexivity. }
    rewrite G.
    apply (outcome_push [block]); [exact Hna | | reflexivity | exact O].
    unfold checklist. cbn [checklist_from]. now rewrite Hna, Hok. }
  rewrite (is_title_block_spec _ Hok). cbn [bind].
  destruct (title_like block) eqn:Ht.
  2:{ (* neither header nor title *)
    rewrite (has_type_spec _ "divider" Hd). cbn [bind].
    assert (G : groups_of (block :: rest) = groups_of rest).
    { cbn [groups_of]. rewrite Ht. destruct rest; reflexivity. }
    rewrite G.
    destruct (type_is block "divider").
    - destruct (IH rest st) as (st' & W & O); [lia | exact Hrest |].
      exists st'. split; [exact W | exact O].
    - destruct (IH rest (push st [block])) as (st' & W & O); [lia | exact Hrest |].
      exists st'. split; [exact W|].
      apply (outcome_push [block]); [exact Hna | | reflexivity | exact O].
      unfold checklist. cbn [checklist_from]. now rewrite Hna, Hok. }
  (* a title block *)
  assert (Htt : exists s, title_text_of block = Some s).
  { unfold block_ok in Hok. apply andb_prop in Hok as [_ Hok]. rewrite Ht in Hok.
    cbn [negb orb] in Hok. apply bool_decide_eq_true in Hok. exact Hok. }
  destruct Htt as [s Htt].
  pose proof (title_text_get _ _ Htt) as Hget.
  destruct (getitem block "text") as [text_obj|] eqn:Eget; [|discriminate Hget].
  cbn [bind] in Hget |- *. rewrite Hget. cbn [bind].
  assert (Hchunk : checklist [divider; block] = true).
  { unfold checklist. cbn [checklist_from]. rewrite Hna, Hok. reflexivity. }
  destruct rest as [|next rest'].
  { exists (push st [divider; block]). split; [reflexivity|].
    apply (outcome_push [divider; block]); [reflexivity | exact Hchunk | reflexivity |].
    apply outcome_nil. }
  cbn [checklist_from] in Hrest. apply andb_prop in Hrest as [Hnext Hrest'].
  assert (Hnd : is_dict next = true).
  { destruct (type_is next "actions"); [apply actions_ok_dict | apply block_ok_dict]; easy. }
  rewrite (has_type_spec _ "actions" Hnd). cbn [bind].
  destruct (type_is next "actions") eqn:Hact.
  2:{ (* a title without its actions *)
    assert (Hr : checklist (next :: rest') = true).
    { unfold checklist. cbn [checklist_from]. rewrite Hact, Hnext. exact Hrest'. }
    destruct (IH (next :: rest') (push st [divider; block])) as (st' & W & O);
      [cbn [length] in *; lia | exact Hr |].
    exists st'. split; [exact W|].
    assert (G : groups_of (block :: next :: rest') = groups_of (next :: rest')).
    { cbn [groups_of]. rewrite Hact, andb_false_r. reflexivity. }
    rewrite G.
    apply (outcome_push [divider; block]); [reflexivity | exact Hchunk | reflexivity | exact O]. }
  (* a group *)
  cbn [andb] in Hnext.
  destruct (actions_ok_parts _ Hnext) as (el & opts & init & action_id & E1 & E2 & E3 & E4 & K1 & K2 & E5).
  rewrite (reduce_group_spec st block s next el action_id opts init E1 E2 E3 E4 K1 K2 E5).
  cbv zeta. cbn [bind].
  assert (Tn : title_like next = false) by (apply (not_title _ "actions"); [easy | discriminate]).
  rewrite Tn in Hrest'.
  assert (G : groups_of (block :: next :: rest') = group_at block next :: groups_of rest').
  { cbn [groups_of]. rewrite Ht, Hact, Tn. cbn [andb app]. f_equal. destruct rest'; reflexivity. }
  rewrite G, survivors_cons.
  assert (Go : g_options (group_at block next) = opts).
  { cbn. unfold options_of. now rewrite E1, E3. }
  assert (Gi : initial_keys (group_at block next) = list_to_set (omap option_key init)).
  { unfold initial_keys. cbn. unfold options_of. now rewrite E1, E4. }
  rewrite Go, Gi. cbn [g_title group_at].
  set (T' := checked_texts st ∪ list_to_set (omap option_key init)).
  set (remaining := List.filter (keep_opt T') opts).
  set (st1 := if nonempty remaining
              then Walk T' (new_blocks st ++ [divider; block; rebuilt next action_id remaining]) true
              else Walk T' (new_blocks st ++ [divider; done_marker s]) (any_items_remaining st)).
  set (chunk := if nonempty remaining
                then [divider; block; rebuilt next action_id remaining]
                else [divider; done_marker s]).
  assert (Kr : all_keyed remaining) by (apply filter_all_keyed, K1).
  destruct (rebuilt_facts next action_id remaining Hact Kr) as (R1 & R2 & R3 & R4 & R5).
  assert (S1 : new_blocks st1 = (new_blocks st ++ chunk)%list)
    by (unfold st1, chunk; destruct (nonempty remaining); reflexivity).
  assert (S2 : checked_texts st1 = T')
    by (unfold st1; destruct (nonempty remaining); reflexivity).
  assert (S3 : groups_of chunk
               = if nonempty remaining then [CGroup block remaining []] else []).
  { unfold chunk. destruct (nonempty remaining); [|reflexivity].
    cbn [groups_of]. replace (title_like divider) with false by reflexivity.
    rewrite Ht, R1. cbn [andb app]. unfold group_at. now rewrite R4, R5. }
  assert (S4 : any_items_remaining st1 = any_items_remaining st || nonempty (groups_of chunk)).
  { rewrite S3. unfold st1. destruct (nonempty remaining); cbn; [now rewrite orb_true_r | now rewrite orb_false_r]. }
  assert (S5 : checklist chunk = true).
  { unfold chunk, checklist. destruct (nonempty remaining); cbn [checklist_from].
    - replace (type_is divider "actions") with false by reflexivity.
      replace (block_ok divider) with true by reflexivity.
      rewrite Hna, Hok, Ht, R1, R3. reflexivity.
    - reflexivity. }
  assert (S6 : head_plain chunk) by (unfold chunk; destruct (nonempty remaining); reflexivity).
  rewrite <- S3.
  assert (Fin : forall st' todo,
             walk_blocks todo st1 = Ok st' ->
             outcome st1 (survivors T' (groups_of rest')) st' ->
             exists st'', walk_blocks todo st1 = Ok st''
                          /\ outcome st (groups_of chunk ++ survivors T' (groups_of rest')) st'').
  { intros st' todo W O. exists st'. split; [exact W|].
    eapply (outcome_step chunk); eauto. }
  destruct rest' as [|third rest''].
  { eapply Fin; [reflexivity|]. rewrite <- S2. apply outcome_nil. }
  destruct (checklist_head _ _ Hrest') as (H3a & H3ok & H3rest).
  rewrite (has_type_spec _ "divider" (block_ok_dict _ H3ok)). cbn [bind].
  destruct (type_is third "divider") eqn:Hdiv.
  - assert (T3 : title_like third = false) by (apply (not_title _ "divider"); [easy | discriminate]).
    rewrite T3 in H3rest.
    destruct (IH rest'' st1) as (st' & W & O); [cbn [length] in *; lia | exact H3rest |].
    apply (Fin st'); [exact W|].
    rewrite S2 in O.
    replace (groups_of (third :: rest'')) with (groups_of rest''); [exact O|].
    cbn [groups_of]. rewrite T3. destruct rest''; reflexivity.
  - destruct (IH (third :: rest'') st1) as (st' & W & O); [cbn [length] in *; lia | exact Hrest' |].
    apply (Fin st'); [exact W|]. now rewrite S2 in O.
Qed.

Lemma all_done_facts (today : string) :
  checklist (build_all_done_blocks today) = true
  /\ groups_of (build_all_done_blocks today) = [].
Proof. split; reflexivity. Qed.

Lemma nonempty_nil {A : Type} (l : list A) : nonempty l = false -> l = [].
Proof. destruct l; [reflexivity | discriminate]. Qed.

Lemma rebuild_unfold (today : string) (B : list pyval) (S : list string) :
  rebuild_blocks_after_check today B S
  = if checked_ok S
    then match walk_blocks B (Walk (checked_keys S) [] false) with
         | Ok st => Ok (if any_items_remaining st then new_blocks st
                        else build_all_done_blocks today)
         | Raise e => Raise e
         end
    else Raise TypeError.
Proof.
  unfold rebuild_blocks_after_check. rewrite add_all_checked_spec.
  destruct (checked_ok S); [|reflexivity]. cbn [bind].
  replace (∅ ∪ checked_keys S) with (checked_keys S) by set_eq_tac.
  destruct (walk_blocks _ _) as [st|e]; [|reflexivity].
  cbn [bind]. destruct (any_items_remaining st); reflexivity.
Qed.

Lemma rebuild_spec (today : string) (B : list pyval) (S : list string) :
  checklist B = true ->
  checked_ok S = true ->
  exists B',
    rebuild_blocks_after_check today B S = Ok B'
    /\ checklist B' = true
    /\ groups_of B' = survivors (checked_keys S) (groups_of B).
Proof.
  intros HB HS. rewrite rebuild_unfold, HS.
  destruct (walk_spec (length B) B (Walk (checked_keys S) [] false) (le_n _) HB)
    as (st' & W & out & O1 & O2 & O3 & O4 & O5).
  rewrite W. cbn [new_blocks checked_texts any_items_remaining app orb] in *.
  rewrite O5. destruct (nonempty _) eqn:E.
  - exists (new_blocks st'). rewrite O1. auto.
  - exists (build_all_done_blocks today). split; [reflexivity|].
    split; [reflexivity|]. apply nonempty_nil in E. now rewrite E.
Qed.

Lemma sublist_filter {A : Type} (f : A -> bool) (l : list A) : sublist (List.filter f l) l.
Proof.
  induction l as [|a l IH]; [constructor|]. cbn [List.filter].
  destruct (f a); [now apply sublist_skip | now apply sublist_cons].
Qed.

Lemma keep_opt_out (T : gset hkey) (o : pyval) (k : hkey) :
  keep_opt T o = true -> option_key o = Some k -> k ∉ T.
Proof. unfold keep_opt. intros H E. rewrite E in H. now apply bool_decide_eq_true in H. Qed.

Lemma survivors_shrinks (gs : list cgroup) :
  forall T g',
    g' ∈ survivors T gs -> exists g, g ∈ gs /\ shrinks T g g'.
Proof.
  induction gs as [|g gs IH]; intros T g' Hin.
  - cbn in Hin. now apply elem_of_nil in Hin.
  - rewrite survivors_cons in Hin. apply elem_of_app in Hin as [Hin|Hin].
    + destruct (nonempty _); [|now apply elem_of_nil in Hin].
      apply list_elem_of_singleton in Hin. subst g'. exists g. split; [left|].
      split; [reflexivity|]. split; [apply sublist_filter|].
      cbn [g_options]. intros o k Ho Hk.
      apply list_elem_of_In, filter_In in Ho as [_ Ho].
      pose proof (keep_opt_out _ _ _ Ho Hk) as Hout.
      rewrite elem_of_union in Hout. tauto.
    + apply IH in Hin as (g0 & Hg0 & Ht & Hs & Hk). exists g0. split; [now right|].
      split; [exact Ht|]. split; [exact Hs|].
      intros o k Ho Ek. destruct (Hk o k Ho Ek) as [H1 H2]. split; [|exact H2].
      rewrite elem_of_union in H1. tauto.
Qed.

Lemma survivors_no_initial (gs : list cgroup) :
  forall T g, g ∈ survivors T gs -> g_initial g = [].
Proof.
  induction gs as [|g0 gs IH]; intros T g Hin.
  - cbn in Hin. now apply elem_of_nil in Hin.
  - rewrite survivors_cons in Hin. apply elem_of_app in Hin as [Hin|Hin].
    + destruct (nonempty _); [|now apply elem_of_nil in Hin].
      apply list_elem_of_singleton in Hin. now subst g.
    + eapply IH, Hin.
Qed.




End ReducerTheory.

(** ** Facts about checklists used by the claims *)

Section ChecklistFacts.
Context {lib : JsonLib}.

Lemma same_elements_spec (S S' : list string) :
  same_elements S S' = true -> forall v, v ∈ S <-> v ∈ S'.
Proof.
  unfold same_elements. intros H v. apply andb_prop in H as [H1 H2].
  rewrite forallb_forall in H1, H2. split; intros Hv.
  - apply list_elem_of_In in Hv. apply H1 in Hv. now apply bool_decide_eq_true in Hv.
  - apply list_elem_of_In in Hv. apply H2 in Hv. now apply bool_decide_eq_true in Hv.
Qed.

Lemma checked_ok_same (S S' : list string) :
  (forall v, v ∈ S <-> v ∈ S') -> checked_ok S = checked_ok S'.
Proof.
  intros H. unfold checked_ok. apply eq_true_iff_eq. rewrite !forallb_forall.
  split; intros Hall v Hv; apply Hall; apply list_elem_of_In; apply H; now apply list_elem_of_In.
Qed.

Lemma checked_keys_same (S S' : list string) :
  (forall v, v ∈ S <-> v ∈ S') -> checked_keys S = checked_keys S'.
Proof.
  intros H. unfold checked_keys. apply set_eq. intros k.
  rewrite !elem_of_list_to_set, !list_elem_of_omap.
  split; intros (v & Hv & E); exists v; (split; [apply H; exact Hv | exact E]).
Qed.

Lemma checked_key_of_value (o : pyval) (v : string) (k : hkey) :
  field o "value" = Some (PStr v) -> option_key o = Some k -> checked_key v = Some k.
Proof.
  unfold field, option_key, value_key, checked_key.
  destruct o as [| | | | |d]; try discriminate. intros ->.
  destruct (json_loads v) as [[| | | | |p]|]; try discriminate.
  destruct (dict_get p "text"); [easy | discriminate].
Qed.

Lemma checked_keys_elem (S : list string) (v : string) (k : hkey) :
  v ∈ S -> checked_key v = Some k -> k ∈ checked_keys S.
Proof.
  intros Hv E. unfold checked_keys. apply elem_of_list_to_set, list_elem_of_omap. eauto.
Qed.

Lemma all_options_elem (B : list pyval) (o : pyval) :
  o ∈ all_options B <-> exists g, g ∈ groups_of B /\ o ∈ g_options g.
Proof.
  unfold all_options. rewrite list_elem_of_In, in_concat. split.
  - intros (l & Hl & Ho). apply in_map_iff in Hl as (g & <- & Hg).
    exists g. split; apply list_elem_of_In; assumption.
  - intros (g & Hg & Ho). exists (g_options g).
    split; [apply in_map | ]; now apply list_elem_of_In.
Qed.

Lemma groups_keyed (B : list pyval) :
  forall pt g, checklist_from pt B = true -> g ∈ groups_of B -> all_keyed (g_options g).
Proof.
  induction B as [|b B IH]; intros pt g Hc Hg.
  - now apply elem_of_nil in Hg.
  - cbn [checklist_from] in Hc. apply andb_prop in Hc as [_ Hc].
    cbn [groups_of] in Hg. apply elem_of_app in Hg as [Hg|Hg]; [|eapply IH; eauto].
    destruct B as [|a B]; [now apply elem_of_nil in Hg|].
    destruct (title_like b) eqn:Ht; [|now apply elem_of_nil in Hg].
    destruct (type_is a "actions") eqn:Ha; [|now apply elem_of_nil in Hg].
    apply list_elem_of_singleton in Hg. subst g.
    cbn [checklist_from] in Hc. rewrite Ha in Hc. apply andb_prop in Hc as [Hc _].
    cbn [andb] in Hc.
    destruct (actions_ok_parts _ Hc) as (el & opts & init & aid & E1 & _ & E3 & _ & K & _).
    cbn [group_at g_options]. unfold options_of. now rewrite E1, E3.
Qed.

Lemma groups_title_in (B : list pyval) (g : cgroup) : g ∈ groups_of B -> g_title g ∈ B.
Proof.
  induction B as [|b B IH]; intros Hg.
  - now apply elem_of_nil in Hg.
  - cbn [groups_of] in Hg. apply elem_of_app in Hg as [Hg|Hg]; [|right; now apply IH].
    destruct B as [|a B]; [now apply elem_of_nil in Hg|].
    destruct (title_like b && type_is a "actions"); [|now apply elem_of_nil in Hg].
    apply list_elem_of_singleton in Hg. subst g. left.
Qed.

Lemma titles_grouped (B : list pyval) (b : pyval) :
  no_dangling B = true -> b ∈ B -> title_like b = true ->
  exists g, g ∈ groups_of B /\ g_title g = b.
Proof.
  induction B as [|b0 B IH]; intros Hn Hb Ht.
  - now apply elem_of_nil in Hb.
  - cbn [no_dangling] in Hn. apply andb_prop in Hn as [Hn0 Hn].
    apply elem_of_cons in Hb as [->|Hb].
    + rewrite Ht in Hn0. cbn [negb orb] in Hn0.
      destruct B as [|a B]; [discriminate|].
      exists (group_at b0 a). split; [|reflexivity].
      cbn [groups_of]. rewrite Ht, Hn0. left.
    + destruct (IH Hn Hb Ht) as (g & Hg & E). exists g. split; [|exact E].
      cbn [groups_of]. apply elem_of_app. now right.
Qed.

Lemma keep_opt_empty (o : pyval) : is_Some (option_key o) -> keep_opt ∅ o = true.
Proof.
  intros [k Hk]. unfold keep_opt. rewrite Hk. apply bool_decide_eq_true.
  apply not_elem_of_empty.
Qed.

Lemma filter_all {A : Type} (f : A -> bool) (l : list A) :
  forallb f l = true -> List.filter f l = l.
Proof.
  induction l as [|a l IH]; [reflexivity|]. cbn [forallb List.filter].
  intros H. apply andb_prop in H as [-> H]. now rewrite IH.
Qed.

Lemma survivors_fresh (gs : list cgroup) :
  forallb fresh_group gs = true -> survivors ∅ gs = gs.
Proof.
  induction gs as [|g gs IH]; [reflexivity|]. cbn [forallb].
  intros H. apply andb_prop in H as [Hg H]. rewrite survivors_cons.
  unfold fresh_group in Hg. apply andb_prop in Hg as [Hg Hi]. apply andb_prop in Hg as [Hn Hk].
  destruct g as [t opts init]. cbn [g_options g_initial g_title] in *.
  destruct init; [|discriminate].
  replace (∅ ∪ initial_keys (CGroup t opts [])) with (∅ : gset hkey)
    by (unfold initial_keys; cbn; set_eq_tac).
  rewrite filter_all.
  - rewrite Hn, (IH H). reflexivity.
  - apply forallb_forall. intros o Ho. apply keep_opt_empty.
    rewrite forallb_forall in Hk. specialize (Hk o Ho). now apply bool_decide_eq_true in Hk.
Qed.

End ChecklistFacts.


(** ** What the renderer builds *)

Section Renderer.
Context {lib : JsonLib}.

(** The round trip of the option values: what the renderer encodes decodes
    to an object with the item as its text. *)
Hypothesis round_trip :
  forall m_idx i_idx item, value_key (option_value m_idx i_idx item) = Some (HStr item).

Lemma startswith_app (p s : string) : startswith p (p ++ s) = true.
Proof.
  induction p as [|c p IH]; [reflexivity|].
  rewrite str_app_cons. cbn [startswith]. now rewrite Ascii.eqb_refl.
Qed.

Lemma checkbox_keyed (m_idx i_idx : nat) (item : string) :
  option_key (checkbox m_idx i_idx item) = Some (HStr item).
Proof. unfold option_key, checkbox. cbn [dict_get String.eqb Ascii.eqb Bool.eqb]. apply round_trip. Qed.

Lemma imap_keyed (m_idx : nat) (its : list string) :
  forall (f : nat -> nat),
    forallb (fun o => bool_decide (is_Some (option_key o)))
      (imap (fun i => checkbox m_idx (f i)) its) = true.
Proof.
  induction its as [|item its IH]; intros f; [reflexivity|].
  cbn [imap forallb]. rewrite checkbox_keyed, bool_decide_eq_true_2 by eauto.
  cbn [andb]. apply (IH (f ∘ S)).
Qed.

Lemma imap_nonempty {A B : Type} (f : nat -> A -> B) (l : list A) :
  nonempty (imap f l) = nonempty l.
Proof. destruct l; reflexivity. Qed.

Lemma body_cons (k : nat) (m : meeting) (ms : list meeting) :
  body k (m :: ms) = (meeting_blocks k m ++ body (S k) ms)%list.
Proof.
  unfold body. cbn [imap concat]. rewrite Nat.add_0_r. f_equal. f_equal.
  apply imap_ext. intros i x _. unfold compose.
  replace (k + S i) with (S k + i) by lia. reflexivity.
Qed.

Lemma meeting_blocks_shape (k : nat) (m : meeting) :
  has_items m ->
  exists t a,
    meeting_blocks k m = [t; a; divider]
    /\ title_like t = true /\ type_is t "actions" = false /\ block_ok t = true
    /\ type_is a "actions" = true /\ title_like a = false /\ actions_ok a = true
    /\ fresh_group (group_at t a) = true.
Proof.
  intros Hm. unfold meeting_blocks. rewrite imap_nonempty, Hm.
  eexists _, _. split; [reflexivity|].
  assert (K : forallb (fun o => bool_decide (is_Some (option_key o)))
                (imap (checkbox k) (items m)) = true) by (apply (imap_keyed k (items m) id)).
  assert (T : title_like
                (PDict [("type", PStr "section");
                        ("block_id", PStr ("meeting_title_" ++ Json.dumps_nat k));
                        ("text", PDict [("type", PStr "mrkdwn");
                                        ("text", PStr ("*" ++ title m ++ "*"))])]) = true).
  { unfold title_like, type_is, field. cbn [dict_get String.eqb Ascii.eqb Bool.eqb andb].
    apply startswith_app. }
  split; [exact T|]. split; [reflexivity|]. split.
  { unfold block_ok. rewrite T. reflexivity. }
  split; [reflexivity|]. split; [reflexivity|]. split.
  { unfold actions_ok, element_of, list_field, field.
    cbn [dict_get String.eqb Ascii.eqb Bool.eqb is_dict options_ok andb].
    rewrite K. reflexivity. }
  unfold fresh_group, group_at, options_of, element_of, list_field, field.
  cbn [dict_get String.eqb Ascii.eqb Bool.eqb g_options g_initial].
  rewrite imap_nonempty, Hm, K. reflexivity.
Qed.

Lemma body_facts (ms : list meeting) :
  Forall has_items ms ->
  forall k,
    checklist (body k ms) = true
    /\ forallb fresh_group (groups_of (body k ms)) = true
    /\ no_dangling (body k ms) = true
    /\ head_plain (body k ms).
Proof.
  induction 1 as [|m ms Hm _ IH]; intros k.
  - repeat split.
  - rewrite body_cons.
    destruct (meeting_blocks_shape k m Hm) as (t & a & -> & T1 & T2 & T3 & A1 & A2 & A3 & F).
    destruct (IH (S k)) as (C & G & N & P).
    cbn [app]. unfold checklist in *. cbn [checklist_from groups_of no_dangling head_plain].
    rewrite T1, T2, T3, A1, A2, A3.
    replace (type_is divider "actions") with false by reflexivity.
    replace (title_like divider) with false by reflexivity.
    replace (block_ok divider) with true by reflexivity.
    cbn [andb orb negb app forallb].
    rewrite F. cbn [andb].
    destruct (body (S k) ms) as [|x xs]; cbn [app]; repeat split; assumption.
Qed.

Lemma part_has_items (f : string -> bool) (ms : list meeting) :
  Forall has_items (omap (part f) ms).
Proof.
  apply Forall_forall. intros m' Hm'. apply list_elem_of_omap in Hm' as (m & _ & E).
  unfold part in E. destruct (nonempty (List.filter f (items m))) eqn:N; [|discriminate].
  injection E as <-. exact N.
Qed.

Lemma prefix_facts (pre rest : list pyval) :
  Forall (fun b => block_ok b = true /\ type_is b "actions" = false /\ title_like b = false) pre ->
  checklist rest = true -> forallb fresh_group (groups_of rest) = true ->
  no_dangling rest = true ->
  checklist (pre ++ rest) = true
  /\ forallb fresh_group (groups_of (pre ++ rest)) = true
  /\ no_dangling (pre ++ rest) = true.
Proof.
  intros Hp C G N. induction Hp as [|b pre (B1 & B2 & B3) _ IH]; [auto|].
  destruct IH as (C' & G' & N').
  cbn [app]. unfold checklist in *. cbn [checklist_from groups_of no_dangling].
  rewrite B1, B2, B3. cbn [andb orb negb].
  destruct (pre ++ rest)%list as [|x xs]; cbn [app]; repeat split; assumption.
Qed.

(** What the renderer builds is a rendered checklist. *)
Lemma build_interactive_blocks_rendered (today : string) (ms : list meeting) :
  rendered (build_interactive_blocks today ms) = true.
Proof.
  unfold build_interactive_blocks, split_katie_items. rewrite split_meetings_spec.
  cbn [app].
  set (katie_items := omap (part is_katie) ms).
  set (other_meetings := omap (part not_katie) ms).
  assert (Hall : Forall has_items (katie_items ++ other_meetings)).
  { apply Forall_app. split; apply part_has_items. }
  destruct (body_facts _ Hall 0) as (C & G & N & _).
  change (concat (imap meeting_blocks (katie_items ++ other_meetings)))
    with (body 0 (katie_items ++ other_meetings)).
  unfold rendered.
  assert (P : forall pre,
             Forall (fun b => block_ok b = true /\ type_is b "actions" = false
                              /\ title_like b = false) pre ->
             checklist (pre ++ body 0 (katie_items ++ other_meetings))
             && forallb fresh_group (groups_of (pre ++ body 0 (katie_items ++ other_meetings)))
             && no_dangling (pre ++ body 0 (katie_items ++ other_meetings)) = true).
  { intros pre Hp. destruct (prefix_facts pre _ Hp C G N) as (-> & -> & ->). reflexivity. }
  destruct (nonempty katie_items), (nonempty other_meetings); cbn [andb];
    apply P; repeat constructor.
Qed.

End Renderer.

(** ** The reference decoder reads the renderer's values back *)

Local Notation "c ::: s" := (String c%char s) (at level 60, right associativity).

Lemma str_app_assoc (a b c : string) : (a ++ b) ++ c = a ++ (b ++ c).
Proof. induction a as [|x a IH]; [reflexivity|]. rewrite !str_app_cons. now rewrite IH. Qed.

Lemma escape_parse (c : ascii) (tail : string) (fuel : nat) :
  Json.parse_chars (S fuel) (Json.escape c ++ tail)
  = match Json.parse_chars fuel tail with
    | Some (t, rest) => Some (String c t, rest)
    | None => None
    end.
Proof. destruct c as [[] [] [] [] [] [] [] []]; reflexivity. Qed.

Lemma escape_all_parse (s : string) :
  forall rest fuel,
    String.length s < fuel ->
    Json.parse_chars fuel (Json.escape_all s ++ String DQ rest) = Some (s, rest).
Proof.
  induction s as [|c s IH]; intros rest fuel Hf.
  - destruct fuel; [cbn in Hf; lia|]. reflexivity.
  - destruct fuel; [cbn in Hf; lia|]. cbn [Json.escape_all].
    rewrite str_app_assoc, escape_parse, IH; [reflexivity|].
    change (String.length (String c s)) with (S (String.length s)) in Hf. lia.
Qed.

Lemma escape_length (c : ascii) : 1 <= String.length (Json.escape c).
Proof. apply Nat.leb_le. destruct c as [[] [] [] [] [] [] [] []]; reflexivity. Qed.

Lemma escape_all_length (s : string) : String.length s <= String.length (Json.escape_all s).
Proof.
  induction s as [|c s IH]; [reflexivity|]. cbn [Json.escape_all].
  change (String.length (String c s)) with (S (String.length s)).
  rewrite str_length_app. pose proof (escape_length c). lia.
Qed.

Lemma digit_char_facts (n : nat) :
  Json.is_digit (Json.digit_char n) = true
  /\ Z.of_nat (code (Json.digit_char n) - 48) = Z.of_nat (n mod 10)
  /\ (Ascii.eqb (Json.digit_char n) "0"%char = true -> n mod 10 = 0).
Proof.
  unfold Json.digit_char. pose proof (Nat.mod_upper_bound n 10 ltac:(lia)) as H.
  destruct (n mod 10) as [|[|[|[|[|[|[|[|[|[|k]]]]]]]]]]; try lia; repeat split; try reflexivity;
    try discriminate.
Qed.

Lemma nat_digits_app (fuel : nat) :
  forall n acc rest, Json.nat_digits fuel n acc ++ rest = Json.nat_digits fuel n (acc ++ rest).
Proof.
  induction fuel as [|fuel IH]; intros n acc rest; [reflexivity|].
  cbn [Json.nat_digits]. destruct (Nat.ltb n 10); [reflexivity|]. now rewrite IH.
Qed.

Lemma digits_nat_digits (fuel : nat) :
  forall n acc a,
    n < fuel ->
    exists k : nat,
      Json.digits (Json.nat_digits fuel n acc) a
      = Json.digits acc (a * 10 ^ Z.of_nat k + Z.of_nat n)%Z.
Proof.
  induction fuel as [|fuel IH]; intros n acc a Hf; [lia|].
  cbn [Json.nat_digits].
  destruct (digit_char_facts n) as (D1 & D2 & _).
  destruct (Nat.ltb_spec n 10) as [Hn|Hn].
  - exists 1. cbn [Json.digits]. rewrite D1, D2, Nat.mod_small by lia.
    f_equal. 
  - assert (Hd : n / 10 < fuel).
    { pose proof (Nat.div_lt n 10 ltac:(lia) ltac:(lia)). lia. }
    destruct (IH (n / 10) (String (Json.digit_char n) acc) a Hd) as [k Hk].
    exists (S k). rewrite Hk. cbn [Json.digits]. rewrite D1, D2. f_equal.
    rewrite Nat2Z.inj_succ, Z.pow_succ_r by lia.
    pose proof (Nat.div_mod_eq n 10) as E.
    assert (E' : Z.of_nat n = (10 * Z.of_nat (n / 10) + Z.of_nat (n mod 10))%Z) by lia.
    lia.
Qed.

Lemma nat_digits_head (fuel : nat) :
  forall n acc,
    n < fuel ->
    exists c r,
      Json.nat_digits fuel n acc = String c r
      /\ Json.is_digit c = true
      /\ (0 < n -> Ascii.eqb c "0"%char = false).
Proof.
  induction fuel as [|fuel IH]; intros n acc Hf; [lia|].
  cbn [Json.nat_digits].
  destruct (digit_char_facts n) as (D1 & _ & D3).
  destruct (Nat.ltb_spec n 10) as [Hn|Hn].
  - exists (Json.digit_char n), acc. split; [reflexivity|]. split; [exact D1|].
    intros Hp. destruct (Ascii.eqb (Json.digit_char n) "0") eqn:E; [|reflexivity].
    specialize (D3 eq_refl). rewrite Nat.mod_small in D3 by lia. lia.
  - assert (Hd : n / 10 < fuel).
    { pose proof (Nat.div_lt n 10 ltac:(lia) ltac:(lia)). lia. }
    destruct (IH (n / 10) (String (Json.digit_char n) acc) Hd) as (c & r & E & C1 & C2).
    exists c, r. split; [exact E|]. split; [exact C1|]. intros _. apply C2.
    apply Nat.div_str_pos. lia.
Qed.

(** A decimal number followed by a comma reads back as the number. *)
Lemma parse_value_nat (fuel n : nat) (rest : string) :
  Json.parse_value (S fuel) (Json.dumps_nat n ++ String ","%char rest)
  = Some (PInt (Z.of_nat n), String ","%char rest).
Proof.
  unfold Json.dumps_nat. rewrite nat_digits_app.
  destruct (nat_digits_head (S n) n (EmptyString ++ String ","%char rest) ltac:(lia))
    as (c & r & E & C1 & C2).
  destruct (digits_nat_digits (S n) n (EmptyString ++ String ","%char rest) 0 ltac:(lia))
    as (k & Hk).
  rewrite E in Hk |- *.
  assert (Hc : Ascii.eqb c DQ = false /\ Ascii.eqb c "n"%char = false
               /\ Ascii.eqb c "t"%char = false /\ Ascii.eqb c "f"%char = false
               /\ Ascii.eqb c "-"%char = false).
  { revert C1. clear. destruct c as [[] [] [] [] [] [] [] []]; intros H;
      try discriminate H; repeat split. }
  destruct Hc as (H1 & H2 & H3 & H4 & H5).
  cbn [Json.parse_value]. rewrite H1, H2, H3, H4, H5, C1.
  unfold Json.parse_nat. rewrite C1.
  destruct (Ascii.eqb c "0"%char) eqn:Z0.
  - assert (n = 0) by (destruct n; [reflexivity | specialize (C2 ltac:(lia)); discriminate]).
    subst n. cbn in E. injection E as <- <-. reflexivity.
  - rewrite Hk. cbn. rewrite Z.mul_0_l, Z.add_0_l. reflexivity.
Qed.

Lemma option_value_norm (m i : nat) (item : string) :
  option_value m i item
  = "{" ::: DQ ::: "m" ::: DQ ::: ":" ::: " " :::
    (Json.dumps_nat m
     ++ "," ::: " " ::: DQ ::: "i" ::: DQ ::: ":" ::: " " :::
        (Json.dumps_nat i
         ++ "," ::: " " ::: DQ ::: "t" ::: "e" ::: "x" ::: "t" ::: DQ ::: ":" ::: " " ::: DQ :::
            (Json.escape_all item ++ DQ ::: "}"))).
Proof.
  unfold option_value, Json.dumps_str.
  rewrite !str_app_cons, (str_app_assoc (Json.escape_all item)).
  reflexivity.
Qed.


Lemma skip_ws_nat (n : nat) (rest : string) :
  Json.skip_ws (Json.dumps_nat n ++ rest) = Json.dumps_nat n ++ rest.
Proof.
  unfold Json.dumps_nat. rewrite nat_digits_app.
  destruct (nat_digits_head (S n) n (EmptyString ++ rest) ltac:(lia)) as (c & r & E & C1 & _).
  rewrite E. cbn [Json.skip_ws].
  replace (Json.is_ws c) with false; [reflexivity|].
  revert C1. clear. destruct c as [[] [] [] [] [] [] [] []]; intros H;
    try discriminate H; reflexivity.
Qed.

Lemma pairs_loop_step (parse : string -> option (pyval * string)) (n : nat) (r1 : string)
    (acc : list (string * pyval)) :
  Json.pairs_loop parse (S n) (DQ ::: r1) acc
  = match Json.parse_chars (S (String.length r1)) r1 with
    | Some (key, rest) =>
        match Json.skip_ws rest with
        | String ":"%char rest' =>
            match parse (Json.skip_ws rest') with
            | Some (v, rest'') =>
                match Json.skip_ws rest'' with
                | String ","%char r2 =>
                    Json.pairs_loop parse n (Json.skip_ws r2) (Py.dict_set acc key v)
                | String "}"%char r2 => Some (PDict (Py.dict_set acc key v), r2)
                | _ => None
                end
            | None => None
            end
        | _ => None
        end
    | None => None
    end.
Proof. reflexivity. Qed.

Lemma key_parse (key rest : string) :
  Json.parse_chars (S (String.length (Json.escape_all key ++ DQ ::: rest)))
    (Json.escape_all key ++ DQ ::: rest)
  = Some (key, rest).
Proof.
  apply escape_all_parse. rewrite str_length_app. pose proof (escape_all_length key). lia.
Qed.

(** One pair whose value is a number, followed by a comma, a blank and the
    quote of the next key. *)
Lemma pairs_loop_nat (fuel n v : nat) (key rest : string) (acc : list (string * pyval)) :
  Json.pairs_loop (Json.parse_value (S fuel)) (S n)
    (DQ ::: (Json.escape_all key ++ DQ ::: ":" ::: " " :::
       (Json.dumps_nat v ++ "," ::: " " ::: DQ ::: rest))) acc
  = Json.pairs_loop (Json.parse_value (S fuel)) n (DQ ::: rest)
      (Py.dict_set acc key (PInt (Z.of_nat v))).
Proof.
  rewrite pairs_loop_step, key_parse.
  change (Json.skip_ws (":" ::: " " ::: ?x)) with (":" ::: " " ::: x).
  cbv iota beta.
  change (Json.skip_ws (" " ::: ?x)) with (Json.skip_ws x).
  rewrite skip_ws_nat, parse_value_nat. reflexivity.
Qed.

(** The last pair, whose value is a string, and the closing brace. *)
Lemma pairs_loop_str (fuel n : nat) (key v : string) (acc : list (string * pyval)) :
  Json.pairs_loop (Json.parse_value (S fuel)) (S n)
    (DQ ::: (Json.escape_all key ++ DQ ::: ":" ::: " " ::: DQ :::
       (Json.escape_all v ++ DQ ::: "}" ::: EmptyString))) acc
  = Some (PDict (Py.dict_set acc key (PStr v)), EmptyString).
Proof.
  rewrite pairs_loop_step, key_parse.
  change (Json.skip_ws (":" ::: " " ::: ?x)) with (":" ::: " " ::: x).
  cbv iota beta.
  change (Json.skip_ws (" " ::: DQ ::: ?x)) with (DQ ::: x).
  change (Json.parse_value (S fuel) (DQ ::: ?x))
    with (match Json.parse_chars (S (String.length x)) x with
          | Some (t, rest) => Some (PStr t, rest)
          | None => None
          end).
  rewrite key_parse. reflexivity.
Qed.

Lemma option_value_shape (m i : nat) (item : string) :
  option_value m i item
  = "{" ::: DQ ::: (Json.escape_all "m" ++ DQ ::: ":" ::: " " :::
      (Json.dumps_nat m ++ "," ::: " " ::: DQ :::
        (Json.escape_all "i" ++ DQ ::: ":" ::: " " :::
          (Json.dumps_nat i ++ "," ::: " " ::: DQ :::
            (Json.escape_all "text" ++ DQ ::: ":" ::: " " ::: DQ :::
              (Json.escape_all item ++ DQ ::: "}" ::: EmptyString)))))).
Proof. rewrite option_value_norm. reflexivity. Qed.

(** The reference decoder reads a rendered value back. *)
Lemma loads_option_value (m i : nat) (item : string) :
  Json.loads (option_value m i item)
  = Some (PDict [("m", PInt (Z.of_nat m)); ("i", PInt (Z.of_nat i)); ("text", PStr item)]).
Proof.
  unfold Json.loads. rewrite option_value_shape.
  set (r := Json.escape_all "m" ++ _).
  change (Json.skip_ws ("{" ::: DQ ::: r)) with ("{" ::: DQ ::: r).
  change (String.length ("{" ::: DQ ::: r)) with (S (S (String.length r))).
  assert (HL : exists L, String.length r = S L) by (eexists; reflexivity).
  destruct HL as [L ->].
  change (Json.parse_value (S (S (S (S L)))) ("{" ::: DQ ::: r))
    with (Json.pairs_loop (Json.parse_value (S (S (S L)))) (S (S (S L))) (DQ ::: r) []).
  subst r.
  rewrite !pairs_loop_nat, pairs_loop_str. reflexivity.
Qed.

Lemma reference_round_trip (m_idx i_idx : nat) (item : string) :
  @value_key reference (option_value m_idx i_idx item) = Some (HStr item).
Proof.
  unfold value_key, key_of, loads_text, loads, json_loads, reference.
  rewrite loads_option_value. reflexivity.
Qed.

(** With the reference decoder, what the renderer builds is a rendered
    checklist. *)
Lemma reference_rendered (today : string) (ms : list meeting) :
  @rendered reference (build_interactive_blocks today ms) = true.
Proof. apply build_interactive_blocks_rendered. apply reference_round_trip. Qed.

(** * The claims *)

(** ** The commitment classifier *)


(** ** The extraction pass *)


(** C9.  Extraction always returns a pair (see [extract_total]), but a line
    that does not have the form [[timestamp] (speaker) text] is not always
    skipped: [\s*] and the negated class run over line breaks, so the two
    lines of [broken_lines_file], neither of which is a record on its own,
    are read as one record and give an item. *)
Theorem lines_merge_across_line_break :
  parse_lines "[a] (me)" = Ok []
  /\ parse_lines "I'll send the report by Friday" = Ok []
  /\ extract_action_items_from_file "notes" broken_lines_file
     = Ok ("notes", ["(me) I'll send the report by Friday"]).
Proof. repeat split; vm_compute; reflexivity. Qed.

(** The three empty outcomes of extraction: no transcript section, the
    sentinel of a transcript that was not retained, and no parsed line. *)
Lemma extract_empty_cases (stem content : string) :
  (re_search DOTALL TRANSCRIPT_RE content = None ->
   exists title, extract_action_items_from_file stem content = Ok (title, []))
  /\ (forall m g,
         re_search DOTALL TRANSCRIPT_RE content = Some m ->
         group content m 1 = Some g ->
         startswith "Transcript not available" (py_strip g) = true
         \/ parse_lines (py_strip g) = Ok [] ->
         exists title, extract_action_items_from_file stem content = Ok (title, [])).
Proof.
  unfold extract_action_items_from_file.
  destruct (title_of_ok stem content) as [t ->]. cbn [bind]. split.
  - intros ->. eauto.
  - intros m g -> ->. cbn [bind attr_of]. intros [->| ->]; [eauto|].
    destruct (startswith _ _); cbn [bind]; eauto.
Qed.

(** ** The attribution partition *)

(** C8.  Each meeting contributes to the owner list its owner items, in
    their order, when it has one, and to the other list its other items, in
    their order, when it has one.  An item that carries the tag of its
    speaker, as every item of the extraction does, is an owner item exactly
    when it starts with [(me) ] or holds [katie] as a whole word in any
    case.  The code tests the prefix [(me)]; on such items the blank
    follows. *)
Theorem split_katie_items_partition :
  (forall ms,
      split_katie_items ms = (omap (part is_katie) ms, omap (part not_katie) ms))
  /\ (forall item who text,
         speaker_tagged item who text ->
         (is_katie item = true <-> startswith "(me) " item = true \/ whole_word_katie item))
  /\ (forall item,
         is_katie item = true <-> startswith "(me)" item = true \/ whole_word_katie item)
  /\ is_katie "katiesburg" = false
  /\ is_katie "(them) ask Katie" = true.
Proof.
  split; [|split; [|split; [|split]]].
  - intros ms. unfold split_katie_items. now rewrite split_meetings_spec.
  - intros item who text H. rewrite <- (me_tag_blank item who text H). apply is_katie_spec.
  - exact is_katie_spec.
  - vm_compute. reflexivity.
  - vm_compute. reflexivity.
Qed.

(** ** The checklist reducer *)

(** C2 fails on the code.  For a checklist whose option value is a plain
    text, the reduction raises [json.JSONDecodeError] when the option is
    not checked: the first pass over the options falls back to the literal
    value, the list comprehension after it decodes the value again without
    a handler.  When the option is checked the first pass removes it and
    the reduction completes.  A checked value that decodes to something
    other than an object raises [TypeError]. *)
Theorem legacy_option_value_raises :
  @rebuild_blocks_after_check reference "November 04, 2026" legacy_blocks []
  = Raise JSONDecodeError
  /\ @rebuild_blocks_after_check reference "November 04, 2026" legacy_blocks ["legacy"]
     = Ok (build_all_done_blocks "November 04, 2026")
  /\ @rebuild_blocks_after_check reference "November 04, 2026" example_blocks ["123"]
     = Raise TypeError.
Proof. repeat split; vm_compute; reflexivity. Qed.

Section Reductions.
Context {lib : JsonLib}.

(** C3, as the code has it.  The result of a reduction depends on the two
    arguments and on the current date, and on the date only when no group
    keeps an option: two reductions of the same blocks with the same set of
    checked values, iterated in any order, raise the same exception, or
    return the same blocks, or return the all-done block each with its own
    date. *)
Theorem reducer_deterministic_up_to_date (today1 today2 : string) (B : list pyval)
  (S S' : list string) :
  same_elements S S' = true ->
  (exists e,
      rebuild_blocks_after_check today1 B S = Raise e
      /\ rebuild_blocks_after_check today2 B S' = Raise e)
  \/ (exists blocks,
         rebuild_blocks_after_check today1 B S = Ok blocks
         /\ rebuild_blocks_after_check today2 B S' = Ok blocks)
  \/ (rebuild_blocks_after_check today1 B S = Ok (build_all_done_blocks today1)
      /\ rebuild_blocks_after_check today2 B S' = Ok (build_all_done_blocks today2)).
Proof.
  intros H. pose proof (same_elements_spec _ _ H) as E.
  rewrite !rebuild_unfold, <- (checked_ok_same _ _ E), <- (checked_keys_same _ _ E).
  destruct (checked_ok S); [|left; eauto].
  destruct (walk_blocks B _) as [st|e]; [|left; eauto].
  destruct (any_items_remaining st); right; [left; eauto | right; eauto].
Qed.


(** C5.  Reducing a rendered checklist with an empty checked set removes
    nothing: the result has the groups of [B], with their titles and
    options; every title block and every option of [B] is in the result. *)
Theorem reduce_empty_keeps_content (today : string) (B : list pyval) :
  rendered B = true ->
  exists B',
    rebuild_blocks_after_check today B [] = Ok B'
    /\ groups_of B' = groups_of B
    /\ (forall b, b ∈ B -> title_like b = true -> b ∈ B')
    /\ (forall o, o ∈ all_options B -> o ∈ all_options B').
Proof.
  unfold rendered. intros H. apply andb_prop in H as [H Hd]. apply andb_prop in H as [Hc Hf].
  destruct (rebuild_spec today B [] Hc eq_refl) as (B' & R & _ & G).
  assert (G' : groups_of B' = groups_of B).
  { rewrite G. change (checked_keys []) with (∅ : gset hkey). now apply survivors_fresh. }
  exists B'. split; [exact R|]. split; [exact G'|]. split.
  - intros b Hb Ht. destruct (titles_grouped B b Hd Hb Ht) as (g & Hg & <-).
    apply groups_title_in. now rewrite G'.
  - intros o Ho. unfold all_options in *. now rewrite G'.
Qed.

(** C10.  Options are matched to checked values by their decoded text
    alone: the groups left by a reduction are the survivors of the groups
    of [B], which are computed from the texts that the checked values
    decode to and from nothing else of them, so an option is removed or
    kept whatever the indices in its value; no option left has a text that
    a checked value decodes to; two checked sets that decode to the same texts give the
    same result, whatever the indices in their values; and when two options
    carry the same text and the value of one of them is checked, neither is
    left. *)
Theorem removal_by_text_only (today : string) (B : list pyval) (S : list string) :
  checklist B = true ->
  checked_ok S = true ->
  exists B',
    rebuild_blocks_after_check today B S = Ok B'
    /\ groups_of B' = survivors (checked_keys S) (groups_of B)
    /\ (forall o k, o ∈ all_options B' -> option_key o = Some k -> k ∉ checked_keys S)
    /\ (forall S', checked_ok S' = true -> checked_keys S' = checked_keys S ->
                   rebuild_blocks_after_check today B S' = Ok B')
    /\ (forall o1 o2 v,
           o1 ∈ all_options B -> o2 ∈ all_options B ->
           option_key o1 = option_key o2 ->
           field o1 "value" = Some (PStr v) -> v ∈ S ->
           (o1 ∉ all_options B') /\ (o2 ∉ all_options B')).
Proof.
  intros HB HS.
  destruct (rebuild_spec today B S HB HS) as (B' & R & C' & G).
  assert (Out : forall o k, o ∈ all_options B' -> option_key o = Some k -> k ∉ checked_keys S).
  { intros o k Ho Hk. apply all_options_elem in Ho as (g' & Hg' & Ho).
    rewrite G in Hg'. apply survivors_shrinks in Hg' as (g & _ & _ & _ & Hout).
    now destruct (Hout o k Ho Hk). }
  exists B'. split; [exact R|]. split; [exact G|]. split; [exact Out|]. split.
  - intros S' HS' E. rewrite rebuild_unfold, HS', E.
    rewrite rebuild_unfold, HS in R. exact R.
  - intros o1 o2 v H1 H2 E Hv Hin.
    assert (K : exists k, option_key o1 = Some k).
    { apply all_options_elem in H1 as (g & Hg & Ho).
      pose proof (groups_keyed B false g HB Hg) as Hk. unfold all_keyed in Hk.
      rewrite Forall_forall in Hk. exact (Hk o1 Ho). }
    destruct K as [k Hk].
    pose proof (checked_keys_elem S v k Hin (checked_key_of_value o1 v k Hv Hk)) as Hck.
    split; intros Ho.
    + exact (Out o1 k Ho Hk Hck).
    + rewrite E in Hk. exact (Out o2 k Ho Hk Hck).
Qed.

End Reductions.

(** C3 fails as stated: with nothing left to do the result carries the
    current date, so the same arguments give different blocks on different
    days. *)
Lemma reducer_reads_the_date :
  ~ (forall (today1 today2 : string) (B : list pyval) (S : list string),
        @rebuild_blocks_after_check reference today1 B S
        = @rebuild_blocks_after_check reference today2 B S).
Proof.
  intros H. specialize (H "November 04, 2026" "November 05, 2026" [] []).
  vm_compute in H. discriminate H.
Qed.

(** ** The claims at concrete inputs *)

Lemma reducer_deterministic_up_to_date_witness :
  same_elements
    [option_value 0 0 "(me) send it"; option_value 2 0 "(them) can you share the deck"]
    [option_value 2 0 "(them) can you share the deck"; option_value 0 0 "(me) send it"]
  = true
  /\ ((exists e,
          @rebuild_blocks_after_check reference "November 04, 2026" example_blocks
            [option_value 0 0 "(me) send it"; option_value 2 0 "(them) can you share the deck"]
          = Raise e
          /\ @rebuild_blocks_after_check reference "November 05, 2026" example_blocks
               [option_value 2 0 "(them) can you share the deck"; option_value 0 0 "(me) send it"]
             = Raise e)
      \/ (exists blocks,
             @rebuild_blocks_after_check reference "November 04, 2026" example_blocks
               [option_value 0 0 "(me) send it"; option_value 2 0 "(them) can you share the deck"]
             = Ok blocks
             /\ @rebuild_blocks_after_check reference "November 05, 2026" example_blocks
                  [option_value 2 0 "(them) can you share the deck"; option_value 0 0 "(me) send it"]
                = Ok blocks)
      \/ (@rebuild_blocks_after_check reference "November 04, 2026" example_blocks
            [option_value 0 0 "(me) send it"; option_value 2 0 "(them) can you share the deck"]
          = Ok (build_all_done_blocks "November 04, 2026")
          /\ @rebuild_blocks_after_check reference "November 05, 2026" example_blocks
               [option_value 2 0 "(them) can you share the deck"; option_value 0 0 "(me) send it"]
             = Ok (build_all_done_blocks "November 05, 2026"))).
Proof.
  split; [vm_compute; reflexivity|].
  apply (@reducer_deterministic_up_to_date reference). vm_compute. reflexivity.
Defined.


Lemma reduce_empty_keeps_content_witness :
  @rendered reference example_blocks = true
  /\ exists B',
       @rebuild_blocks_after_check reference "November 05, 2026" example_blocks [] = Ok B'
       /\ groups_of B' = groups_of example_blocks
       /\ (forall b, b ∈ example_blocks -> title_like b = true -> b ∈ B')
       /\ (forall o, o ∈ all_options example_blocks -> o ∈ all_options B').
Proof.
  split; [vm_compute; reflexivity|].
  apply (@reduce_empty_keeps_content reference). vm_compute. reflexivity.
Defined.

Lemma split_katie_items_partition_witness :
  speaker_tagged "(me) send the deck" "me" "send the deck"
  /\ (is_katie "(me) send the deck" = true
      <-> startswith "(me) " "(me) send the deck" = true
          \/ whole_word_katie "(me) send the deck").
Proof.
  assert (T : speaker_tagged "(me) send the deck" "me" "send the deck").
  { split; [reflexivity|]. split; [discriminate | reflexivity]. }
  split; [exact T|].
  exact (proj1 (proj2 split_katie_items_partition) _ _ _ T).
Defined.

Lemma removal_by_text_only_witness :
  @checklist reference example_blocks = true
  /\ @checked_ok reference [option_value 0 0 "(me) send it"] = true
  /\ exists B',
       @rebuild_blocks_after_check reference "November 04, 2026" example_blocks
         [option_value 0 0 "(me) send it"] = Ok B'
       /\ groups_of B'
          = @survivors reference (@checked_keys reference [option_value 0 0 "(me) send it"])
              (groups_of example_blocks)
       /\ (forall o k, o ∈ all_options B' -> @option_key reference o = Some k ->
                       k ∉ @checked_keys reference [option_value 0 0 "(me) send it"])
       /\ (forall S', @checked_ok reference S' = true ->
                      @checked_keys reference S'
                      = @checked_keys reference [option_value 0 0 "(me) send it"] ->
                      @rebuild_blocks_after_check reference "November 04, 2026"
                        example_blocks S' = Ok B')
       /\ (forall o1 o2 v,
              o1 ∈ all_options example_blocks -> o2 ∈ all_options example_blocks ->
              @option_key reference o1 = @option_key reference o2 ->
              field o1 "value" = Some (PStr v) ->
              v ∈ [option_value 0 0 "(me) send it"] ->
              (o1 ∉ all_options B') /\ (o2 ∉ all_options B')).
Proof.
  split; [vm_compute; reflexivity|]. split; [vm_compute; reflexivity|].
  apply (@removal_by_text_only reference); vm_compute; reflexivity.
Defined.

(** In [example_blocks] the item [(me) send it] appears in two groups, with
    values that differ in their indices; checking either value, or a value
    with indices of no option at all, removes both options. *)
Lemma same_text_two_groups :
  @rebuild_blocks_after_check reference "November 04, 2026" example_blocks
    [option_value 0 0 "(me) send it"]
  = @rebuild_blocks_after_check reference "November 04, 2026" example_blocks
      [option_value 1 0 "(me) send it"]
  /\ @rebuild_blocks_after_check reference "November 04, 2026" example_blocks
       [option_value 0 0 "(me) send it"]
     = @rebuild_blocks_after_check reference "November 04, 2026" example_blocks
         [option_value 7 9 "(me) send it"]
  /\ match @rebuild_blocks_after_check reference "November 04, 2026" example_blocks
             [option_value 0 0 "(me) send it"] with
     | Ok B' => map g_title (groups_of B')
                = [PDict [("type", PStr "section"); ("block_id", PStr "meeting_title_2");
                          ("text", PDict [("type", PStr "mrkdwn"); ("text", PStr "*Sync*")])];
                   PDict [("type", PStr "section"); ("block_id", PStr "meeting_title_3");
                          ("text", PDict [("type", PStr "mrkdwn"); ("text", PStr "*Plan*")])]]
     | Raise _ => False
     end.
Proof. repeat split; vm_compute; reflexivity. Qed.

(** * The rest of the code: lemmas *)

Import Vault.

(** ** Slugs *)

Lemma all_chars_filter (f g : ascii -> bool) (s : string) :
  (forall c, f c = true -> g c = true) -> all_chars g (py_filter f s) = true.
Proof.
  intros H. induction s as [|c s IH]; [reflexivity|]. cbn [py_filter].
  destruct (f c) eqn:E; [|exact IH]. cbn [all_chars]. now rewrite (H c E), IH.
Qed.

Lemma all_chars_lstrip (f g : ascii -> bool) (s : string) :
  all_chars g s = true -> all_chars g (lstrip_by f s) = true.
Proof.
  induction s as [|c s IH]; [easy|]. cbn [lstrip_by all_chars]. intros H.
  apply andb_prop in H as [H1 H2]. destruct (f c); [now apply IH|].
  cbn [all_chars]. now rewrite H1, H2.
Qed.

Lemma rstrip_cons (f : ascii -> bool) (c : ascii) (s : string) :
  rstrip_by f (String c s)
  = match rstrip_by f s with
    | EmptyString => if f c then EmptyString else String c EmptyString
    | r' => String c r'
    end.
Proof. reflexivity. Qed.

Lemma all_chars_rstrip (f g : ascii -> bool) (s : string) :
  all_chars g s = true -> all_chars g (rstrip_by f s) = true.
Proof.
  induction s as [|c s IH]; [easy|]. cbn [all_chars]. intros H.
  apply andb_prop in H as [H1 H2]. specialize (IH H2). rewrite rstrip_cons.
  destruct (rstrip_by f s) as [|d r].
  - destruct (f c); [reflexivity|]. cbn [all_chars]. now rewrite H1.
  - cbn [all_chars] in *. now rewrite H1, IH.
Qed.

Lemma all_chars_take (g : ascii -> bool) (n : nat) (s : string) :
  all_chars g s = true -> all_chars g (py_take n s) = true.
Proof.
  revert s; induction n as [|n IH]; intros [|c s] H; try reflexivity.
  cbn [py_take all_chars] in *. apply andb_prop in H as [H1 H2]. now rewrite H1, (IH s H2).
Qed.

Lemma all_chars_sub_runs (f g h : ascii -> bool) (rep : ascii) (b : bool) (s : string) :
  all_chars g s = true -> h rep = true ->
  (forall c, g c = true -> f c = false -> h c = true) ->
  all_chars h (sub_runs f rep b s) = true.
Proof.
  intros Hs Hrep Hc. revert b. induction s as [|c s IH]; intros b; [reflexivity|].
  cbn [all_chars] in Hs. apply andb_prop in Hs as [H1 H2]. specialize (IH H2).
  cbn [sub_runs]. destruct (f c) eqn:E.
  - destruct b; [apply IH|]. cbn [all_chars]. now rewrite Hrep, IH.
  - cbn [all_chars]. now rewrite (Hc c H1 E), IH.
Qed.

Lemma no_dash_run_cons (c : ascii) (s : string) :
  no_dash_run (String c s) = negb (is_dash c && starts_dash s) && no_dash_run s.
Proof. destruct s as [|b s]; simpl; [now rewrite andb_false_r | reflexivity]. Qed.

Lemma sub_runs_dash_shape (b : bool) (s : string) :
  no_dash_run (sub_runs is_dash "-" b s) = true
  /\ (b = true -> starts_dash (sub_runs is_dash "-" b s) = false).
Proof.
  revert b; induction s as [|c s IH]; intros b; [easy|]. cbn [sub_runs].
  destruct (is_dash c) eqn:Hc.
  - destruct b; [apply IH|]. destruct (IH true) as [H1 H2]. split; [|easy].
    rewrite no_dash_run_cons, H1, (H2 eq_refl). now rewrite andb_false_r.
  - destruct (IH false) as [H1 _]. split; [|intros _; exact Hc].
    rewrite no_dash_run_cons, H1, Hc. reflexivity.
Qed.

Lemma no_dash_run_tail (c : ascii) (s : string) :
  no_dash_run (String c s) = true -> no_dash_run s = true.
Proof. rewrite no_dash_run_cons. intros H. apply andb_prop in H. tauto. Qed.

Lemma no_dash_run_take (n : nat) (s : string) :
  no_dash_run s = true -> no_dash_run (py_take n s) = true.
Proof.
  revert s; induction n as [|n IH]; intros [|c s] H; try reflexivity.
  pose proof (no_dash_run_tail _ _ H) as Ht.
  rewrite no_dash_run_cons in H. apply andb_prop in H as [H _].
  cbn [py_take]. rewrite no_dash_run_cons, (IH s Ht), andb_true_r.
  destruct (is_dash c); [|reflexivity]. cbn [andb negb] in *.
  apply negb_true_iff in H. apply negb_true_iff.
  destruct n, s; simpl in *; congruence.
Qed.

Lemma starts_dash_rstrip (f : ascii -> bool) (s : string) :
  starts_dash (rstrip_by f s) = true -> starts_dash s = true.
Proof.
  destruct s as [|c s]; [easy|]. rewrite rstrip_cons.
  destruct (rstrip_by f s); [destruct (f c)|]; simpl; easy.
Qed.

Lemma no_dash_run_rstrip (f : ascii -> bool) (s : string) :
  no_dash_run s = true -> no_dash_run (rstrip_by f s) = true.
Proof.
  induction s as [|c s IH]; [easy|]. intros H.
  pose proof (no_dash_run_tail _ _ H) as Ht. specialize (IH Ht).
  rewrite no_dash_run_cons in H. apply andb_prop in H as [H _].
  rewrite rstrip_cons. destruct (rstrip_by f s) as [|d r] eqn:E.
  - destruct (f c); reflexivity.
  - rewrite no_dash_run_cons, IH, andb_true_r.
    destruct (is_dash c) eqn:Hc; [|reflexivity].
    cbn [andb negb] in H. apply negb_true_iff in H.
    destruct (starts_dash (String d r)) eqn:Hd; [|reflexivity].
    rewrite <- E in Hd. apply starts_dash_rstrip in Hd. congruence.
Qed.

Lemma last_chr_some (p : option ascii) (c : ascii) (s : string) :
  last_chr p (String c s) = last_chr None (String c s).
Proof. reflexivity. Qed.

Lemma rstrip_last (f : ascii -> bool) (s : string) (c : ascii) :
  last_chr None (rstrip_by f s) = Some c -> f c = false.
Proof.
  induction s as [|x s IH]; [discriminate|]. rewrite rstrip_cons.
  destruct (rstrip_by f s) as [|d r].
  - destruct (f x) eqn:E; [discriminate|]. cbn. intros H. now injection H as <-.
  - exact IH.
Qed.

Lemma py_take_all (n : nat) (s : string) : String.length s <= n -> py_take n s = s.
Proof.
  revert s; induction n as [|n IH]; intros [|c s] H; try reflexivity; cbn in H; [lia|].
  cbn [py_take]. rewrite IH; [reflexivity | lia].
Qed.

Lemma rstrip_length (f : ascii -> bool) (s : string) :
  String.length (rstrip_by f s) <= String.length s.
Proof.
  induction s as [|c s IH]; [reflexivity|]. rewrite rstrip_cons.
  destruct (rstrip_by f s) as [|d r]; [destruct (f c)|]; cbn in *; lia.
Qed.

Lemma slug_char_facts (c : ascii) :
  slug_char c = true ->
  lower_char c = c /\ slug_keeps c = true /\ is_space c = false.
Proof. destruct c as [[] [] [] [] [] [] [] []]; intros H; try discriminate H; repeat split. Qed.

Lemma slug_keeps_facts (c : ascii) :
  slug_keeps c = true -> is_space c = false -> slug_char c = true.
Proof.
  destruct c as [[] [] [] [] [] [] [] []]; intros H1 H2; try discriminate H1; try discriminate H2;
    reflexivity.
Qed.

Lemma lower_id (s : string) : all_chars slug_char s = true -> py_lower s = s.
Proof.
  induction s as [|c s IH]; [easy|]. cbn [all_chars py_lower]. intros H.
  apply andb_prop in H as [H1 H2]. rewrite (IH H2).
  now destruct (slug_char_facts c H1) as (-> & _).
Qed.

Lemma filter_id (f : ascii -> bool) (s : string) : all_chars f s = true -> py_filter f s = s.
Proof.
  induction s as [|c s IH]; [easy|]. cbn [all_chars py_filter]. intros H.
  apply andb_prop in H as [H1 H2]. now rewrite H1, (IH H2).
Qed.

Lemma all_chars_weaken (f g : ascii -> bool) (s : string) :
  (forall c, f c = true -> g c = true) -> all_chars f s = true -> all_chars g s = true.
Proof.
  intros H. induction s as [|c s IH]; [easy|]. cbn [all_chars]. intros Hs.
  apply andb_prop in Hs as [H1 H2]. now rewrite (H c H1), (IH H2).
Qed.

Lemma lstrip_id (f : ascii -> bool) (s : string) :
  all_chars (fun c => negb (f c)) s = true -> lstrip_by f s = s.
Proof.
  destruct s as [|c s]; [easy|]. cbn [all_chars lstrip_by]. intros H.
  apply andb_prop in H as [H1 _]. apply negb_true_iff in H1. now rewrite H1.
Qed.

Lemma rstrip_id (f : ascii -> bool) (s : string) :
  (forall c, last_chr None s = Some c -> f c = false) -> rstrip_by f s = s.
Proof.
  induction s as [|c s IH]; [easy|]. intros H. rewrite rstrip_cons.
  destruct s as [|d s].
  - cbn. now rewrite (H c eq_refl).
  - rewrite IH; [reflexivity|]. intros x Hx. apply H. exact Hx.
Qed.

Lemma sub_runs_none (f : ascii -> bool) (rep : ascii) (b : bool) (s : string) :
  all_chars (fun c => negb (f c)) s = true -> sub_runs f rep b s = s.
Proof.
  revert b. induction s as [|c s IH]; intros b; [easy|]. cbn [all_chars sub_runs]. intros H.
  apply andb_prop in H as [H1 H2]. apply negb_true_iff in H1. rewrite H1. now rewrite IH.
Qed.

Lemma sub_runs_dash_id (s : string) :
  no_dash_run s = true -> sub_runs is_dash "-" false s = s.
Proof.
  induction s as [|c s IH]; [easy|]. intros H.
  pose proof (no_dash_run_tail _ _ H) as Ht.
  rewrite no_dash_run_cons in H. apply andb_prop in H as [H _].
  cbn [sub_runs]. destruct (is_dash c) eqn:Hc.
  - cbn [andb negb] in H. apply negb_true_iff in H.
    assert (Hc' : c = "-"%char) by (now apply Ascii.eqb_eq). subst c. f_equal.
    destruct s as [|d s]; [reflexivity|]. cbn [starts_dash] in H.
    cbn [sub_runs]. rewrite H. f_equal.
    specialize (IH Ht). cbn [sub_runs] in IH. rewrite H in IH. now injection IH.
  - f_equal. exact (IH Ht).
Qed.

Lemma all_chars_last (g : ascii -> bool) (s : string) :
  forall (p : option ascii) (c : ascii),
    (forall x, p = Some x -> g x = true) ->
    all_chars g s = true -> last_chr p s = Some c -> g c = true.
Proof.
  induction s as [|d s IH]; intros p c Hp Hs Hc; cbn [last_chr all_chars] in *.
  - now apply Hp.
  - apply andb_prop in Hs as [H1 H2]. apply (IH (Some d) c); [|exact H2 | exact Hc].
    intros x Hx. now injection Hx as <-.
Qed.

Lemma slugify_slug (text : string) (max_len : nat) : slug max_len (slugify text max_len).
Proof.
  unfold slugify.
  set (t1 := py_filter slug_keeps (py_lower text)).
  assert (A1 : all_chars slug_keeps (py_strip t1) = true).
  { unfold py_strip. apply all_chars_rstrip, all_chars_lstrip, all_chars_filter. auto. }
  set (t2 := sub_runs is_space "-" false (py_strip t1)).
  assert (A2 : all_chars slug_char t2 = true).
  { apply (all_chars_sub_runs is_space slug_keeps); [exact A1 | reflexivity|].
    exact slug_keeps_facts. }
  set (t3 := sub_runs is_dash "-" false t2).
  assert (A3 : all_chars slug_char t3 = true).
  { apply (all_chars_sub_runs is_dash slug_char); [exact A2 | reflexivity | auto]. }
  assert (D3 : no_dash_run t3 = true) by apply sub_runs_dash_shape.
  repeat split.
  - apply all_chars_rstrip, all_chars_take, A3.
  - apply no_dash_run_rstrip, no_dash_run_take, D3.
  - intros E. apply rstrip_last in E. discriminate E.
  - pose proof (rstrip_length is_dash (py_take max_len t3)).
    pose proof (py_take_length max_len t3). lia.
Qed.

Lemma slug_fixed (s : string) (n m : nat) : slug n s -> n <= m -> slugify s m = s.
Proof.
  intros (A & D & L & Hn) Hm. unfold slugify.
  assert (Hk : all_chars slug_keeps s = true).
  { eapply all_chars_weaken, A. intros c Hc. now destruct (slug_char_facts c Hc) as (_ & ? & _). }
  assert (Hs : all_chars (fun c => negb (is_space c)) s = true).
  { eapply all_chars_weaken, A. intros c Hc. destruct (slug_char_facts c Hc) as (_ & _ & E).
    now rewrite E. }
  rewrite (lower_id s A), (filter_id _ s Hk).
  assert (St : py_strip s = s).
  { unfold py_strip. rewrite (lstrip_id _ s Hs). apply rstrip_id. intros c Hc.
    apply (all_chars_last _ s None c) in Hs; [|discriminate | exact Hc].
    now apply negb_true_iff in Hs. }
  rewrite St, (sub_runs_none _ _ _ s Hs), (sub_runs_dash_id s D).
  rewrite py_take_all by lia. apply rstrip_id. intros c Hc.
  destruct (is_dash c) eqn:E; [|reflexivity]. apply Ascii.eqb_eq in E. subst c. contradiction.
Qed.
(** ** What a match covers *)

Lemma adv_refl (p : pos) : adv p EmptyString p.
Proof. unfold adv. cbn. repeat split. lia. Qed.

Lemma last_chr_app (w1 w2 : string) : forall prev,
  last_chr prev (w1 ++ w2) = last_chr (last_chr prev w1) w2.
Proof. induction w1 as [|c w1 IH]; intros prev; [reflexivity|]. rewrite str_app_cons. cbn. apply IH. Qed.

Lemma adv_trans (p q r : pos) (w1 w2 : string) :
  adv p w1 q -> adv q w2 r -> adv p (w1 ++ w2) r.
Proof.
  intros (A1 & A2 & A3) (B1 & B2 & B3). unfold adv.
  rewrite A1, B1, B2, A2, B3, A3, str_length_app, str_app_assoc, last_chr_app.
  repeat split. lia.
Qed.

Lemma adv_step (i : nat) (prev : option ascii) (c : ascii) (rest : string) (cs cs' : caps)
    (w : string) (q : pos) :
  adv (Pos (S i) (Some c) rest cs) w q -> adv (Pos i prev (String c rest) cs') (String c w) q.
Proof.
  intros (A1 & A2 & A3). cbn in *. unfold adv. cbn. rewrite A1, A2, A3. repeat split. lia.
Qed.

Section EngineSound.
Context (fl : flags).

Lemma greedy_sound {A : Type} (cl : cclass) (k : pos -> option A) (cs : caps) (rest : string) :
  forall i prev x,
    greedy fl cl k cs i prev rest = Some x ->
    exists q, run fl cl (Pos i prev rest cs) q /\ k q = Some x.
Proof.
  induction rest as [|c r IH]; intros i prev x; cbn [greedy].
  - intros H. eexists; split; [|exact H]. exists EmptyString. split; [reflexivity|].
    split; [apply adv_refl | reflexivity].
  - assert (Stop : k (Pos i prev (String c r) cs) = Some x ->
                   exists q, run fl cl (Pos i prev (String c r) cs) q /\ k q = Some x).
    { intros H. eexists; split; [|exact H]. exists EmptyString. split; [reflexivity|].
      split; [apply adv_refl | reflexivity]. }
    destruct (cmatch fl cl c) eqn:Hc; [|exact Stop].
    destruct (greedy fl cl k cs (S i) (Some c) r) eqn:E; [|exact Stop].
    intros [= <-]. apply IH in E as (q & (w & W1 & W2 & W3) & Hk).
    exists q. split; [|exact Hk]. exists (String c w). cbn [all_chars]. rewrite Hc, W1.
    split; [reflexivity|]. split; [eapply adv_step, W2 | exact W3].
Qed.

Lemma lazy_sound {A : Type} (cl : cclass) (k : pos -> option A) (cs : caps) (rest : string) :
  forall i prev x,
    lazy fl cl k cs i prev rest = Some x ->
    exists q, run fl cl (Pos i prev rest cs) q /\ k q = Some x.
Proof.
  induction rest as [|c r IH]; intros i prev x; cbn [lazy].
  - destruct (k _) eqn:E; [|discriminate]. intros [= <-].
    eexists; split; [|exact E]. exists EmptyString. split; [reflexivity|].
    split; [apply adv_refl | reflexivity].
  - destruct (k _) eqn:E.
    + intros [= <-]. eexists; split; [|exact E]. exists EmptyString. split; [reflexivity|].
      split; [apply adv_refl | reflexivity].
    + destruct (cmatch fl cl c) eqn:Hc; [|discriminate]. intros H.
      apply IH in H as (q & (w & W1 & W2 & W3) & Hk).
      exists q. split; [|exact Hk]. exists (String c w). cbn [all_chars]. rewrite Hc, W1.
      split; [reflexivity|]. split; [eapply adv_step, W2 | exact W3].
Qed.

Lemma pos_eta (p : pos) : Pos (at_idx p) (at_prev p) (at_rest p) (at_caps p) = p.
Proof. destruct p; reflexivity. Qed.

(** Whatever the matcher returns, it returns at the end of a span. *)
Lemma rmatch_sound (r : regex) :
  forall (A : Type) (k : pos -> option A) (p : pos) (x : A),
    rmatch fl A r k p = Some x -> exists q, spans fl r p q /\ k q = Some x.
Proof.
  induction r as [| |cl|s|r1 IH1 r2 IH2|r1 IH1 r2 IH2|r1 IH1|cl|cl|cl| | | | |r1 IH1|m r1 IH1];
    intros A k p x; cbn [rmatch spans].
  - discriminate.
  - intros H. exists p. split; [reflexivity | exact H].
  - destruct (at_rest p) as [|c rest] eqn:Er; [discriminate|].
    destruct (cmatch fl cl c) eqn:Hc; [|discriminate].
    intros H. eexists; split; [|exact H]. exists c. split; [exact Hc|].
    unfold adv. cbn. rewrite Er. repeat split. lia.
  - destruct (lit_from _ _ _ _ _) as [[[i prev] rest]|] eqn:E; [|discriminate].
    intros H. eexists; split; [|exact H]. cbn. split; reflexivity.
  - intros H. apply IH1 in H as (q1 & S1 & H). apply IH2 in H as (q & S2 & H).
    exists q. split; [exists q1; split; assumption | exact H].
  - destruct (rmatch fl A r1 k p) eqn:E.
    + intros [= <-]. apply IH1 in E as (q & S1 & H). exists q. split; [left; exact S1 | exact H].
    + intros H. apply IH2 in H as (q & S2 & H). exists q. split; [right; exact S2 | exact H].
  - destruct (rmatch fl A r1 k p) eqn:E.
    + intros [= <-]. apply IH1 in E as (q & S1 & H). exists q. split; [left; exact S1 | exact H].
    + intros H. exists p. split; [right; reflexivity | exact H].
  - intros H. apply greedy_sound in H as (q & R & H). rewrite pos_eta in R. eauto.
  - destruct (at_rest p) as [|c rest] eqn:Er; [discriminate|].
    destruct (cmatch fl cl c) eqn:Hc; [|discriminate].
    intros H. apply greedy_sound in H as (q & (w & W1 & W2 & W3) & H).
    exists q. split; [|exact H]. split.
    + exists (String c w). cbn [all_chars]. rewrite Hc, W1. split; [reflexivity|].
      split; [|exact W3]. rewrite <- (pos_eta p), Er. eapply adv_step, W2.
    + destruct W2 as (_ & W2 & _). cbn in W2. lia.
  - intros H. apply lazy_sound in H as (q & R & H). rewrite pos_eta in R. eauto.
  - destruct (at_bol fl p) eqn:E; [|discriminate]. intros H. exists p. auto.
  - destruct (at_eol fl p) eqn:E; [|discriminate]. intros H. exists p. auto.
  - destruct (at_end p) eqn:E; [|discriminate]. intros H. exists p. auto.
  - destruct (at_wordb p) eqn:E; [|discriminate]. intros H. exists p. auto.
  - destruct (rmatch fl unit r1 _ p) eqn:E; [|discriminate].
    intros H. exists p. split; [|exact H]. split; [|reflexivity].
    apply IH1 in E as (q' & S1 & _). eauto.
  - intros H. apply IH1 in H as (q' & S1 & H). eexists; split; [|exact H]. eauto.
Qed.

Lemma match_at_sound (r : regex) (i : nat) (prev : option ascii) (rest : string) (m : mobj) :
  match_at fl r i prev rest = Some m ->
  exists q, spans fl r (Pos i prev rest []) q /\ m = MObj i (at_idx q) (at_caps q).
Proof.
  unfold match_at. intros H. apply rmatch_sound in H as (q & S & H).
  exists q. split; [exact S|]. unfold accept in H. now injection H.
Qed.

End EngineSound.

Lemma py_drop_add (a b : nat) (s : string) : py_drop (a + b) s = py_drop b (py_drop a s).
Proof.
  revert s. induction a as [|a IH]; intros s; [reflexivity|].
  destruct s as [|c s]; cbn [Nat.add py_drop]; [destruct b; reflexivity | apply IH].
Qed.

Lemma py_drop_S (i : nat) (s : string) (c : ascii) (r : string) :
  py_drop i s = String c r -> py_drop (S i) s = r.
Proof.
  intros H. replace (S i) with (i + 1) by lia. rewrite py_drop_add, H. reflexivity.
Qed.

Lemma adv_subject (s : string) (p q : pos) (w : string) :
  adv p w q -> in_subject s p ->
  in_subject s q /\ py_slice (at_idx p) (at_idx q) s = w.
Proof.
  unfold in_subject, py_slice. intros (A1 & A2 & A3) H. rewrite A2. split.
  - rewrite py_drop_add, <- H, A1. symmetry. apply drop_app_exact.
  - replace (at_idx p + String.length w - at_idx p) with (String.length w) by lia.
    rewrite <- H, A1. apply take_app_exact.
Qed.

Lemma lit_from_adv (fl : flags) (s : string) :
  forall i prev rest j prev' rest',
    lit_from fl s i prev rest = Some (j, prev', rest') ->
    exists w, rest = w ++ rest' /\ j = i + String.length w /\ prev' = last_chr prev w.
Proof.
  induction s as [|a s IH]; intros i prev rest j prev' rest'; cbn [lit_from].
  - intros [= <- <- <-]. exists EmptyString. cbn. repeat split. lia.
  - destruct rest as [|c r]; [discriminate|]. destruct (chr_eq fl a c); [|discriminate].
    intros H. apply IH in H as (w & -> & -> & ->). exists (String c w). cbn. repeat split. lia.
Qed.

Lemma spans_adv (fl : flags) (r : regex) :
  forall p q, spans fl r p q -> exists w, adv p w q.
Proof.
  induction r as [| |cl|s|r1 IH1 r2 IH2|r1 IH1 r2 IH2|r1 IH1|cl|cl|cl| | | | |r1 IH1|m r1 IH1];
    intros p q; cbn [spans].
  - easy.
  - intros ->. eexists. apply adv_refl.
  - intros (c & _ & H & _). eauto.
  - intros (H & _). apply lit_from_adv in H as (w & H1 & H2 & H3). exists w. now repeat split.
  - intros (m & H1 & H2). apply IH1 in H1 as (w1 & H1). apply IH2 in H2 as (w2 & H2).
    eexists. eapply adv_trans; eauto.
  - intros [H|H]; eauto.
  - intros [H| ->]; [eauto | eexists; apply adv_refl].
  - intros (w & _ & H & _). eauto.
  - intros ((w & _ & H & _) & _). eauto.
  - intros (w & _ & H & _). eauto.
  - intros (_ & ->). eexists. apply adv_refl.
  - intros (_ & ->). eexists. apply adv_refl.
  - intros (_ & ->). eexists. apply adv_refl.
  - intros (_ & ->). eexists. apply adv_refl.
  - intros (_ & ->). eexists. apply adv_refl.
  - intros (q' & H & ->). apply IH1 in H as (w & H). exists w. exact H.
Qed.

Lemma finditer_from_sound (fl : flags) (r : regex) (s : string) (rest : string) :
  forall skip i prev,
    rest = py_drop i s ->
    Forall (fun m => exists p q,
                in_subject s p /\ at_caps p = [] /\ spans fl r p q
                /\ m = MObj (at_idx p) (at_idx q) (at_caps q))
      (finditer_from fl r skip i prev rest).
Proof.
  induction rest as [|c rest IH]; intros skip i prev Hs; cbn [finditer_from].
  - destruct skip; [|constructor].
    destruct (match_at fl r i prev "") eqn:E; constructor; [|constructor].
    apply match_at_sound in E as (q & S & ->). exists (Pos i prev "" []), q.
    split; [exact Hs|]. split; [reflexivity|]. split; [exact S | reflexivity].
  - pose proof (py_drop_S _ _ _ _ (eq_sym Hs)) as Hn.
    destruct skip; [|apply IH; now rewrite Hn].
    destruct (match_at fl r i prev (String c rest)) eqn:E.
    + constructor; [|apply IH; now rewrite Hn].
      apply match_at_sound in E as (q & S & ->). exists (Pos i prev (String c rest) []), q.
    split; [exact Hs|]. split; [reflexivity|]. split; [exact S | reflexivity].
    + apply IH. now rewrite Hn.
Qed.

(** *** The line pattern *)

Lemma run_subject (fl : flags) (cl : cclass) (s : string) (p q : pos) :
  run fl cl p q -> in_subject s p ->
  in_subject s q /\ at_caps q = at_caps p
  /\ all_chars (cmatch fl cl) (py_slice (at_idx p) (at_idx q) s) = true.
Proof.
  intros (w & W1 & W2 & W3) H. destruct (adv_subject s p q w W2 H) as [H1 H2].
  rewrite H2. auto.
Qed.

Lemma cls_subject (fl : flags) (cl : cclass) (s : string) (p q : pos) :
  spans fl (Cls cl) p q -> in_subject s p -> in_subject s q /\ at_caps q = at_caps p.
Proof.
  intros (c & _ & A & C) H. destruct (adv_subject s p q _ A H) as [H1 _]. auto.
Qed.

Lemma slice_nonempty (s : string) (p q : pos) (w : string) :
  adv p w q -> at_idx p < at_idx q -> w <> EmptyString.
Proof. intros (_ & A & _) H ->. cbn in A. lia. Qed.

Lemma grp_plus_subject (fl : flags) (n : nat) (cl : cclass) (s : string) (p q : pos) :
  spans fl (Grp n (Plus cl)) p q -> in_subject s p ->
  exists g,
    in_subject s q /\ at_caps q = (n, (at_idx p, at_idx q)) :: at_caps p
    /\ py_slice (at_idx p) (at_idx q) s = g
    /\ g <> EmptyString /\ all_chars (cmatch fl cl) g = true.
Proof.
  cbn [spans]. intros (q' & ((w & W1 & W2 & W3) & Hlt) & ->) H.
  destruct (adv_subject s p q' w W2 H) as [H1 H2].
  exists w. cbn. rewrite W3. repeat split; try assumption.
  eapply slice_nonempty; eauto.
Qed.

Lemma line_re_shape (s : string) (p q : pos) :
  spans MULTILINE LINE_RE p q -> in_subject s p -> at_caps p = [] ->
  exists i1 j1 i2 j2 i3 j3,
    at_caps q = [(3, (i3, j3)); (2, (i2, j2)); (1, (i1, j1))]
    /\ py_slice i1 j1 s <> EmptyString
    /\ all_chars (not_chr "]") (py_slice i1 j1 s) = true
    /\ word (py_slice i2 j2 s)
    /\ py_slice i3 j3 s <> EmptyString
    /\ all_chars (not_chr NL) (py_slice i3 j3 s) = true.
Proof.
  unfold LINE_RE.
  cbn [seq]. cbn [spans].
  intros (p1 & (_ & ->) & p2 & B1 & p3 & G1 & p4 & B2 & p5 & W1 & p6 & B3 & p7 & G2 & p8 & B4
          & p9 & W2 & p10 & G3 & (_ & ->)) Hs Hc.
  apply (cls_subject _ _ s) in B1 as [S2 C2]; [|exact Hs].
  apply (grp_plus_subject _ _ _ s) in G1 as (g1 & S3 & C3 & E1 & N1 & A1); [|exact S2].
  apply (cls_subject _ _ s) in B2 as [S4 C4]; [|exact S3].
  apply (run_subject _ _ s) in W1 as (S5 & C5 & _); [|exact S4].
  apply (cls_subject _ _ s) in B3 as [S6 C6]; [|exact S5].
  apply (grp_plus_subject _ _ _ s) in G2 as (g2 & S7 & C7 & E2 & N2 & A2); [|exact S6].
  apply (cls_subject _ _ s) in B4 as [S8 C8]; [|exact S7].
  apply (run_subject _ _ s) in W2 as (S9 & C9 & _); [|exact S8].
  apply (grp_plus_subject _ _ _ s) in G3 as (g3 & S10 & C10 & E3 & N3 & A3); [|exact S9].
  exists (at_idx p2), (at_idx p3), (at_idx p6), (at_idx p7), (at_idx p9), (at_idx p10).
  rewrite C10, C9, C8, C7, C6, C5, C4, C3, C2, Hc, E1, E2, E3.
  split; [reflexivity|]. split; [exact N1|]. split.
  { erewrite all_chars_ext; [exact A1|]. intros c. unfold not_chr. cbn.
    now rewrite orb_false_r, Ascii.eqb_sym. }
  split; [split; [exact N2|]|].
  { erewrite all_chars_ext; [exact A2|]. reflexivity. }
  split; [exact N3|].
  erewrite all_chars_ext; [exact A3|]. reflexivity.
Qed.

Lemma collect_Forall {A B : Type} (f : A -> result B) (P : A -> Prop) (Q : B -> Prop)
    (l : list A) (bs : list B) :
  (forall a b, P a -> f a = Ok b -> Q b) ->
  Forall P l -> collect f l = Ok bs -> Forall Q bs.
Proof.
  intros H HP. revert bs. induction HP as [|a l Ha _ IH]; intros bs; cbn [collect].
  - intros [= <-]. constructor.
  - destruct (f a) as [b|e] eqn:E; [|discriminate]. cbn [bind].
    destruct (collect f l) as [bs'|e]; [|discriminate]. cbn [bind].
    intros [= <-]. constructor; [eapply H; eauto | now apply IH].
Qed.

(** Every line that [parse_lines] returns has the three parts of the
    pattern. *)
Lemma parse_lines_read (transcript_text : string) (lines : list line) :
  parse_lines transcript_text = Ok lines -> Forall line_read lines.
Proof.
  unfold parse_lines, re_finditer. intros H.
  refine (collect_Forall _ _ _ _ _ _
            (finditer_from_sound MULTILINE LINE_RE transcript_text _ 0 0 None eq_refl) H).
  intros m l (p & q & Hs & Hc & S & ->) Hl.
  destruct (line_re_shape _ p q S Hs Hc) as (i1 & j1 & i2 & j2 & i3 & j3 & C & N1 & A1 & W & N3 & A3).
  unfold line_of_match, group in Hl. cbn [m_caps] in Hl. rewrite C in Hl.
  cbn in Hl. injection Hl as <-.
  eexists _, _, _. cbn [ts speaker text]. repeat split; try reflexivity; try assumption.
  all: apply W.
Qed.

(** ** Classification *)

Lemma py_lower_idem (s : string) : py_lower (py_lower s) = py_lower s.
Proof. induction s as [|c s IH]; [reflexivity|]. cbn. now rewrite lower_char_idem, IH. Qed.

Lemma startswith_lowered (w : string) : forall s,
  startswith w (py_lower s) = true -> py_lower w = w.
Proof.
  induction w as [|a w IH]; intros [|c s]; cbn [startswith py_lower]; try easy.
  destruct (Ascii.eqb a (lower_char c)) eqn:E; [|discriminate].
  apply Ascii.eqb_eq in E. subst a. intros H. now rewrite lower_char_idem, (IH s H).
Qed.

Lemma str_in_lowered (w s : string) : str_in w (py_lower s) = true -> py_lower w = w.
Proof.
  induction s as [|c s IH]; cbn [py_lower str_in].
  - rewrite orb_false_r. apply (startswith_lowered w "").
  - intros H. apply orb_prop in H as [H|H]; [|exact (IH H)].
    exact (startswith_lowered w (String c s) H).
Qed.

Lemma has_upper_not_in (w s : string) : has_upper w = true -> str_in w (py_lower s) = false.
Proof.
  unfold has_upper. intros H. destruct (str_in w (py_lower s)) eqn:E; [|reflexivity].
  apply str_in_lowered in E. rewrite E, String.eqb_refl in H. discriminate H.
Qed.

Lemma before_chr_lowered (x : ascii) (s : string) :
  py_lower s = s -> py_lower (before_chr x s) = before_chr x s.
Proof.
  induction s as [|c s IH]; [reflexivity|]. cbn [py_lower before_chr]. intros [= H1 H2].
  destruct (Ascii.eqb c x); [reflexivity|]. cbn [py_lower]. now rewrite H1, (IH H2).
Qed.

Lemma after_chr_lowered (x : ascii) (s r : string) :
  py_lower s = s -> after_chr x s = Some r -> py_lower r = r.
Proof.
  induction s as [|c s IH]; [discriminate|]. cbn [py_lower after_chr]. intros [= H1 H2].
  destruct (Ascii.eqb c x); [intros [= <-]; exact H2 | exact (IH H2)].
Qed.

Lemma domain_of_lowered (e : string) : py_lower (domain_of (py_lower e)) = domain_of (py_lower e).
Proof.
  unfold domain_of. destruct (after_chr "@" (py_lower e)) as [r|] eqn:E; [|reflexivity].
  apply before_chr_lowered. eapply after_chr_lowered; [apply py_lower_idem | exact E].
Qed.

Lemma has_upper_not_elem (d : string) (emails : list string) :
  has_upper d = true -> str_elem d (map domain_of (map py_lower emails)) = false.
Proof.
  unfold has_upper, str_elem. intros H. induction emails as [|e es IH]; [reflexivity|].
  cbn [map existsb]. rewrite IH, orb_false_r.
  destruct (String.eqb d (domain_of (py_lower e))) eqn:E; [|reflexivity].
  apply String.eqb_eq in E. subst d. rewrite domain_of_lowered, String.eqb_refl in H.
  discriminate H.
Qed.

Lemma existsb_false {A : Type} (f : A -> bool) (l : list A) :
  (forall a, In a l -> f a = false) -> existsb f l = false.
Proof.
  induction l as [|a l IH]; [reflexivity|]. intros H. cbn [existsb].
  rewrite (H a (or_introl eq_refl)), IH; [reflexivity|]. intros b Hb. apply H. now right.
Qed.

Lemma never_hits_spec (emails names : list string) (t : string) (r : rule) :
  never_hits r = true ->
  rule_hits (map domain_of (map py_lower emails)) (map py_lower names) (py_lower t) r = false.
Proof.
  unfold never_hits, rule_hits. intros H.
  apply andb_prop in H as [H H3]. apply andb_prop in H as [H1 H2].
  rewrite forallb_forall in H1, H2, H3.
  rewrite !existsb_false; [reflexivity| | |].
  - intros kw Hk. apply existsb_false. intros n Hn. apply in_map_iff in Hn as (n0 & <- & _).
    apply has_upper_not_in, H3, Hk.
  - intros kw Hk. apply has_upper_not_in, H2, Hk.
  - intros d Hd. apply has_upper_not_elem, H1, Hd.
Qed.

Lemma by_rules_filter (emails names : list string) (t : string) (rules : list rule) :
  by_rules (map domain_of (map py_lower emails)) (map py_lower names) (py_lower t)
    (List.filter (fun r => negb (never_hits r)) rules)
  = by_rules (map domain_of (map py_lower emails)) (map py_lower names) (py_lower t) rules.
Proof.
  induction rules as [|r rules IH]; [reflexivity|]. cbn [List.filter by_rules].
  destruct (never_hits r) eqn:E; cbn [negb].
  - rewrite (never_hits_spec _ _ _ _ E). exact IH.
  - cbn [by_rules]. now rewrite IH.
Qed.

Lemma classify_unfold (title : option string) (ps : list participant) (cfg : config) :
  classify_meeting title ps cfg
  = let* emails := collect (fun p => lower_of (p_email p)) ps in
    let* names := collect (fun p => lower_of (p_name p)) ps in
    match by_rules (map domain_of emails) names
            (py_lower (match title with Some t => t | None => EmptyString end))
            (classification_rules cfg) with
    | Some r => r
    | None =>
        if nonempty_str (organization_domain cfg)
        then
          if Nat.eqb (length (List.filter
                                (fun e => nonempty_str e
                                          && negb (endswith ("@" ++ organization_domain cfg) e))
                                emails)) 0
             && Nat.eqb (length (List.filter (endswith ("@" ++ organization_domain cfg)) emails)) 2
          then match by_name names (one_on_one_names cfg) with
               | Some folder => Ok folder
               | None => Ok "1:1"
               end
          else Ok (match default_folder cfg with Some f => f | None => "General" end)
        else Ok (match default_folder cfg with Some f => f | None => "General" end)
    end.
Proof. reflexivity. Qed.


Lemma collect_lowered (f : participant -> option string) (ps : list participant)
    (l : list string) :
  collect (fun p => lower_of (f p)) ps = Ok l -> l = map py_lower l.
Proof.
  revert l. induction ps as [|p ps IH]; intros l; cbn [collect].
  - now intros [= <-].
  - destruct (f p) as [s|]; cbn [lower_of bind]; [|discriminate].
    destruct (collect _ ps) as [l'|e]; cbn [bind]; [|discriminate].
    intros [= <-]. cbn [map]. now rewrite py_lower_idem, <- (IH l' eq_refl).
Qed.

Lemma collect_lower_idem (f : participant -> option string) (ps : list participant) :
  (forall p, f (lower_participant p) = option_map py_lower (f p)) ->
  collect (fun p => lower_of (f p)) (map lower_participant ps)
  = collect (fun p => lower_of (f p)) ps.
Proof.
  intros H. induction ps as [|p ps IH]; cbn [map collect]; [reflexivity|].
  rewrite IH, H. destruct (f p) as [s|]; cbn [option_map lower_of]; [|reflexivity].
  now rewrite py_lower_idem.
Qed.




(** ** The items of a pass *)

Lemma retained_map (cs : list (line * string)) : forall earlier,
  retained earlier cs = map (fun lc => tagged (fst lc) (snd lc)) (retained_pairs earlier cs).
Proof.
  induction cs as [|[l c] cs IH]; intros earlier; [reflexivity|].
  cbn [retained retained_pairs]. rewrite map_app, IH.
  destruct (_ && _); reflexivity.
Qed.

Lemma retained_pairs_in (cs : list (line * string)) : forall earlier l c,
  In (l, c) (retained_pairs earlier cs) ->
  In (l, c) cs /\ long_enough c = true /\ ~ In (dedup_key c) (map dedup_key earlier).
Proof.
  induction cs as [|[l0 c0] cs IH]; intros earlier l c; [easy|].
  cbn [retained_pairs]. intros H. apply in_app_or in H as [H|H].
  - destruct (bool_decide _ && long_enough c0) eqn:T; [|easy].
    destruct H as [[= <- <-]|[]]. apply andb_prop in T as [T1 T2].
    apply bool_decide_eq_true in T1. split; [now left|]. split; [exact T2|].
    intros Hin. apply T1. now apply list_elem_of_In.
  - apply IH in H as (H1 & H2 & H3). split; [now right|]. split; [exact H2|].
    intros Hin. apply H3. cbn [map]. now right.
Qed.

Lemma retained_pairs_keys (cs : list (line * string)) : forall earlier,
  NoDup (map (fun lc => dedup_key (snd lc)) (retained_pairs earlier cs)).
Proof.
  induction cs as [|[l0 c0] cs IH]; intros earlier; [constructor|].
  cbn [retained_pairs]. destruct (bool_decide _ && long_enough c0); [|apply IH].
  cbn [app map snd]. constructor; [|apply IH].
  intros H. apply list_elem_of_In, in_map_iff in H as ([l c] & E & H). cbn [snd] in E.
  apply retained_pairs_in in H as (_ & _ & H). apply H. cbn [map]. left. now symmetry.
Qed.

Lemma candidates_in (lines : list line) (todo : list line) : forall idx l c,
  In (l, c) (candidates lines idx todo) ->
  In l todo /\ is_actionable (text l) = true /\ exists parts, c = combine parts.
Proof.
  induction todo as [|l0 todo IH]; intros idx l c; [easy|].
  cbn [candidates]. intros H. apply in_app_or in H as [H|H].
  - destruct (is_actionable (text l0)) eqn:A; [|easy].
    destruct H as [[= <- <-]|[]]. split; [now left|]. split; [exact A|].
    unfold combined_at. destruct (context_parts_ok lines idx [1; 2] [text l0]) as [parts ->].
    eauto.
  - apply IH in H as (H1 & H2). split; [now right | exact H2].
Qed.

Lemma only_blanks_sub_ws (b : bool) (s : string) : only_blanks (sub_ws b s) = true.
Proof.
  unfold only_blanks. revert b. induction s as [|c s IH]; intros b; [reflexivity|].
  cbn [sub_ws]. destruct (is_space c) eqn:E.
  - destruct b; [apply IH|]. cbn [all_chars]. now rewrite IH.
  - cbn [all_chars]. now rewrite E, IH.
Qed.

Lemma all_chars_app (f : ascii -> bool) (a b : string) :
  all_chars f (a ++ b) = all_chars f a && all_chars f b.
Proof.
  induction a as [|c a IH]; [reflexivity|]. rewrite str_app_cons. cbn [all_chars].
  now rewrite IH, andb_assoc.
Qed.

Lemma lstrip_starts (s : string) : starts_ws (lstrip_by is_space s) = false.
Proof.
  induction s as [|c s IH]; [reflexivity|]. cbn [lstrip_by].
  destruct (is_space c) eqn:E; [exact IH | exact E].
Qed.

Lemma rstrip_starts (f : ascii -> bool) (s : string) :
  starts_ws s = false -> starts_ws (rstrip_by f s) = false.
Proof.
  intros H. destruct (starts_ws (rstrip_by f s)) eqn:E; [|reflexivity].
  apply starts_ws_rstrip in E. congruence.
Qed.

Lemma strip_ends (s : string) : ends_ws (py_strip s) = false.
Proof.
  unfold ends_ws, py_strip.
  destruct (last_chr None (rstrip_by is_space (lstrip_by is_space s))) as [c|] eqn:E;
    [|reflexivity].
  now apply rstrip_last in E.
Qed.

Lemma take_starts (n : nat) (s : string) : starts_ws s = false -> starts_ws (py_take n s) = false.
Proof. destruct n, s; cbn; auto. Qed.

Lemma app_starts (a b : string) :
  starts_ws a = false -> starts_ws b = false -> starts_ws (a ++ b) = false.
Proof. destruct a; cbn; auto. Qed.

Lemma ends_ws_app (a : string) (c : ascii) (b : string) :
  ends_ws (a ++ String c b) = ends_ws (String c b).
Proof. unfold ends_ws. now rewrite last_chr_app. Qed.

Lemma combine_tidy (parts : list string) :
  only_blanks (combine parts) = true
  /\ starts_ws (combine parts) = false /\ ends_ws (combine parts) = false.
Proof.
  unfold combine. set (c := py_strip (sub_ws false (join_sp parts))).
  assert (B : only_blanks c = true).
  { unfold c, py_strip, only_blanks. apply all_chars_rstrip, all_chars_lstrip.
    apply only_blanks_sub_ws. }
  assert (St : starts_ws c = false) by (apply rstrip_starts, lstrip_starts).
  assert (En : ends_ws c = false) by apply strip_ends.
  destruct (Nat.ltb 200 (py_len c)); [|auto]. repeat split.
  - unfold only_blanks in *. rewrite all_chars_app. now rewrite (all_chars_take _ 200 c B).
  - apply app_starts; [now apply take_starts | reflexivity].
  - apply ends_ws_app.
Qed.

Lemma item_shape_of (l : line) (parts : list string) :
  line_read l -> long_enough (combine parts) = true -> item_shape (tagged l (combine parts)).
Proof.
  intros (t & w & g & _ & Hw & _ & _ & _ & W & _) L.
  destruct (combine_tidy parts) as (B & S & E).
  exists w, (combine parts). unfold tagged. rewrite Hw. cbn [fmt].
  split; [reflexivity|]. split; [exact W|]. split.
  { split; [now apply Nat.ltb_lt in L | apply combine_length]. }
  split; [exact B|]. split; [apply combine_no_ws_run | auto].
Qed.

(** The items of a file are what the pass retains of the lines that
    [parse_lines] reads. *)
Lemma extract_lines (stem content title : string) (items : list string) :
  extract_action_items_from_file stem content = Ok (title, items) ->
  exists lines,
    Forall line_read lines /\ items = retained [] (candidates lines 0 lines).
Proof.
  unfold extract_action_items_from_file.
  destruct (title_of stem content) as [t|e]; [|discriminate]. cbn [bind].
  assert (Z : exists lines : list line,
             Forall line_read lines
             /\ @nil string = retained [] (candidates lines 0 lines)).
  { exists []. split; [constructor | reflexivity]. }
  destruct (re_search DOTALL TRANSCRIPT_RE content) as [m|]; [|intros [= _ <-]; exact Z].
  destruct (attr_of (group content m 1)) as [g|e]; [|discriminate]. cbn [bind].
  destruct (startswith "Transcript not available" (py_strip g)); [intros [= _ <-]; exact Z|].
  destruct (parse_lines (py_strip g)) as [lines|e] eqn:P; [|discriminate]. cbn [bind].
  apply parse_lines_read in P.
  destruct lines as [|l0 lines0]; [intros [= _ <-]; exact Z|].
  destruct (scan_loop_retained (l0 :: lines0) (l0 :: lines0) 0 (Scan ∅ []) [] eq_refl)
    as (st & H1 & H2).
  destruct (scan_loop _ _ _ _) as [st'|e] eqn:E; [|discriminate].
  injection H1 as ->.
  cbn [bind]. intros [= _ <-]. exists (l0 :: lines0). split; [exact P|].
  rewrite H2. reflexivity.
Qed.

Lemma word_no_paren (w : string) : all_chars is_word w = true ->
  forall w' c c',
    all_chars is_word w' = true ->
    w ++ String ")" c = w' ++ String ")" c' -> w = w' /\ c = c'.
Proof.
  induction w as [|x w IH]; intros Hw [|y w'] c c' Hw' E.
  - cbn in E. injection E as ->. auto.
  - cbn in E. injection E as <- _. cbn in Hw'. discriminate Hw'.
  - cbn in E. injection E as -> _. cbn in Hw. discriminate Hw.
  - rewrite !str_app_cons in E. injection E as <- E.
    cbn [all_chars] in Hw, Hw'. apply andb_prop in Hw as [_ Hw]. apply andb_prop in Hw' as [_ Hw'].
    destruct (IH Hw w' c c' Hw' E) as [-> ->]. auto.
Qed.

Lemma tagged_inj (l l' : line) (c c' : string) :
  line_read l -> line_read l' -> tagged l c = tagged l' c' -> c = c'.
Proof.
  intros (t & w & g & _ & Hw & _ & _ & _ & [_ W] & _)
         (t' & w' & g' & _ & Hw' & _ & _ & _ & [_ W'] & _).
  unfold tagged. rewrite Hw, Hw'. cbn [fmt]. rewrite !str_app_cons. intros [= E].
  change (") " ++ c) with (String ")" (String " " c)) in E.
  change (") " ++ c') with (String ")" (String " " c')) in E.
  destruct (word_no_paren w W w' _ _ W' E) as [_ E']. now injection E'.
Qed.

Lemma NoDup_map_on {A B C : Type} (f : A -> B) (g : A -> C) (l : list A) :
  (forall x y, In x l -> In y l -> f x = f y -> g x = g y) ->
  NoDup (map g l) -> NoDup (map f l).
Proof.
  induction l as [|a l IH]; intros H N; [constructor|].
  cbn [map] in *. apply NoDup_cons in N as [N1 N2]. constructor.
  - intros Hin. apply N1. apply list_elem_of_In, in_map_iff in Hin as (y & E & Hy).
    apply list_elem_of_In, in_map_iff. exists y. split; [|exact Hy].
    apply H; [now right | now left | exact E].
  - apply IH; [|exact N2]. intros x y Hx Hy. apply H; now right.
Qed.

Lemma retained_pairs_read (lines : list line) (l : line) (c : string) :
  Forall line_read lines ->
  In (l, c) (retained_pairs [] (candidates lines 0 lines)) ->
  line_read l /\ long_enough c = true /\ exists parts, c = combine parts.
Proof.
  intros R H. apply retained_pairs_in in H as (H & L & _).
  apply candidates_in in H as (Hl & _ & P).
  rewrite Forall_forall in R. split; [apply R, list_elem_of_In, Hl|]. split; [exact L | exact P].
Qed.

(** ** Reading back what the writer wrote *)

Section Greedy.
Context {A : Type} (fl : flags) (cl : cclass) (k : pos -> option A) (cs : caps).

(** A greedy loop that can run over [w] and no further, and whose
    continuation succeeds there, returns what the continuation returns. *)
Lemma greedy_max (w rest : string) (x : A) :
  all_chars (cmatch fl cl) w = true ->
  stops fl cl rest = true ->
  forall i prev,
    k (Pos (i + String.length w) (last_chr prev w) rest cs) = Some x ->
    greedy fl cl k cs i prev (w ++ rest) = Some x.
Proof.
  intros Hw Hs. induction w as [|c w IH]; intros i prev Hk.
  - cbn in Hk. rewrite Nat.add_0_r in Hk. change (EmptyString ++ rest) with rest.
    destruct rest as [|c r]; [exact Hk|]. cbn [greedy]. cbn [stops] in Hs.
    apply negb_true_iff in Hs. now rewrite Hs.
  - cbn [all_chars] in Hw. apply andb_prop in Hw as [H1 H2].
    rewrite str_app_cons. cbn [greedy]. rewrite H1.
    rewrite (IH H2 (S i) (Some c)); [reflexivity|].
    cbn [String.length last_chr] in Hk. now replace (S i + String.length w) with (i + S (String.length w)) by lia.
Qed.

End Greedy.

Lemma star_max {A : Type} (fl : flags) (cl : cclass) (k : pos -> option A) (w rest : string)
    (i : nat) (prev : option ascii) (cs : caps) (x : A) :
  all_chars (cmatch fl cl) w = true ->
  stops fl cl rest = true ->
  k (Pos (i + String.length w) (last_chr prev w) rest cs) = Some x ->
  rmatch fl A (Star cl) k (Pos i prev (w ++ rest) cs) = Some x.
Proof. intros. cbn [rmatch at_caps at_idx at_prev at_rest]. now apply greedy_max. Qed.

Lemma plus_max {A : Type} (fl : flags) (cl : cclass) (k : pos -> option A) (w rest : string)
    (i : nat) (prev : option ascii) (cs : caps) (x : A) :
  w <> EmptyString ->
  all_chars (cmatch fl cl) w = true ->
  stops fl cl rest = true ->
  k (Pos (i + String.length w) (last_chr prev w) rest cs) = Some x ->
  rmatch fl A (Plus cl) k (Pos i prev (w ++ rest) cs) = Some x.
Proof.
  intros Hn Hw Hs Hk. destruct w as [|c w]; [contradiction|].
  cbn [all_chars] in Hw. apply andb_prop in Hw as [H1 H2].
  rewrite str_app_cons. cbn [rmatch at_caps at_idx at_prev at_rest]. rewrite H1.
  apply greedy_max; [exact H2 | exact Hs|].
  cbn [String.length last_chr] in Hk.
  now replace (S i + String.length w) with (i + S (String.length w)) by lia.
Qed.

Lemma rmatch_cat (fl : flags) (A : Type) (r1 r2 : regex) (k : pos -> option A) (p : pos) :
  rmatch fl A (Cat r1 r2) k p = rmatch fl A r1 (rmatch fl A r2 k) p.
Proof. reflexivity. Qed.

Lemma rmatch_grp (fl : flags) (A : Type) (n : nat) (r : regex) (k : pos -> option A) (p : pos) :
  rmatch fl A (Grp n r) k p = rmatch fl A r (fun q => k (set_cap n (at_idx p) (at_idx q) q)) p.
Proof. reflexivity. Qed.

Lemma rmatch_cls (fl : flags) (A : Type) (cl : cclass) (k : pos -> option A) (i : nat)
    (prev : option ascii) (c : ascii) (rest : string) (cs : caps) :
  cmatch fl cl c = true ->
  rmatch fl A (Cls cl) k (Pos i prev (String c rest) cs) = k (Pos (S i) (Some c) rest cs).
Proof. intros H. cbn [rmatch at_rest at_idx at_caps]. now rewrite H. Qed.

Lemma rmatch_bol (fl : flags) (A : Type) (k : pos -> option A) (p : pos) :
  at_bol fl p = true -> rmatch fl A Bol k p = k p.
Proof. intros H. cbn [rmatch]. now rewrite H. Qed.

Lemma rmatch_eol (fl : flags) (A : Type) (k : pos -> option A) (p : pos) :
  at_eol fl p = true -> rmatch fl A Eol k p = k p.
Proof. intros H. cbn [rmatch]. now rewrite H. Qed.

Lemma stops_not (fl : flags) (cl : cclass) (c : ascii) (rest : string) :
  cmatch fl cl c = false -> stops fl cl (String c rest) = true.
Proof. intros H. cbn [stops]. now rewrite H. Qed.

Lemma starts_ws_stops (fl : flags) (g tail : string) :
  g <> EmptyString -> starts_ws g = false -> stops fl (COne ASpace) (g ++ tail) = true.
Proof.
  destruct g as [|c g]; [contradiction|]. intros _ H. rewrite str_app_cons.
  apply stops_not. exact H.
Qed.

Lemma line_end_stops (tail : string) : line_end tail = true -> stops MULTILINE CAny tail = true.
Proof.
  destruct tail as [|c r]; [reflexivity|]. cbn [line_end stops cmatch dotall MULTILINE orb].
  intros ->. reflexivity.
Qed.

Lemma line_end_eol (i : nat) (prev : option ascii) (tail : string) (cs : caps) :
  line_end tail = true -> at_eol MULTILINE (Pos i prev tail cs) = true.
Proof. destruct tail as [|c r]; [reflexivity|]. cbn. intros ->. reflexivity. Qed.

(** [LINE_RE] on the line of a segment. *)
Lemma line_match (i : nat) (prev : option ascii) (t w g tail : string) :
  at_bol MULTILINE (Pos i prev (line_text t w g tail) []) = true ->
  t <> EmptyString -> all_chars (not_chr "]") t = true ->
  w <> EmptyString -> all_chars is_word w = true ->
  g <> EmptyString -> all_chars (not_chr NL) g = true -> starts_ws g = false ->
  line_end tail = true ->
  match_at MULTILINE LINE_RE i prev (line_text t w g tail) = Some (line_mobj i t w g).
Proof.
  intros Hb Nt At Nw Aw Ng Ag Sg He.
  unfold match_at, LINE_RE, sp_star, chr, line_text in *. cbn [seq].
  rewrite rmatch_cat, (rmatch_bol _ _ _ _ Hb).
  rewrite rmatch_cat, rmatch_cls by reflexivity.
  rewrite rmatch_cat, rmatch_grp.
  apply plus_max; [exact Nt | | reflexivity |].
  { erewrite all_chars_ext; [exact At|]. intros c. unfold not_chr. cbn.
    now rewrite orb_false_r, Ascii.eqb_sym. }
  unfold set_cap. cbn [at_idx at_prev at_rest at_caps].
  rewrite rmatch_cat, rmatch_cls by reflexivity.
  rewrite rmatch_cat.
  apply (star_max _ _ _ (String " " EmptyString)); [reflexivity | reflexivity|].
  cbn [String.length last_chr].
  rewrite rmatch_cat, rmatch_cls by reflexivity.
  rewrite rmatch_cat, rmatch_grp.
  apply plus_max; [exact Nw | exact Aw | reflexivity |].
  unfold set_cap. cbn [at_idx at_prev at_rest at_caps].
  rewrite rmatch_cat, rmatch_cls by reflexivity.
  rewrite rmatch_cat.
  apply (star_max _ _ _ (String " " EmptyString));
    [reflexivity | now apply starts_ws_stops|].
  cbn [String.length last_chr].
  rewrite rmatch_cat, rmatch_grp.
  apply plus_max; [exact Ng | | now apply line_end_stops |].
  { erewrite all_chars_ext; [exact Ag|]. intros c. reflexivity. }
  unfold set_cap. cbn [at_idx at_prev at_rest at_caps].
  rewrite rmatch_eol by now apply line_end_eol.
  unfold accept, line_mobj. cbn [at_idx at_caps]. f_equal. f_equal; [lia|].
  repeat (f_equal; try lia).
Qed.

Lemma finditer_skip (fl : flags) (r : regex) (u v : string) : forall i prev,
  finditer_from fl r (String.length u) i prev (u ++ v)
  = finditer_from fl r 0 (i + String.length u) (last_chr prev u) v.
Proof.
  induction u as [|c u IH]; intros i prev.
  - cbn [String.length last_chr]. rewrite Nat.add_0_r. reflexivity.
  - rewrite str_app_cons. cbn [String.length finditer_from last_chr]. rewrite IH.
    now replace (S i + String.length u) with (i + S (String.length u)) by lia.
Qed.

Lemma str_neq_nil (s : string) : negb (String.eqb s EmptyString) = true -> s <> EmptyString.
Proof. intros H ->. discriminate H. Qed.

Lemma rec_ok_spec (t w g : string) :
  rec_ok (t, w, g) = true ->
  t <> EmptyString /\ all_chars (not_chr "]") t = true
  /\ w <> EmptyString /\ all_chars is_word w = true
  /\ g <> EmptyString /\ all_chars (not_chr NL) g = true
  /\ starts_ws g = false /\ ends_ws g = false.
Proof.
  unfold rec_ok. rewrite !andb_true_iff, !negb_true_iff.
  intros (((((((H1 & H2) & H3) & H4) & H5) & H6) & H7) & H8).
  repeat split; try assumption; apply str_neq_nil; now rewrite ?H1, ?H3, ?H5.
Qed.

Lemma line_text_length (t w g tail : string) :
  String.length (line_text t w g tail)
  = S (String.length t) + 3 + String.length w + 2 + String.length g + String.length tail.
Proof.
  unfold line_text. repeat first [rewrite str_length_app | progress cbn [String.length]]. lia.
Qed.

Lemma line_text_split (t w g tail : string) :
  line_text t w g tail = line_text t w g EmptyString ++ tail.
Proof.
  unfold line_text. rewrite !str_app_cons. f_equal. rewrite str_app_assoc. f_equal.
  rewrite !str_app_cons. do 3 f_equal. rewrite str_app_assoc. f_equal.
  rewrite !str_app_cons. do 2 f_equal. rewrite str_app_assoc. reflexivity.
Qed.

Lemma last_chr_line (t w g : string) (prev : option ascii) :
  g <> EmptyString ->
  last_chr prev (line_text t w g EmptyString) = last_chr None g.
Proof.
  intros Hg. unfold line_text. cbn [last_chr]. rewrite last_chr_app. cbn [last_chr].
  rewrite last_chr_app. cbn [last_chr]. rewrite last_chr_app. cbn [last_chr].
  destruct g as [|c g]; [contradiction | reflexivity].
Qed.

Lemma last_not_nl (g : string) (c : ascii) :
  all_chars (not_chr NL) g = true -> last_chr None g = Some c -> Ascii.eqb c NL = false.
Proof.
  intros A L. apply (all_chars_last _ g None c) in A; [|discriminate | exact L].
  now apply negb_true_iff in A.
Qed.

Lemma no_match_mid_line (i : nat) (c : ascii) (rest : string) :
  Ascii.eqb c NL = false -> match_at MULTILINE LINE_RE i (Some c) rest = None.
Proof.
  intros H. unfold match_at, LINE_RE. cbn [seq]. rewrite rmatch_cat. cbn [rmatch].
  unfold at_bol. cbn [at_prev multiline MULTILINE andb]. now rewrite H.
Qed.

Lemma last_chr_nonempty (g : string) : g <> EmptyString -> exists c, last_chr None g = Some c.
Proof.
  destruct g as [|c g]; [contradiction|]. intros _. cbn [last_chr].
  generalize c. induction g as [|d g IH]; intros x; cbn [last_chr]; eauto.
Qed.

(** The matches of [LINE_RE] in a text made of well-formed lines. *)
Lemma finditer_lines (rs : list (string * string * string)) :
  forallb rec_ok rs = true ->
  forall i prev,
    at_bol MULTILINE (Pos i prev EmptyString []) = true ->
    finditer_from MULTILINE LINE_RE 0 i prev (lines_text rs) = lines_mobjs i rs.
Proof.
  induction rs as [|[[t w] g] rs IH]; intros Hok i prev Hb.
  - cbn [lines_text finditer_from lines_mobjs]. unfold match_at, LINE_RE. cbn [seq].
    rewrite rmatch_cat, rmatch_bol by exact Hb. reflexivity.
  - cbn [forallb] in Hok. apply andb_prop in Hok as [Hr Hok].
    destruct (rec_ok_spec t w g Hr) as (Nt & At & Nw & Aw & Ng & Ag & Sg & Eg).
    cbn [lines_text lines_mobjs].
    set (tail := match rs with [] => EmptyString | _ => String NL (lines_text rs) end).
    assert (He : line_end tail = true).
    { unfold tail. destruct rs; [reflexivity|]. cbn. reflexivity. }
    assert (M : match_at MULTILINE LINE_RE i prev (line_text t w g tail)
                = Some (line_mobj i t w g)).
    { apply line_match; try assumption. }
    destruct (last_chr_nonempty g Ng) as [cl Hcl].
    pose proof (last_not_nl g cl Ag Hcl) as Hnl.
    assert (E : m_end (line_mobj i t w g) = i + String.length (line_text t w g EmptyString)).
    { rewrite line_text_length. unfold line_mobj. cbv zeta. cbn [m_end String.length]. lia. }
    change (line_text t w g tail)
      with (String "[" (t ++ String "]" (String " " (String "("
              (w ++ String ")" (String " " (g ++ tail))))))) in *.
    cbn [finditer_from]. rewrite M. f_equal.
    set (u := t ++ String "]" (String " " (String "(" (w ++ String ")" (String " " g))))).
    assert (Eu : t ++ String "]" (String " " (String "(" (w ++ String ")" (String " " (g ++ tail)))))
                 = u ++ tail).
    { unfold u. rewrite str_app_assoc. f_equal. rewrite !str_app_cons. do 3 f_equal.
      rewrite str_app_assoc. reflexivity. }
    assert (Lu : String.length (line_text t w g EmptyString) = S (String.length u)).
    { unfold line_text, u. repeat first [rewrite str_length_app | progress cbn [String.length]]. lia. }
    rewrite Eu, E, Lu.
    replace (i + S (String.length u) - i - 1) with (String.length u) by lia.
    rewrite finditer_skip.
    assert (Lc : last_chr (Some "["%char) u = Some cl).
    { rewrite <- Hcl. unfold u. rewrite last_chr_app. cbn [last_chr].
      rewrite last_chr_app. cbn [last_chr]. destruct g as [|c0 g0]; [contradiction | reflexivity]. }
    rewrite Lc.
    unfold tail. destruct rs as [|r rs'].
    + cbn [finditer_from lines_mobjs]. now rewrite no_match_mid_line.
    + cbn [finditer_from]. rewrite no_match_mid_line by exact Hnl.
      replace (S (i + S (String.length u))) with (S (S i + String.length u)) by lia.
      replace (S (i + S (String.length u))) with (S (S i + String.length u)) by lia.
      rewrite (IH Hok); [|reflexivity]. reflexivity.
Qed.

Lemma drop_app_plus (a r : string) (n : nat) :
  py_drop (String.length a + n) (a ++ r) = py_drop n r.
Proof. now rewrite py_drop_add, drop_app_exact. Qed.

Lemma slice_ts (pre t w g tail : string) :
  py_slice (S (String.length pre)) (S (String.length pre) + String.length t)
    (pre ++ line_text t w g tail) = t.
Proof.
  unfold py_slice, line_text.
  replace (S (String.length pre) + String.length t - S (String.length pre))
    with (String.length t) by lia.
  replace (S (String.length pre)) with (String.length pre + 1) by lia.
  rewrite drop_app_plus. cbn [py_drop]. apply take_app_exact.
Qed.

Lemma slice_speaker (pre t w g tail : string) :
  py_slice (S (String.length pre) + String.length t + 3)
    (S (String.length pre) + String.length t + 3 + String.length w)
    (pre ++ line_text t w g tail) = w.
Proof.
  unfold py_slice, line_text.
  replace (S (String.length pre) + String.length t + 3 + String.length w
           - (S (String.length pre) + String.length t + 3))
    with (String.length w) by lia.
  replace (S (String.length pre) + String.length t + 3)
    with (String.length pre + S (String.length t + 3)) by lia.
  rewrite drop_app_plus. cbn [py_drop]. rewrite drop_app_plus. cbn [py_drop].
  apply take_app_exact.
Qed.

Lemma slice_text (pre t w g tail : string) :
  py_slice (S (String.length pre) + String.length t + 3 + String.length w + 2)
    (S (String.length pre) + String.length t + 3 + String.length w + 2 + String.length g)
    (pre ++ line_text t w g tail) = g.
Proof.
  unfold py_slice, line_text.
  replace (S (String.length pre) + String.length t + 3 + String.length w + 2 + String.length g
           - (S (String.length pre) + String.length t + 3 + String.length w + 2))
    with (String.length g) by lia.
  replace (S (String.length pre) + String.length t + 3 + String.length w + 2)
    with (String.length pre + S (String.length t + S (S (S (String.length w + 2))))) by lia.
  rewrite drop_app_plus. cbn [py_drop]. rewrite drop_app_plus. cbn [py_drop].
  rewrite drop_app_plus. cbn [py_drop]. apply take_app_exact.
Qed.

Lemma lstrip_id_ws (s : string) : starts_ws s = false -> lstrip_by is_space s = s.
Proof. destruct s as [|c s]; [reflexivity|]. cbn. now intros ->. Qed.

Lemma strip_id (s : string) : starts_ws s = false -> ends_ws s = false -> py_strip s = s.
Proof.
  intros H1 H2. unfold py_strip. rewrite (lstrip_id_ws s H1). apply rstrip_id.
  intros c Hc. unfold ends_ws in H2. now rewrite Hc in H2.
Qed.

Lemma line_of_written (pre t w g tail : string) :
  starts_ws g = false -> ends_ws g = false ->
  line_of_match (pre ++ line_text t w g tail) (line_mobj (String.length pre) t w g)
  = Ok (Line (Some t) (Some w) g).
Proof.
  intros H1 H2. unfold line_of_match, group, line_mobj. cbn [m_caps cap_lookup Nat.eqb].
  rewrite slice_ts, slice_speaker, slice_text. cbn [attr_of bind]. now rewrite strip_id.
Qed.

Lemma lines_collect (rs : list (string * string * string)) :
  forallb rec_ok rs = true ->
  forall pre,
    collect (line_of_match (pre ++ lines_text rs)) (lines_mobjs (String.length pre) rs)
    = Ok (map rec_line rs).
Proof.
  induction rs as [|[[t w] g] rs IH]; intros Hok pre; [reflexivity|].
  cbn [forallb] in Hok. apply andb_prop in Hok as [Hr Hok].
  destruct (rec_ok_spec t w g Hr) as (_ & _ & _ & _ & _ & _ & Sg & Eg).
  cbn [lines_text lines_mobjs collect map rec_line].
  rewrite (line_of_written pre t w g _ Sg Eg). cbn [bind].
  destruct rs as [|r rs']; [reflexivity|].
  set (rest := lines_text (r :: rs')) in *.
  rewrite line_text_split, <- str_app_assoc.
  change (String NL rest) with (String NL EmptyString ++ rest). rewrite <- str_app_assoc.
  specialize (IH Hok ((pre ++ line_text t w g "") ++ String NL "")).
  replace (String.length ((pre ++ line_text t w g "") ++ String NL ""))
    with (S (m_end (line_mobj (String.length pre) t w g))) in IH.
  - rewrite IH. reflexivity.
  - rewrite !str_length_app, line_text_length. unfold line_mobj. cbv zeta.
    cbn [m_end String.length]. lia.
Qed.

Lemma parse_written_lines (rs : list (string * string * string)) :
  forallb rec_ok rs = true -> parse_lines (lines_text rs) = Ok (map rec_line rs).
Proof.
  intros H. unfold parse_lines, re_finditer. rewrite (finditer_lines rs H); [|reflexivity].
  exact (lines_collect rs H EmptyString).
Qed.

Lemma str_app_nil_l (s : string) : EmptyString ++ s = s.
Proof. reflexivity. Qed.

Lemma str_app_nil_r (s : string) : s ++ EmptyString = s.
Proof. induction s as [|c s IH]; [reflexivity|]. rewrite str_app_cons. now rewrite IH. Qed.

Ltac str_norm :=
  repeat first [rewrite str_app_cons | rewrite str_app_nil_l | rewrite str_app_nil_r
               | rewrite str_app_assoc].

Lemma join_lines (rs : list (string * string * string)) :
  join (String NL EmptyString) (map rec_fmt rs) = lines_text rs.
Proof.
  induction rs as [|[[t w] g] rs IH]; [reflexivity|].
  cbn [map join lines_text]. destruct rs as [|r rs'].
  - cbn [map]. unfold rec_fmt, line_text. str_norm. reflexivity.
  - rewrite IH. set (rest := lines_text (r :: rs')). cbn [map].
    unfold rec_fmt at 1. unfold line_text. str_norm. reflexivity.
Qed.

Lemma transcript_lines_recs (segs : list segment) :
  transcript_lines segs = map rec_fmt (omap seg_rec segs).
Proof.
  unfold transcript_lines. induction segs as [|seg segs IH]; [reflexivity|].
  rewrite !omap_cons. unfold transcript_line at 1, seg_rec at 1.
  destruct (String.eqb (py_strip (seg_text seg)) ""); [exact IH|].
  cbn [map]. now rewrite IH.
Qed.

Lemma seg_recs_ok (segs : list segment) :
  forallb seg_ok segs = true -> forallb rec_ok (omap seg_rec segs) = true.
Proof.
  induction segs as [|seg segs IH]; [reflexivity|]. cbn [forallb]. intros H.
  apply andb_prop in H as [H1 H2]. rewrite omap_cons. unfold seg_rec at 1.
  unfold seg_ok in H1. destruct (String.eqb (py_strip (seg_text seg)) "") eqn:E; [exact (IH H2)|].
  cbn [orb] in H1. cbn [forallb]. rewrite (IH H2), andb_true_r.
  unfold rec_ok. rewrite E. cbn [negb].
  apply andb_prop in H1 as [H1 H5]. rewrite H1, H5. cbn [andb].
  assert (S1 : starts_ws (py_strip (seg_text seg)) = false) by (apply rstrip_starts, lstrip_starts).
  now rewrite S1, strip_ends.
Qed.

Lemma seg_records (segs : list segment) :
  map rec_line (omap seg_rec segs) = omap seg_record segs.
Proof.
  induction segs as [|seg segs IH]; [reflexivity|]. rewrite !omap_cons.
  unfold seg_rec at 1, seg_record at 1.
  destruct (String.eqb (py_strip (seg_text seg)) ""); [exact IH|]. cbn [map rec_line]. now rewrite IH.
Qed.

(** *** The title line *)

Lemma search_from_miss (fl : flags) (r : regex) (i : nat) (prev : option ascii) (c : ascii)
    (rest : string) :
  match_at fl r i prev (String c rest) = None ->
  search_from fl r i prev (String c rest) = search_from fl r (S i) (Some c) rest.
Proof. intros H. cbn [search_from]. now rewrite H. Qed.

Lemma search_from_hit (fl : flags) (r : regex) (i : nat) (prev : option ascii) (rest : string)
    (m : mobj) :
  match_at fl r i prev rest = Some m -> search_from fl r i prev rest = Some m.
Proof. intros H. destruct rest; cbn [search_from]; now rewrite H. Qed.

Lemma rmatch_lit (fl : flags) (A : Type) (s : string) (k : pos -> option A) (p : pos)
    (j : nat) (prev' : option ascii) (rest' : string) :
  lit_from fl s (at_idx p) (at_prev p) (at_rest p) = Some (j, prev', rest') ->
  rmatch fl A (Lit s) k p = k (Pos j prev' rest' (at_caps p)).
Proof. intros H. cbn [rmatch]. now rewrite H. Qed.

Lemma rmatch_opt_hit (fl : flags) (A : Type) (r : regex) (k : pos -> option A) (p : pos) (x : A) :
  rmatch fl A r k p = Some x -> rmatch fl A (Opt r) k p = Some x.
Proof. intros H. cbn [rmatch]. now rewrite H. Qed.

Lemma title_match (t tail : string) (i : nat) :
  title_ok t = true ->
  match_at MULTILINE TITLE_RE i (Some NL)
    (String "t" (String "i" (String "t" (String "l" (String "e" (String ":" (String " "
       (String DQ (t ++ String DQ tail)))))))))
  = Some (MObj i (i + 9 + String.length t) [(1, (i + 8, i + 8 + String.length t))]).
Proof.
  unfold title_ok. intros H. apply andb_prop in H as [N A]. apply str_neq_nil in N.
  unfold match_at, TITLE_RE, sp_star, chr. cbn [seq].
  rewrite rmatch_cat, rmatch_bol by reflexivity.
  rewrite rmatch_cat. erewrite rmatch_lit by reflexivity.
  cbn [at_idx at_prev at_rest at_caps Nat.add].
  rewrite rmatch_cat.
  apply (star_max _ _ _ (String " " EmptyString)); [reflexivity | reflexivity|].
  cbn [String.length last_chr].
  rewrite rmatch_cat. apply rmatch_opt_hit. rewrite rmatch_cls by reflexivity.
  rewrite rmatch_cat, rmatch_grp.
  apply plus_max; [exact N | | reflexivity |].
  { erewrite all_chars_ext; [exact A|]. intros c.
    destruct c as [[] [] [] [] [] [] [] []]; reflexivity. }
  unfold set_cap. cbn [at_idx at_prev at_rest at_caps].
  apply rmatch_opt_hit. rewrite rmatch_cls by reflexivity.
  unfold accept. cbn [at_idx at_caps]. f_equal. f_equal; [lia|]. repeat (f_equal; try lia).
Qed.

Lemma title_read (t tail stem : string) :
  title_ok t = true ->
  title_of stem ("---" ++ LF ++ "title: " ++ quoted t ++ tail) = Ok (py_strip t).
Proof.
  intros H. unfold title_of, re_search, quoted, LF. str_norm.
  rewrite search_from_miss by reflexivity.
  rewrite search_from_miss by reflexivity.
  rewrite search_from_miss by reflexivity.
  rewrite search_from_miss by reflexivity.
  erewrite search_from_hit by (apply title_match; exact H).
  unfold group. cbn [m_caps cap_lookup Nat.eqb attr_of bind]. f_equal. f_equal.
  unfold py_slice. replace (4 + 8 + String.length t - (4 + 8)) with (String.length t) by lia.
  cbn [Nat.add py_drop]. apply take_app_exact.
Qed.

(** *** The transcript section *)

Lemma lit_from_plain (fl : flags) (w : string) :
  ignorecase fl = false ->
  forall i prev rest,
    lit_from fl w i prev rest
    = if startswith w rest
      then Some (i + String.length w,
                 last_chr prev (py_take (String.length w) rest),
                 py_drop (String.length w) rest)
      else None.
Proof.
  intros Hf. induction w as [|a w IH]; intros i prev rest.
  - cbn. destruct rest; cbn; rewrite Nat.add_0_r; reflexivity.
  - destruct rest as [|c rest]; [reflexivity|].
    cbn [lit_from startswith String.length py_take py_drop last_chr]. unfold chr_eq. rewrite Hf.
    destruct (Ascii.eqb a c); [|reflexivity]. rewrite IH.
    destruct (startswith w rest); [|reflexivity].
    now replace (S i + String.length w) with (i + S (String.length w)) by lia.
Qed.

Lemma heading_miss (i : nat) (prev : option ascii) (x : string) :
  startswith HEADING x = false -> match_at DOTALL TRANSCRIPT_RE i prev x = None.
Proof.
  intros H. unfold match_at, TRANSCRIPT_RE. cbn [seq]. rewrite rmatch_cat. cbn [rmatch].
  rewrite lit_from_plain by reflexivity. cbn [at_rest]. fold HEADING. now rewrite H.
Qed.

Lemma heading_no_overlap (u tail : string) :
  u <> EmptyString -> startswith HEADING u = false ->
  startswith HEADING (u ++ HEADING ++ tail) = false.
Proof.
  unfold HEADING. intros N H.
  destruct u as [|c u]; [contradiction|]. clear N.
  repeat
    (rewrite ?str_app_cons; cbn [startswith] in *;
     match goal with
     | |- (if Ascii.eqb ?a ?b then _ else _) = false =>
         destruct (Ascii.eqb a b); [|reflexivity]
     end;
     destruct u as [|? u]; [try reflexivity; try discriminate H|]).
  all: cbn [startswith] in H; discriminate H.
Qed.

Lemma search_heading_skip (front tail : string) :
  forall i prev,
    str_in HEADING front = false ->
    search_from DOTALL TRANSCRIPT_RE i prev (front ++ HEADING ++ tail)
    = search_from DOTALL TRANSCRIPT_RE (i + String.length front) (last_chr prev front)
        (HEADING ++ tail).
Proof.
  induction front as [|c front IH]; intros i prev H.
  - cbn [String.length last_chr]. now rewrite Nat.add_0_r.
  - cbn [str_in] in H. apply orb_false_elim in H as [H1 H2].
    pose proof (heading_no_overlap (String c front) tail ltac:(discriminate) H1) as M.
    rewrite str_app_cons in *. rewrite search_from_miss by (apply heading_miss; exact M).
    rewrite (IH (S i) (Some c) H2). cbn [String.length last_chr].
    now replace (S i + String.length front) with (i + S (String.length front)) by lia.
Qed.

Lemma ahead_miss (i0 i1 i : nat) (prev : option ascii) (c : ascii) (r : string) (cs : caps) :
  startswith NEXT_SECTION (String c r) = false ->
  rmatch DOTALL mobj (Ahead (Alt (Lit NEXT_SECTION) EndZ)) (accept i0)
    (set_cap 1 i1 i (Pos i prev (String c r) cs)) = None.
Proof.
  intros H. cbn [rmatch set_cap at_idx at_prev at_rest at_caps at_end].
  rewrite lit_from_plain by reflexivity. now rewrite H.
Qed.

Lemma ahead_end (i0 i1 i : nat) (prev : option ascii) (cs : caps) :
  rmatch DOTALL mobj (Ahead (Alt (Lit NEXT_SECTION) EndZ)) (accept i0)
    (set_cap 1 i1 i (Pos i prev EmptyString cs))
  = Some (MObj i0 i ((1, (i1, i)) :: cs)).
Proof. reflexivity. Qed.

(** The lazy loop of the section runs to the end of a text that holds no
    line beginning with the marks of a heading. *)
Lemma lazy_section (i0 i1 : nat) (cs : caps) (w : string) :
  forall i prev,
    str_in NEXT_SECTION w = false ->
    lazy DOTALL CAny
      (fun q => rmatch DOTALL mobj (Ahead (Alt (Lit (String NL "## ")) EndZ)) (accept i0)
                  (set_cap 1 i1 (at_idx q) q))
      cs i prev w
    = Some (MObj i0 (i + String.length w) ((1, (i1, i + String.length w)) :: cs)).
Proof.
  induction w as [|c w IH]; intros i prev H.
  - cbn [lazy at_idx String.length]. rewrite Nat.add_0_r. destruct prev; reflexivity.
  - cbn [str_in] in H. apply orb_false_elim in H as [H1 H2].
    cbn [lazy at_idx]. fold NEXT_SECTION. rewrite (ahead_miss i0 i1 i prev c w cs H1).
    cbn [cmatch dotall DOTALL orb]. unfold NEXT_SECTION at 1. rewrite (IH (S i) (Some c) H2).
    cbn [String.length]. now replace (S i + String.length w) with (i + S (String.length w)) by lia.
Qed.

Lemma rmatch_lazy (fl : flags) (A : Type) (cl : cclass) (k : pos -> option A) (p : pos) :
  rmatch fl A (LazyStar cl) k p = lazy fl cl k (at_caps p) (at_idx p) (at_prev p) (at_rest p).
Proof. reflexivity. Qed.

Lemma heading_match (i : nat) (prev : option ascii) (body : string) :
  stops DOTALL (COne (AChr NL)) (body ++ LF) = true ->
  str_in NEXT_SECTION (body ++ LF) = false ->
  match_at DOTALL TRANSCRIPT_RE i prev (HEADING ++ LF ++ LF ++ body ++ LF)
  = Some (MObj i (i + 15 + String.length (body ++ LF))
            [(1, (i + 15, i + 15 + String.length (body ++ LF)))]).
Proof.
  intros Hs Hn. unfold match_at, TRANSCRIPT_RE, HEADING, LF in *. cbn [seq]. str_norm.
  rewrite rmatch_cat. erewrite rmatch_lit by reflexivity.
  cbn [at_idx at_prev at_rest at_caps].
  rewrite rmatch_cat.
  change (String NL (String NL (body ++ String NL "")))
    with (String NL (String NL EmptyString) ++ (body ++ String NL "")).
  apply plus_max; [discriminate | reflexivity | exact Hs |].
  cbn [String.length last_chr].
  rewrite rmatch_cat, rmatch_grp, rmatch_lazy. cbn [at_idx at_prev at_rest at_caps].
  rewrite (lazy_section _ _ _ _ _ _ Hn). f_equal. f_equal; [lia|]. repeat (f_equal; try lia).
Qed.

Lemma section_read (front body : string) :
  str_in HEADING front = false ->
  stops DOTALL (COne (AChr NL)) (body ++ LF) = true ->
  str_in NEXT_SECTION (body ++ LF) = false ->
  exists m,
    re_search DOTALL TRANSCRIPT_RE (front ++ HEADING ++ LF ++ LF ++ body ++ LF) = Some m
    /\ group (front ++ HEADING ++ LF ++ LF ++ body ++ LF) m 1 = Some (body ++ LF).
Proof.
  intros Hf Hs Hn. eexists. split.
  - unfold re_search. rewrite search_heading_skip by exact Hf.
    apply search_from_hit, heading_match; assumption.
  - unfold group. cbn [m_caps cap_lookup Nat.eqb]. f_equal. unfold py_slice.
    cbn [Nat.add last_chr].
    replace (String.length front + 15 + String.length (body ++ LF) - (String.length front + 15))
      with (String.length (body ++ LF)) by lia.
    rewrite drop_app_plus. unfold HEADING, LF. str_norm. cbn [py_drop].
    apply py_take_all. reflexivity.
Qed.

Lemma rstrip_app_ws (f : ascii -> bool) (s : string) (c : ascii) :
  f c = true -> rstrip_by f (s ++ String c EmptyString) = rstrip_by f s.
Proof.
  intros H. induction s as [|x s IH].
  - rewrite str_app_nil_l, rstrip_cons. cbn [rstrip_by]. now rewrite H.
  - rewrite str_app_cons, !rstrip_cons, IH. reflexivity.
Qed.

Lemma strip_app_lf (s : string) : starts_ws s = false -> s <> EmptyString ->
  py_strip (s ++ LF) = py_strip s.
Proof.
  intros H N. unfold py_strip, LF. destruct s as [|c s]; [contradiction|].
  rewrite str_app_cons. cbn [lstrip_by]. cbn [starts_ws] in H. rewrite H.
  rewrite <- str_app_cons. now rewrite rstrip_app_ws.
Qed.

Lemma file_content_title (meeting : new_meeting) (folder yaml title : string) :
  mt_title meeting = Some title ->
  exists tail,
    file_content meeting folder yaml = "---" ++ LF ++ "title: " ++ quoted title ++ tail.
Proof.
  intros E. unfold file_content, file_front. rewrite E. cbn [py_str].
  eexists. rewrite !str_app_assoc. reflexivity.
Qed.

Lemma file_content_section (meeting : new_meeting) (folder yaml : string) :
  file_content meeting folder yaml
  = file_front meeting folder yaml ++ HEADING ++ LF ++ LF
    ++ str_or (mt_transcript meeting) NO_TRANSCRIPT ++ LF.
Proof. reflexivity. Qed.

(** What extraction does with a written file, given what it finds in the
    section of the transcript. *)
Lemma extract_written (meeting : new_meeting) (folder yaml title stem : string) :
  mt_title meeting = Some title ->
  title_ok title = true ->
  str_in HEADING (file_front meeting folder yaml) = false ->
  stops DOTALL (COne (AChr NL)) (str_or (mt_transcript meeting) NO_TRANSCRIPT ++ LF) = true ->
  str_in NEXT_SECTION (str_or (mt_transcript meeting) NO_TRANSCRIPT ++ LF) = false ->
  extract_action_items_from_file stem (file_content meeting folder yaml)
  = let title := py_strip title in
    let transcript_text := py_strip (str_or (mt_transcript meeting) NO_TRANSCRIPT ++ LF) in
    if startswith "Transcript not available" transcript_text then Ok (title, [])
    else
      let* lines := parse_lines transcript_text in
      match lines with
      | [] => Ok (title, [])
      | _ => let* st := scan_loop lines (Scan ∅ []) 0 lines in Ok (title, action_items st)
      end.
Proof.
  intros Et Ht Hf Hs Hn. unfold extract_action_items_from_file.
  destruct (file_content_title meeting folder yaml title Et) as [tail E].
  rewrite E at 1. rewrite (title_read _ _ _ Ht). cbn [bind].
  rewrite file_content_section.
  destruct (section_read _ _ Hf Hs Hn) as (m & -> & ->). cbn [attr_of bind]. reflexivity.
Qed.

Lemma next_section_skip (a b : string) :
  all_chars (not_chr NL) a = true -> str_in NEXT_SECTION (a ++ b) = str_in NEXT_SECTION b.
Proof.
  induction a as [|c a IH]; [reflexivity|]. cbn [all_chars]. intros H.
  apply andb_prop in H as [H1 H2]. rewrite str_app_cons. cbn [str_in].
  rewrite (IH H2). unfold NEXT_SECTION at 1. cbn [startswith].
  unfold not_chr in H1. apply negb_true_iff in H1. rewrite Ascii.eqb_sym in H1.
  now rewrite H1.
Qed.

Lemma word_one_line (w : string) : all_chars is_word w = true -> all_chars (not_chr NL) w = true.
Proof.
  apply all_chars_weaken. intros c.
  destruct c as [[] [] [] [] [] [] [] []]; intros H; try discriminate H; reflexivity.
Qed.

Lemma line_text_no_section (t w g tail : string) :
  all_chars (not_chr NL) t = true -> all_chars is_word w = true ->
  all_chars (not_chr NL) g = true ->
  str_in NEXT_SECTION (line_text t w g tail) = str_in NEXT_SECTION tail.
Proof.
  intros Ht Hw Hg. apply word_one_line in Hw.
  assert (E : line_text t w g tail
              = (String "[" (t ++ String "]" (String " " (String "("
                   (w ++ String ")" (String " " g)))))) ++ tail).
  { unfold line_text. str_norm. reflexivity. }
  rewrite E. apply next_section_skip.
  cbn [all_chars]. rewrite all_chars_app. cbn [all_chars]. rewrite all_chars_app.
  cbn [all_chars]. now rewrite Ht, Hw, Hg.
Qed.

Lemma lines_no_section (rs : list (string * string * string)) :
  forallb rec_ok rs = true -> forallb rec_one_line rs = true ->
  str_in NEXT_SECTION (lines_text rs ++ LF) = false.
Proof.
  induction rs as [|[[t w] g] rs IH]; intros Hok Hl; [reflexivity|].
  cbn [forallb] in Hok, Hl. apply andb_prop in Hok as [Hr Hok]. apply andb_prop in Hl as [Ht Hl].
  destruct (rec_ok_spec t w g Hr) as (_ & _ & _ & Aw & _ & Ag & _ & _).
  cbn [lines_text rec_one_line] in *.
  rewrite line_text_split, str_app_assoc, <- line_text_split.
  rewrite line_text_no_section by assumption.
  destruct rs as [|r rs']; [reflexivity|].
  rewrite str_app_cons. cbn [str_in]. rewrite (IH Hok Hl), orb_false_r.
  destruct r as [[t' w'] g']. reflexivity.
Qed.

Lemma lines_text_head (rs : list (string * string * string)) :
  rs <> [] -> exists r, lines_text rs = String "["%char r.
Proof. destruct rs as [|[[t w] g] rs]; [contradiction|]. intros _. cbn. eauto. Qed.

Lemma lines_text_ends (rs : list (string * string * string)) :
  forallb rec_ok rs = true -> ends_ws (lines_text rs) = false.
Proof.
  induction rs as [|[[t w] g] rs IH]; intros Hok; [reflexivity|].
  cbn [forallb] in Hok. apply andb_prop in Hok as [Hr Hok].
  destruct (rec_ok_spec t w g Hr) as (_ & _ & _ & _ & Ng & _ & _ & Eg).
  cbn [lines_text]. destruct rs as [|r rs'].
  - unfold ends_ws in *. now rewrite (last_chr_line t w g None Ng).
  - rewrite line_text_split. set (rest := lines_text (r :: rs')) in *.
    destruct (lines_text_head (r :: rs') ltac:(discriminate)) as [x Hx]. fold rest in Hx.
    change (String NL rest) with (String NL EmptyString ++ rest).
    rewrite Hx, <- str_app_assoc, ends_ws_app.
    specialize (IH Hok). rewrite Hx in IH. exact IH.
Qed.

Lemma seg_recs_one_line (segs : list segment) :
  forallb seg_ok_in_file segs = true ->
  forallb seg_ok segs = true /\ forallb rec_one_line (omap seg_rec segs) = true.
Proof.
  induction segs as [|seg segs IH]; [easy|]. cbn [forallb]. intros H.
  apply andb_prop in H as [H1 H2]. destruct (IH H2) as [I1 I2].
  unfold seg_ok_in_file in H1. apply andb_prop in H1 as [H1 H3]. rewrite H1, I1.
  split; [reflexivity|]. rewrite omap_cons. unfold seg_rec at 1.
  destruct (String.eqb (py_strip (seg_text seg)) ""); [exact I2|].
  cbn [orb] in H3. cbn [forallb rec_one_line]. now rewrite H3, I2.
Qed.

Lemma transcript_of_recs (segs : list segment) :
  transcript_of segs = lines_text (omap seg_rec segs).
Proof. unfold transcript_of. now rewrite transcript_lines_recs, join_lines. Qed.

Lemma retained_of_lines (lines : list line) :
  lines <> [] ->
  exists st,
    scan_loop lines (Scan ∅ []) 0 lines = Ok st
    /\ action_items st = retained [] (candidates lines 0 lines).
Proof.
  intros _. destruct (scan_loop_retained lines lines 0 (Scan ∅ []) [] eq_refl) as (st & H1 & H2).
  exists st. split; [exact H1 | exact H2].
Qed.

(** Extraction on the file of a meeting whose transcript was built from
    [segs]. *)
Lemma extract_file_of_segments (meeting : new_meeting) (folder yaml title stem : string)
    (segs : list segment) :
  mt_title meeting = Some title ->
  title_ok title = true ->
  str_in HEADING (file_front meeting folder yaml) = false ->
  forallb seg_ok_in_file segs = true ->
  mt_transcript meeting = transcript_of segs ->
  extract_action_items_from_file stem (file_content meeting folder yaml)
  = Ok (py_strip title,
        retained [] (candidates (omap seg_record segs) 0 (omap seg_record segs))).
Proof.
  intros Et Ht Hf Hsegs Etr.
  destruct (seg_recs_one_line segs Hsegs) as [Hok Hone].
  pose proof (seg_recs_ok segs Hok) as Hrec.
  rewrite <- seg_records. rewrite transcript_of_recs in Etr.
  set (rs := omap seg_rec segs) in *.
  destruct rs as [|r rs'] eqn:Ers.
  - (* no line: the file holds the sentinel *)
    cbn [lines_text] in Etr.
    rewrite (extract_written _ _ _ _ _ Et); [|exact Ht | exact Hf | rewrite Etr; reflexivity
                              | rewrite Etr; vm_compute; reflexivity].
    rewrite Etr. reflexivity.
  - assert (Nn : r :: rs' <> []) by discriminate.
    destruct (lines_text_head (r :: rs') Nn) as [x Hx].
    assert (So : str_or (mt_transcript meeting) NO_TRANSCRIPT = lines_text (r :: rs')).
    { rewrite Etr, Hx. reflexivity. }
    rewrite (extract_written _ _ _ _ _ Et); [|exact Ht | exact Hf | | ].
    + rewrite So. cbv zeta.
      assert (St : py_strip (lines_text (r :: rs') ++ LF) = lines_text (r :: rs')).
      { rewrite strip_app_lf; [|rewrite Hx; reflexivity | rewrite Hx; discriminate].
        apply strip_id; [rewrite Hx; reflexivity | now apply lines_text_ends]. }
      rewrite St. rewrite Hx at 1. cbn [startswith Ascii.eqb Bool.eqb].
      rewrite (parse_written_lines _ Hrec). cbn [bind].
      destruct (retained_of_lines (map rec_line (r :: rs')) ltac:(discriminate))
        as (st & H1 & H2).
      cbn [map] in *. destruct (scan_loop _ _ _ _) as [st'|e]; [|discriminate H1].
      injection H1 as ->. cbn [bind]. now rewrite H2.
    + rewrite So, Hx. reflexivity.
    + rewrite So. now apply lines_no_section.
Qed.

(** ** Participants *)

Lemma nonempty_str_spec (s : string) : nonempty_str s = true <-> s <> EmptyString.
Proof.
  unfold nonempty_str. destruct (String.eqb_spec s ""); cbn; split; intros; congruence.
Qed.

Lemma roll_add (st : roll) (name : option string) (email : string) :
  roll_ok st ->
  roll_ok (if nonempty_str email && bool_decide (py_lower email ∉ seen_emails st)
           then Roll (participants st ++ [Participant name (Some email)])
                  ({[py_lower email]} ∪ seen_emails st)
           else st).
Proof.
  intros (N & F & S). destruct (nonempty_str email && _) eqn:E; [|exact (conj N (conj F S))].
  apply andb_prop in E as [E1 E2]. apply nonempty_str_spec in E1.
  apply bool_decide_eq_true in E2. unfold roll_ok, addresses in *. cbn [participants seen_emails].
  rewrite map_app. cbn [map p_email option_map]. repeat split.
  - apply NoDup_app. split; [exact N|]. split; [|apply NoDup_singleton].
    intros x Hx Hx'. apply list_elem_of_singleton in Hx'. subst x. apply E2, S, Hx.
  - apply Forall_app. split; [exact F|].
    constructor; [exists email; split; [reflexivity | exact E1] | constructor].
  - intros H. apply elem_of_union in H as [H|H].
    + apply elem_of_singleton in H. subst e. apply elem_of_app. right. constructor.
    + apply elem_of_app. left. now apply S.
  - intros H. apply elem_of_app in H as [H|H].
    + apply elem_of_union. right. now apply S.
    + apply list_elem_of_singleton in H. injection H as ->. apply elem_of_union. left.
      now apply elem_of_singleton.
Qed.

Lemma roll_creator (creator : person) : roll_ok (add_creator creator).
Proof.
  unfold add_creator. destruct (nonempty_str (pe_email creator)) eqn:E.
  - apply nonempty_str_spec in E. unfold roll_ok, addresses.
    cbn [participants seen_emails map p_email option_map]. repeat split.
    + apply NoDup_singleton.
    + constructor; [exists (pe_email creator); split; [reflexivity | exact E] | constructor].
    + intros H. apply elem_of_singleton in H. subst e. constructor.
    + intros H. apply list_elem_of_singleton in H. injection H as ->.
      now apply elem_of_singleton.
  - unfold roll_ok, addresses. cbn. split; [constructor|]. split; [constructor|].
    intros e. split; intros H.
    + now apply not_elem_of_empty in H.
    + now apply not_elem_of_nil in H.
Qed.

Lemma roll_attendees (l : list person) : forall st,
  roll_ok st -> roll_ok (fold_left add_attendee l st).
Proof.
  induction l as [|a l IH]; intros st H; [exact H|]. cbn [fold_left]. apply IH.
  unfold add_attendee. now apply roll_add.
Qed.

Lemma roll_cal (l : list cal_attendee) : forall st,
  roll_ok st -> roll_ok (fold_left add_cal_attendee l st).
Proof.
  induction l as [|a l IH]; intros st H; [exact H|]. cbn [fold_left]. apply IH.
  unfold add_cal_attendee. now apply roll_add.
Qed.

(** An address that has been seen stays. *)
Lemma seen_add (st : roll) (name : option string) (email e : string) :
  e ∈ seen_emails st ->
  e ∈ seen_emails (if nonempty_str email && bool_decide (py_lower email ∉ seen_emails st)
                   then Roll (participants st ++ [Participant name (Some email)])
                          ({[py_lower email]} ∪ seen_emails st)
                   else st).
Proof. intros H. destruct (_ && _); [|exact H]. cbn. apply elem_of_union. now right. Qed.

Lemma seen_attendees (l : list person) (e : string) : forall st,
  e ∈ seen_emails st -> e ∈ seen_emails (fold_left add_attendee l st).
Proof.
  induction l as [|a l IH]; intros st H; [exact H|]. cbn [fold_left]. apply IH.
  unfold add_attendee. now apply seen_add.
Qed.

Lemma seen_cal (l : list cal_attendee) (e : string) : forall st,
  e ∈ seen_emails st -> e ∈ seen_emails (fold_left add_cal_attendee l st).
Proof.
  induction l as [|a l IH]; intros st H; [exact H|]. cbn [fold_left]. apply IH.
  unfold add_cal_attendee. now apply seen_add.
Qed.

Lemma seen_after_add (st : roll) (name : option string) (email : string) :
  email <> EmptyString ->
  py_lower email
  ∈ seen_emails (if nonempty_str email && bool_decide (py_lower email ∉ seen_emails st)
                 then Roll (participants st ++ [Participant name (Some email)])
                        ({[py_lower email]} ∪ seen_emails st)
                 else st).
Proof.
  intros H. apply nonempty_str_spec in H. rewrite H. cbn [andb].
  destruct (bool_decide _) eqn:E.
  - cbn. apply elem_of_union. left. now apply elem_of_singleton.
  - apply bool_decide_eq_false in E. now apply dec_stable in E.
Qed.

Lemma attendees_seen (l : list person) (a : person) : forall st,
  In a l -> pe_email a <> EmptyString ->
  py_lower (pe_email a) ∈ seen_emails (fold_left add_attendee l st).
Proof.
  induction l as [|b l IH]; intros st Hin Hn; [contradiction|]. cbn [fold_left].
  destruct Hin as [->|Hin]; [|now apply IH].
  apply seen_attendees. unfold add_attendee. now apply seen_after_add.
Qed.

Lemma cal_seen (l : list cal_attendee) (a : cal_attendee) : forall st,
  In a l -> ca_email a <> EmptyString ->
  py_lower (ca_email a) ∈ seen_emails (fold_left add_cal_attendee l st).
Proof.
  induction l as [|b l IH]; intros st Hin Hn; [contradiction|]. cbn [fold_left].
  destruct Hin as [->|Hin]; [|now apply IH].
  apply seen_cal. unfold add_cal_attendee. now apply seen_after_add.
Qed.

(** ** The rendered message *)

Lemma meeting_blocks_group (k : nat) (m : meeting) :
  has_items m ->
  exists t a,
    meeting_blocks k m = [t; a; divider]
    /\ title_like t = true /\ type_is a "actions" = true /\ title_like a = false
    /\ options_of a "options" = imap (checkbox k) (items m).
Proof.
  intros Hm. unfold meeting_blocks. rewrite imap_nonempty, Hm.
  eexists _, _. split; [reflexivity|]. split.
  { unfold title_like, type_is, field. cbn [dict_get String.eqb Ascii.eqb Bool.eqb andb].
    apply startswith_app. }
  split; [reflexivity|]. split; reflexivity.
Qed.

Lemma body_options_cons (k : nat) (m : meeting) (ms : list meeting) :
  body_options k (m :: ms) = (imap (checkbox k) (items m) ++ body_options (S k) ms)%list.
Proof.
  unfold body_options. cbn [imap concat]. rewrite Nat.add_0_r. f_equal. f_equal.
  apply imap_ext. intros i x _. unfold compose.
  replace (k + S i) with (S k + i) by lia. reflexivity.
Qed.

Lemma body_all_options (ms : list meeting) :
  Forall has_items ms ->
  forall k, all_options (body k ms) = body_options k ms.
Proof.
  induction 1 as [|m ms Hm _ IH]; intros k; [reflexivity|].
  rewrite body_cons, body_options_cons.
  destruct (meeting_blocks_group k m Hm) as (t & a & -> & T & A & A' & O).
  unfold all_options in *. cbn [app groups_of]. rewrite T, A, A'. cbn [andb app].
  replace (title_like divider) with false by reflexivity. cbn [andb app map concat].
  unfold group_at at 1. cbn [g_options]. rewrite O. f_equal.
  rewrite <- (IH (S k)). destruct (body (S k) ms); reflexivity.
Qed.

Lemma cons_all_options (b : pyval) (rest : list pyval) :
  title_like b = false -> all_options (b :: rest) = all_options rest.
Proof. intros Hb. unfold all_options. cbn [groups_of]. rewrite Hb. now destruct rest. Qed.

Lemma rendered_options (today : string) (ms : list meeting) :
  all_options (build_interactive_blocks today ms)
  = body_options 0 (omap (part is_katie) ms ++ omap (part not_katie) ms).
Proof.
  unfold build_interactive_blocks, split_katie_items. rewrite split_meetings_spec.
  cbn [app].
  set (katie_items := omap (part is_katie) ms).
  set (other_meetings := omap (part not_katie) ms).
  assert (Hall : Forall has_items (katie_items ++ other_meetings)).
  { apply Forall_app. split; apply part_has_items. }
  change (concat (imap meeting_blocks (katie_items ++ other_meetings)))
    with (body 0 (katie_items ++ other_meetings)).
  rewrite <- (body_all_options _ Hall 0).
  generalize (nonempty katie_items), (nonempty other_meetings). intros [] []; cbn [andb app];
    rewrite !cons_all_options by reflexivity; reflexivity.
Qed.

Lemma imap_texts (k : nat) (its : list string) :
  forall (f : nat -> nat),
    omap option_text (imap (fun i => checkbox k (f i)) its) = its.
Proof.
  induction its as [|item its IH]; intros f; [reflexivity|].
  cbn [imap]. rewrite omap_cons. unfold option_text at 1, checkbox at 1, field.
  cbn [dict_get String.eqb Ascii.eqb Bool.eqb]. f_equal. apply (IH (f ∘ S)).
Qed.

Lemma body_options_texts (ms : list meeting) : forall k,
  omap option_text (body_options k ms) = all_items ms.
Proof.
  induction ms as [|m ms IH]; intros k; [reflexivity|].
  rewrite body_options_cons, omap_app, IH. unfold all_items. cbn [map concat].
  f_equal. apply (imap_texts k (items m) id).
Qed.

Lemma body_options_length (ms : list meeting) : forall k,
  length (body_options k ms) = total_items ms.
Proof.
  induction ms as [|m ms IH]; intros k; [reflexivity|].
  rewrite body_options_cons, length_app, IH, length_imap. reflexivity.
Qed.

Lemma all_items_part (f : string -> bool) (ms : list meeting) :
  all_items (omap (part f) ms) = concat (map (fun m => List.filter f (items m)) ms).
Proof.
  unfold all_items. induction ms as [|m ms IH]; [reflexivity|].
  rewrite omap_cons. cbn [map concat]. unfold part at 1.
  destruct (List.filter f (items m)) as [|x xs] eqn:E; cbn [nonempty]; [exact IH|].
  cbn [map concat items]. now rewrite IH.
Qed.

Lemma filter_split_perm (f : string -> bool) (l : list string) :
  (List.filter f l ++ List.filter (fun x => negb (f x)) l)%list ≡ₚ l.
Proof.
  induction l as [|x l IH]; [reflexivity|]. cbn [List.filter].
  destruct (f x); cbn [negb app].
  - now constructor.
  - rewrite <- Permutation_middle. now constructor.
Qed.

Lemma parts_perm (f : string -> bool) (ms : list meeting) :
  (concat (map (fun m => List.filter f (items m)) ms)
   ++ concat (map (fun m => List.filter (fun x => negb (f x)) (items m)) ms))%list
  ≡ₚ all_items ms.
Proof.
  unfold all_items. induction ms as [|m ms IH]; [reflexivity|]. cbn [map concat].
  rewrite <- (filter_split_perm f (items m)) at 3. rewrite <- IH.
  rewrite <- !app_assoc. apply Permutation_app_head.
  rewrite !app_assoc. apply Permutation_app_tail. apply Permutation_app_comm.
Qed.

Lemma total_items_length (ms : list meeting) : total_items ms = length (all_items ms).
Proof.
  unfold all_items. induction ms as [|m ms IH]; [reflexivity|].
  cbn [total_items fold_right map concat]. rewrite length_app. fold (total_items ms). now rewrite IH.
Qed.

(** ** Ticking boxes *)

Section Ticking.
Context {lib : JsonLib}.

Lemma survivors_none (gs : list cgroup) : forall T,
  (forall g o, g ∈ gs -> o ∈ g_options g -> exists k, option_key o = Some k /\ k ∈ T) ->
  survivors T gs = [].
Proof.
  induction gs as [|g gs IH]; intros T H; [reflexivity|]. rewrite survivors_cons.
  assert (E : List.filter (keep_opt (T ∪ initial_keys g)) (g_options g) = []).
  { assert (F : forall o, o ∈ g_options g -> keep_opt (T ∪ initial_keys g) o = false).
    { intros o Ho. destruct (H g o ltac:(left) Ho) as (k & Hk & Hin).
      unfold keep_opt. rewrite Hk. apply bool_decide_eq_false. intros Hn. apply Hn.
      apply elem_of_union. now left. }
    induction (g_options g) as [|o os IHo]; [reflexivity|]. cbn [List.filter].
    rewrite (F o ltac:(left)). apply IHo. intros o' Ho'. apply F. now right. }
  rewrite E. cbn [nonempty app]. apply IH. intros g' o Hg' Ho.
  destruct (H g' o ltac:(now right) Ho) as (k & Hk & Hin). exists k. split; [exact Hk|].
  apply elem_of_union. now left.
Qed.

Lemma rebuild_all_done (today : string) (B : list pyval) (S : list string) :
  checklist B = true -> checked_ok S = true ->
  survivors (checked_keys S) (groups_of B) = [] ->
  rebuild_blocks_after_check today B S = Ok (build_all_done_blocks today).
Proof.
  intros HB HS E. rewrite rebuild_unfold, HS.
  destruct (walk_spec (length B) B (Walk (checked_keys S) [] false) (le_n _) HB)
    as (st' & W & out & O1 & O2 & O3 & O4 & O5).
  rewrite W. cbn [checked_texts any_items_remaining orb] in O5. rewrite E in O5.
  cbn [nonempty] in O5. now rewrite O5.
Qed.

Lemma rebuild_not_done (today : string) (B : list pyval) (S : list string) :
  checklist B = true -> checked_ok S = true ->
  survivors (checked_keys S) (groups_of B) <> [] ->
  exists B',
    rebuild_blocks_after_check today B S = Ok B'
    /\ groups_of B' = survivors (checked_keys S) (groups_of B)
    /\ B' <> build_all_done_blocks today.
Proof.
  intros HB HS E. destruct (rebuild_spec today B S HB HS) as (B' & R & _ & G).
  exists B'. split; [exact R|]. split; [exact G|]. intros ->.
  destruct (all_done_facts today) as [_ D]. rewrite D in G. now symmetry in G.
Qed.

End Ticking.

Lemma imap_checkbox_elem (k : nat) (its : list string) (o : pyval) : forall (f : nat -> nat),
  o ∈ imap (fun i => checkbox k (f i)) its -> exists i item, o = checkbox k i item.
Proof.
  induction its as [|item its IH]; intros f H; cbn [imap] in H.
  - now apply not_elem_of_nil in H.
  - apply elem_of_cons in H as [->|H]; [eauto|]. exact (IH (f ∘ S) H).
Qed.

Lemma body_options_elem (ms : list meeting) (o : pyval) : forall k,
  o ∈ body_options k ms -> exists m i item, o = checkbox m i item.
Proof.
  induction ms as [|m ms IH]; intros k H.
  - now apply not_elem_of_nil in H.
  - rewrite body_options_cons in H. apply elem_of_app in H as [H|H].
    + destruct (imap_checkbox_elem k (items m) o id H) as (i & item & ->). eauto.
    + exact (IH (S k) H).
Qed.

Lemma reference_checked_key (m i : nat) (item : string) :
  @checked_key reference (option_value m i item) = Some (HStr item).
Proof.
  unfold checked_key, json_loads, reference. rewrite loads_option_value. reflexivity.
Qed.

Lemma rendered_values (today : string) (ms : list meeting) (o : pyval) :
  o ∈ all_options (build_interactive_blocks today ms) ->
  exists m i item, o = checkbox m i item.
Proof. rewrite rendered_options. apply body_options_elem. Qed.

(** ** The sync *)

Lemma item_of_assign_eq {A : Type} (d : list (string * A)) (k : string) (v : A) :
  item_of (assign d k v) k = Some v.
Proof.
  induction d as [|[k' v'] d IH]; cbn [assign item_of].
  - now rewrite String.eqb_refl.
  - destruct (String.eqb k' k) eqn:E; cbn [item_of]; rewrite E; [reflexivity | exact IH].
Qed.

Lemma item_of_assign_ne {A : Type} (d : list (string * A)) (k k' : string) (v : A) :
  k <> k' -> item_of (assign d k v) k' = item_of d k'.
Proof.
  intros N. induction d as [|[k0 v0] d IH]; cbn [assign item_of].
  - destruct (String.eqb_spec k k'); [contradiction | reflexivity].
  - destruct (String.eqb_spec k0 k) as [->|E]; cbn [item_of].
    + destruct (String.eqb_spec k k'); [contradiction | reflexivity].
    + destruct (String.eqb k0 k'); [reflexivity | exact IH].
Qed.

Lemma item_of_keys {A : Type} (d : list (string * A)) (k : string) :
  is_Some (item_of d k) <-> k ∈ map fst d.
Proof.
  induction d as [|[k' v'] d IH]; cbn [item_of map fst].
  - split; [intros [x Hx]; discriminate | intros H; now apply not_elem_of_nil in H].
  - destruct (String.eqb_spec k' k) as [->|E].
    + split; [intros _; left | eauto].
    + rewrite IH. split; [intros H; now right|].
      intros H. apply elem_of_cons in H as [->|H]; [contradiction | exact H].
Qed.

Section SyncFacts.
Variable html_to_md : string -> string.

Lemma extract_new_in (week_ago today_prefix : string) (g : granola) (last : string)
    (known : gset string) (m : new_meeting) :
  m ∈ extract_new_meetings html_to_md week_ago today_prefix g last known ->
  exists doc, (mt_id m, doc) ∈ documents g
              /\ m = meeting_of html_to_md g (mt_id m) doc
              /\ (mt_id m ∉ known)
              /\ deleted_at doc = false /\ valid_meeting doc <> Some false.
Proof.
  unfold extract_new_meetings. intros H. apply list_elem_of_omap in H as ([id doc] & Hin & E).
  destruct (is_new known _ today_prefix id doc) eqn:N; [|discriminate]. injection E as <-.
  cbn [meeting_of mt_id]. exists doc. split; [exact Hin|]. split; [reflexivity|].
  unfold is_new in N. apply andb_prop in N as [N _]. apply andb_prop in N as [N1 N2].
  apply negb_true_iff in N1, N2. apply orb_false_elim in N1 as [D V].
  apply bool_decide_eq_false in N2, V. auto.
Qed.

Lemma write_all_spec (cfg : config) (today : string) (todo : list new_meeting) :
  forall files d todays files' d' todays',
    write_all cfg today todo files d todays = Ok (files', d', todays') ->
    (forall id, id ∉ new_ids todo -> item_of d' id = item_of d id)
    /\ (forall id, id ∈ new_ids todo -> is_Some (item_of d' id)).
Proof.
  induction todo as [|m todo IH]; intros files d todays files' d' todays'; cbn [write_all].
  - intros [= <- <- <-]. split; [auto|].
    intros id H. now apply not_elem_of_nil in H.
  - destruct (write_meeting_file m cfg) as [[rel_path content]|e]; [|discriminate].
    cbn [bind]. intros H. apply IH in H as (H1 & H2). cbn [new_ids map] in *.
    split.
    + intros id Hn. rewrite not_elem_of_cons in Hn. destruct Hn as [Hn1 Hn2].
      rewrite (H1 id Hn2). apply item_of_assign_ne. congruence.
    + intros id Hin. destruct (decide (id ∈ map mt_id todo)) as [Hd|Hd]; [now apply H2|].
      apply elem_of_cons in Hin as [->|Hin]; [|contradiction].
      rewrite (H1 _ Hd), item_of_assign_eq. eauto.
Qed.

(** What a run of the sync saves. *)
Lemma sync_meetings_saved (cfg : config) (week_ago today_prefix today now : string)
    (g : granola) (st : sync) (r : sync_run) :
  sync_meetings html_to_md cfg week_ago today_prefix today now g st = Ok r ->
  let new := extract_new_meetings html_to_md week_ago today_prefix g (last_sync st) (ids_of st) in
  last_sync (saved r) = now
  /\ (forall id e, item_of (meetings st) id = Some e -> item_of (meetings (saved r)) id = Some e)
  /\ (forall id, id ∈ new_ids new -> id ∈ ids_of (saved r)).
Proof.
  unfold sync_meetings. fold (ids_of st). cbv zeta.
  set (new := extract_new_meetings html_to_md week_ago today_prefix g (last_sync st) (ids_of st)).
  assert (Fresh : forall id, id ∈ new_ids new -> id ∉ ids_of st).
  { intros id Hin. unfold new_ids in Hin. apply list_elem_of_fmap in Hin as (m & -> & Hm).
    now apply extract_new_in in Hm as (doc & _ & _ & K & _). }
  destruct new as [|m0 new'] eqn:En.
  - intros [= <-]. cbn. repeat split; auto.
    intros id H. now apply not_elem_of_nil in H.
  - destruct (write_all cfg today (m0 :: new') [] (meetings st) []) as [[[files d] todays]|e] eqn:W;
      [|discriminate].
    cbn [bind]. intros [= <-]. cbn [saved written last_sync meetings].
    apply write_all_spec in W as (H1 & H2).
    split; [reflexivity|]. split.
    + intros id e He. rewrite H1; [exact He|]. intros Hin. apply (Fresh id Hin).
      unfold ids_of. apply elem_of_list_to_set, item_of_keys. eauto.
    + intros id Hin. unfold ids_of. cbn [meetings]. apply elem_of_list_to_set, item_of_keys.
      now apply H2.
Qed.

End SyncFacts.

(** ** What the sync records *)










(** A text without carriage return is read as it was written. *)
Lemma read_text_plain (s : string) : all_chars (not_chr CR) s = true -> read_text s = s.
Proof.
  induction s as [|c s IH]; [reflexivity|]. cbn [all_chars read_text]. intros H.
  apply andb_prop in H as [H1 H2]. unfold not_chr in H1. apply negb_true_iff in H1.
  rewrite H1. now rewrite IH.
Qed.

(** ** The folder lookup *)

Lemma folder_inner (name id : string) (l : list string) :
  forall acc,
    item_of (fold_left (fun acc doc_id => if nonempty_str doc_id then assign acc doc_id name
                                          else acc) l acc) id
    = if bool_decide (id ∈ l) && nonempty_str id then Some name else item_of acc id.
Proof.
  induction l as [|d l IH]; intros acc; cbn [fold_left].
  - rewrite bool_decide_eq_false_2 by apply not_elem_of_nil. reflexivity.
  - rewrite IH. destruct (nonempty_str id) eqn:Ni.
    + rewrite !andb_true_r. destruct (bool_decide (id ∈ l)) eqn:E.
      * apply bool_decide_eq_true in E.
        rewrite bool_decide_eq_true_2 by (now right). reflexivity.
      * apply bool_decide_eq_false in E. destruct (decide (id = d)) as [->|N].
        -- rewrite bool_decide_eq_true_2 by left. rewrite Ni. apply item_of_assign_eq.
        -- rewrite bool_decide_eq_false_2
             by (intros H; apply elem_of_cons in H as [H|H]; contradiction).
           destruct (nonempty_str d); [|reflexivity].
           apply item_of_assign_ne. congruence.
    + rewrite !andb_false_r. destruct (nonempty_str d) eqn:Nd; [|reflexivity].
      apply item_of_assign_ne. intros ->. congruence.
Qed.

Lemma folder_outer (g : granola) (id : string) (lists : list (string * list string)) :
  forall acc,
    item_of
      (fold_left
         (fun lookup_so_far '(list_id, list_data) =>
            let folder_name :=
              match item_of (documentListsMetadata g) list_id with
              | Some title => title
              | None => "Unknown"
              end in
            fold_left
              (fun acc doc_id => if nonempty_str doc_id then assign acc doc_id folder_name else acc)
              list_data lookup_so_far)
         lists acc) id
    = fold_left (fun found '(list_id, list_data) =>
                   if bool_decide (id ∈ list_data) && nonempty_str id
                   then Some (list_title g list_id) else found)
        lists (item_of acc id).
Proof.
  induction lists as [|[lid l] lists IH]; intros acc; cbn [fold_left]; [reflexivity|].
  rewrite IH. cbv zeta. rewrite folder_inner. reflexivity.
Qed.

Lemma folder_last (g : granola) (id : string) (post : list (string * list string)) :
  forall found,
    (forall x, x ∈ post -> id ∉ x.2) ->
    fold_left (fun found '(list_id, list_data) =>
                 if bool_decide (id ∈ list_data) && nonempty_str id
                 then Some (list_title g list_id) else found)
      post found = found.
Proof.
  induction post as [|[lid l] post IH]; intros found H; cbn [fold_left]; [reflexivity|].
  rewrite IH by (intros x Hx; apply H; now right).
  rewrite bool_decide_eq_false_2; [reflexivity|]. apply (H (lid, l)). left.
Qed.

(** ** Items in full are bounded items *)

Lemma item_shape_ok (item : string) : item_shape item -> item_ok item.
Proof.
  intros (w & c & E & [Wn Ww] & [_ L] & _ & R & _).
  exists w, c. split; [|split; [exact L | exact R]].
  split; [exact E|]. split; [exact Wn | exact Ww].
Qed.

Lemma extract_items_shape (stem content title : string) (items : list string) :
  extract_action_items_from_file stem content = Ok (title, items) ->
  Forall item_shape items.
Proof.
  intros H. apply extract_lines in H as (lines & R & ->).
  rewrite retained_map. apply Forall_forall. intros item Hi.
  apply list_elem_of_In, in_map_iff in Hi as ([l c] & <- & Hi). cbn [fst snd].
  destruct (retained_pairs_read lines l c R Hi) as (Hl & L & parts & ->).
  now apply item_shape_of.
Qed.

(** ** Two meetings, one path *)

(** Two new meetings of the same day whose titles have the same slug are
    written to the same path: the run leaves one file, which holds the text
    of the second, and an entry for each of them. *)
Lemma later_write_replaces :
  exists r content,
    sync_meetings (fun s => s) example_config WEEK_AGO TODAY TODAY NOW twin_cache example_sync
    = Ok r
    /\ written r = [("Clients/Acme/2026-11-04-weekly-kickoff.md", content)]
    /\ str_in "granola_id: doc-2" content = true
    /\ str_in "has_transcript: false" content = true
    /\ map (fun e => (e.1, s_has_transcript e.2)) (meetings (saved r))
       = [("doc-1", true); ("doc-2", false)].
Proof. eexists _, _. vm_compute. repeat split. Qed.

(** * The items of a file *)

(** C7.  For every file, extraction returns items of the form
    [(speaker) text], where the speaker is a word, so that the item is
    split in one way only, and the text has at most 203 characters (200 and
    the three dots of a truncation) and no two whitespace characters in a
    row. *)
Theorem item_text_bounded (stem content : string) :
  exists title items,
    extract_action_items_from_file stem content = Ok (title, items)
    /\ Forall item_ok items.
Proof.
  destruct (extract_total stem content) as (title & items & H).
  exists title, items. split; [exact H|].
  apply extract_items_shape in H. apply Forall_forall. intros item Hi.
  apply item_shape_ok. rewrite Forall_forall in H. exact (H item Hi).
Qed.

(** * Further properties of the code *)

(** ** File names and folders *)

(** X1.  A slug is made of lower-case letters, digits and dashes, has no two
    dashes in a row, does not end with a dash and has at most [max_len]
    characters, whatever the text it is made from. *)
Theorem slugify_shape (text : string) (max_len : nat) :
  all_chars slug_char (slugify text max_len) = true
  /\ no_dash_run (slugify text max_len) = true
  /\ last_chr None (slugify text max_len) <> Some "-"%char
  /\ String.length (slugify text max_len) <= max_len.
Proof. exact (slugify_slug text max_len). Qed.

(** X2.  Making a slug of a slug changes nothing, also with a larger
    bound. *)
Theorem slugify_idempotent (text : string) (max_len extra : nat) :
  slugify (slugify text max_len) (max_len + extra) = slugify text max_len.
Proof. apply (slug_fixed _ max_len); [apply slugify_slug | lia]. Qed.

(** X3.  Domains and keywords are compared with lower-cased emails, titles
    and names, so an entry with an upper-case letter never matches: the
    rules that have only such entries can be left out of the configuration
    without changing the folder of any meeting. *)
Theorem classify_meeting_upper_case_rules (title : option string) (ps : list participant)
  (cfg : config) :
  classify_meeting title ps cfg
  = classify_meeting title ps
      (with_rules cfg (List.filter (fun r => negb (never_hits r)) (classification_rules cfg))).
Proof.
  rewrite !classify_unfold.
  destruct (collect (fun p => lower_of (p_email p)) ps) as [emails|e] eqn:Ee; [|reflexivity].
  cbn [bind].
  destruct (collect (fun p => lower_of (p_name p)) ps) as [names|e] eqn:En; [|reflexivity].
  cbn [bind with_rules classification_rules organization_domain one_on_one_names
         default_folder].
  rewrite (collect_lowered _ _ _ Ee), (collect_lowered _ _ _ En). now rewrite by_rules_filter.
Qed.

(** X4.  The folder depends on the title and on the names and emails of
    the participants only through their lower-case forms. *)
Theorem classify_meeting_ignores_case (title : option string) (ps : list participant)
  (cfg : config) :
  classify_meeting (option_map py_lower title) (map lower_participant ps) cfg
  = classify_meeting title ps cfg.
Proof.
  rewrite !classify_unfold.
  rewrite (collect_lower_idem p_email), (collect_lower_idem p_name) by reflexivity.
  assert (T : py_lower (match option_map py_lower title with
                        | Some t => t
                        | None => EmptyString
                        end)
              = py_lower (match title with Some t => t | None => EmptyString end)).
  { destruct title as [t|]; cbn [option_map]; [apply py_lower_idem | reflexivity]. }
  destruct (collect (fun p => lower_of (p_email p)) ps) as [emails|e]; [|reflexivity].
  cbn [bind]. destruct (collect (fun p => lower_of (p_name p)) ps) as [names|e]; [|reflexivity].
  cbn [bind]. rewrite T. reflexivity.
Qed.


(** ** Action items *)


(** X7.  Extraction never returns the same item twice for one file. *)
Theorem items_distinct (stem content : string) :
  exists title items,
    extract_action_items_from_file stem content = Ok (title, items) /\ NoDup items.
Proof.
  destruct (extract_total stem content) as (title & items & H).
  exists title, items. split; [exact H|].
  apply extract_lines in H as (lines & R & ->).
  rewrite retained_map.
  apply (NoDup_map_on _ (fun lc => dedup_key (snd lc))); [|apply retained_pairs_keys].
  intros [l c] [l' c'] Hx Hy E. cbn [fst snd] in *.
  destruct (retained_pairs_read lines l c R Hx) as (Hl & _).
  destruct (retained_pairs_read lines l' c' R Hy) as (Hl' & _).
  now rewrite (tagged_inj l l' c c' Hl Hl' E).
Qed.

(** ** The transcript, written and read back *)

(** X8.  The transcript that is built from the segments of the cache is
    read back line by line: when every segment with a text has a start time
    (without a closing bracket), a source that is a word and a text on one
    line, [LINE_RE] finds exactly one record for each such segment, in
    order, with the time, the speaker label and the trimmed text that were
    written. *)
Theorem transcript_read_back (segs : list segment) :
  forallb seg_ok segs = true ->
  parse_lines (transcript_of segs) = Ok (omap seg_record segs).
Proof.
  intros H. unfold transcript_of. rewrite transcript_lines_recs, join_lines.
  rewrite (parse_written_lines _ (seg_recs_ok segs H)). now rewrite seg_records.
Qed.

Lemma transcript_read_back_witness :
  forallb seg_ok example_segments = true
  /\ parse_lines (transcript_of example_segments) = Ok (omap seg_record example_segments).
Proof. split; [vm_compute; reflexivity | apply transcript_read_back; vm_compute; reflexivity]. Defined.

(** X9.  The file that [write_meeting_file] writes is read back by
    [extract_action_items_from_file]: when the title is not empty and has
    no double quote or line break, nothing before the transcript holds the
    heading of the transcript, the text written holds no carriage return
    (which [read_text] would turn into a line break), and the transcript
    was built from segments each with a time, a source that is a word and a
    text on one line, extraction returns the trimmed title and exactly the
    items of the lines of those segments; a meeting without any line gives
    no item. *)
Theorem written_file_read_back (meeting : new_meeting) (cfg : config)
  (title folder yaml stem : string) (segs : list segment) :
  mt_title meeting = Some title ->
  classify_meeting (Some title) (mt_participants meeting) cfg = Ok folder ->
  participants_yaml (mt_participants meeting) = Ok yaml ->
  title_ok title = true ->
  str_in HEADING (file_front meeting folder yaml) = false ->
  all_chars (not_chr CR) (file_content meeting folder yaml) = true ->
  forallb seg_ok_in_file segs = true ->
  mt_transcript meeting = transcript_of segs ->
  exists content,
    write_meeting_file meeting cfg
    = Ok (folder ++ "/" ++ file_name meeting (slugify title 80), content)
    /\ extract_action_items_from_file stem (read_text content)
       = Ok (py_strip title,
             retained [] (candidates (omap seg_record segs) 0 (omap seg_record segs))).
Proof.
  intros Et Hc Hy Ht Hf Hr Hs Etr. exists (file_content meeting folder yaml). split.
  - unfold write_meeting_file. rewrite Et. cbn [bind]. rewrite Hc. cbn [bind].
    rewrite Hy. reflexivity.
  - rewrite (read_text_plain _ Hr). now apply (extract_file_of_segments _ _ _ title).
Qed.

Lemma written_file_read_back_witness :
  mt_title example_meeting = Some "Weekly Kickoff: plans & next steps"
  /\ classify_meeting (Some "Weekly Kickoff: plans & next steps")
       (mt_participants example_meeting) example_config = Ok "Clients/Acme"
  /\ participants_yaml (mt_participants example_meeting) = Ok example_yaml
  /\ title_ok "Weekly Kickoff: plans & next steps" = true
  /\ str_in HEADING (file_front example_meeting "Clients/Acme" example_yaml) = false
  /\ all_chars (not_chr CR) (file_content example_meeting "Clients/Acme" example_yaml) = true
  /\ forallb seg_ok_in_file example_segments = true
  /\ mt_transcript example_meeting = transcript_of example_segments
  /\ exists content,
       write_meeting_file example_meeting example_config
       = Ok ("Clients/Acme" ++ "/"
             ++ file_name example_meeting (slugify "Weekly Kickoff: plans & next steps" 80),
             content)
       /\ extract_action_items_from_file "2026-11-04-weekly-kickoff-plans-next-steps"
            (read_text content)
          = Ok (py_strip "Weekly Kickoff: plans & next steps",
                retained [] (candidates (omap seg_record example_segments) 0
                               (omap seg_record example_segments))).
Proof.
  split; [reflexivity|]. split; [vm_compute; reflexivity|].
  split; [vm_compute; reflexivity|]. split; [vm_compute; reflexivity|].
  split; [vm_compute; reflexivity|]. split; [vm_compute; reflexivity|].
  split; [vm_compute; reflexivity|]. split; [reflexivity|].
  apply (written_file_read_back example_meeting example_config
           "Weekly Kickoff: plans & next steps" "Clients/Acme" example_yaml);
    vm_compute; reflexivity.
Defined.

(** ** Participants *)

(** X10.  The participants built for a document have pairwise different
    addresses, also when case is ignored, and each has an address that is a
    text and not empty;
    every address that the cache holds for the creator, the attendees or
    the calendar event is the address of a participant, up to case. *)
Theorem participants_by_address (creator : person) (people_attendees : list person)
  (cal_attendees : list cal_attendee) :
  let ps := participants_of creator people_attendees cal_attendees in
  NoDup (addresses ps)
  /\ Forall has_address ps
  /\ forall e, In e (cache_addresses creator people_attendees cal_attendees) ->
               e <> EmptyString -> Some (py_lower e) ∈ addresses ps.
Proof.
  cbv zeta. unfold participants_of.
  set (st1 := add_creator creator).
  set (st2 := fold_left add_attendee people_attendees st1).
  set (st3 := fold_left add_cal_attendee cal_attendees st2).
  assert (R : roll_ok st3) by (apply roll_cal, roll_attendees, roll_creator).
  destruct R as (N & F & S). split; [exact N|]. split; [exact F|].
  intros e Hin Hn. apply S. unfold cache_addresses in Hin.
  destruct Hin as [<-|Hin].
  - apply seen_cal, seen_attendees. unfold st1, add_creator.
    apply nonempty_str_spec in Hn. rewrite Hn. cbn. now apply elem_of_singleton.
  - apply in_app_or in Hin as [Hin|Hin]; apply in_map_iff in Hin as (a & <- & Ha).
    + apply seen_cal. now apply attendees_seen.
    + now apply cal_seen.
Qed.

(** ** The sync state *)

(** X11.  A state file of the old format (a dictionary with [synced_ids]
    and without [meetings]) is replaced by a new dictionary before its
    [synced_ids] are read, so none of the old ids is carried over: the
    result keeps [last_sync], its [meetings] are empty and no id is known,
    whatever the list held. *)
Theorem load_sync_state_forgets_synced_ids {lib : JsonLib} (text : string)
  (d : list (string * pyval)) (ids : pyval) :
  json_loads text = Some (PDict d) ->
  dict_get d "synced_ids" = Some ids ->
  dict_get d "meetings" = None ->
  load_sync_state (Some text)
  = Ok (Made (match dict_get d "last_sync" with Some v => v | None => PNone end) [])
  /\ (let* st := load_sync_state (Some text) in known_ids st) = Ok ∅.
Proof.
  intros H1 H2 H3.
  assert (E : load_sync_state (Some text)
              = Ok (Made (match dict_get d "last_sync" with Some v => v | None => PNone end) [])).
  { unfold load_sync_state. rewrite H1. cbn [has bind]. rewrite H2, H3.
    rewrite bool_decide_eq_true_2 by eauto.
    rewrite bool_decide_eq_false_2 by (intros [x Hx]; discriminate Hx).
    cbn [negb bind get]. reflexivity. }
  split; [exact E|]. rewrite E. reflexivity.
Qed.

Lemma load_sync_state_forgets_synced_ids_witness :
  @json_loads reference legacy_state_file
  = Some (PDict [("last_sync", PStr "2026-11-01");
                 ("synced_ids", PList [PStr "doc-1"; PStr "doc-2"])])
  /\ @load_sync_state reference (Some legacy_state_file) = Ok (Made (PStr "2026-11-01") [])
  /\ (let* st := @load_sync_state reference (Some legacy_state_file) in known_ids st) = Ok ∅.
Proof.
  split; [vm_compute; reflexivity|].
  exact (@load_sync_state_forgets_synced_ids reference legacy_state_file
           [("last_sync", PStr "2026-11-01"); ("synced_ids", PList [PStr "doc-1"; PStr "doc-2"])]
           (PList [PStr "doc-1"; PStr "doc-2"])
           ltac:(vm_compute; reflexivity) eq_refl eq_refl).
Defined.

(** ** The message with checkboxes *)

(** X12.  The message built by [build_interactive_blocks] has one checkbox
    for each item of each meeting, none lost and none repeated: the labels
    of its options are the owner's items, meeting by meeting, followed by
    the other items, meeting by meeting, and their number is the total of
    the items that [send_action_items] announces. *)
Theorem rendered_every_item (today : string) (ms : list meeting) :
  let options := all_options (build_interactive_blocks today ms) in
  omap option_text options
  = (concat (map (fun m => List.filter is_katie (items m)) ms)
     ++ concat (map (fun m => List.filter not_katie (items m)) ms))%list
  /\ omap option_text options ≡ₚ all_items ms
  /\ length options = total_items ms.
Proof.
  cbv zeta. rewrite rendered_options.
  assert (E : omap option_text
                (body_options 0 (omap (part is_katie) ms ++ omap (part not_katie) ms))
              = (concat (map (fun m => List.filter is_katie (items m)) ms)
                 ++ concat (map (fun m => List.filter not_katie (items m)) ms))%list).
  { rewrite body_options_texts. unfold all_items at 1. rewrite map_app, concat_app.
    fold (all_items (omap (part is_katie) ms)). fold (all_items (omap (part not_katie) ms)).
    now rewrite !all_items_part. }
  split; [exact E|]. split.
  - rewrite E. exact (parts_perm is_katie ms).
  - rewrite body_options_length, !total_items_length, <- (body_options_texts _ 0), E.
    apply Permutation_length. exact (parts_perm is_katie ms).
Qed.

(** X13.  Ticking every box finishes the checklist: for a checklist whose
    options all have their value among the checked values, the reduction
    returns the all-done block. *)
Theorem check_everything {lib : JsonLib} (today : string) (B : list pyval) (S : list string) :
  checklist B = true ->
  checked_ok S = true ->
  (forall o, o ∈ all_options B -> exists v, option_value_of o = Some v /\ v ∈ S) ->
  rebuild_blocks_after_check today B S = Ok (build_all_done_blocks today).
Proof.
  intros HB HS H. apply rebuild_all_done; [exact HB | exact HS|].
  apply survivors_none. intros g o Hg Ho.
  pose proof (groups_keyed B false g HB Hg) as K. unfold all_keyed in K.
  rewrite Forall_forall in K. destruct (K o Ho) as [k Hk].
  destruct (H o) as (v & Hv & Hin); [apply all_options_elem; eauto|].
  exists k. split; [exact Hk|]. apply (checked_keys_elem S v k Hin).
  apply (checked_key_of_value o v k); [|exact Hk].
  unfold option_value_of in Hv. destruct (field o "value") as [[| | |s| |]|]; try discriminate Hv.
  now injection Hv as ->.
Qed.

Lemma check_everything_witness :
  @checklist reference example_blocks = true
  /\ @checked_ok reference (all_values example_blocks) = true
  /\ @rebuild_blocks_after_check reference "November 05, 2026" example_blocks
       (all_values example_blocks)
     = Ok (build_all_done_blocks "November 05, 2026").
Proof.
  split; [vm_compute; reflexivity|]. split; [vm_compute; reflexivity|].
  apply (@check_everything reference); [vm_compute; reflexivity | vm_compute; reflexivity|].
  intros o Ho. unfold all_values.
  assert (F : forallb (fun o => match option_value_of o with
                                | Some v => bool_decide (v ∈ omap option_value_of
                                                           (all_options example_blocks))
                                | None => false
                                end) (all_options example_blocks) = true)
    by (vm_compute; reflexivity).
  rewrite forallb_forall in F. specialize (F o (proj1 (list_elem_of_In _ _) Ho)).
  destruct (option_value_of o) as [v|]; [|discriminate F].
  exists v. split; [reflexivity|]. now apply bool_decide_eq_true in F.
Defined.

(** X14.  Rendering and ticking compose: for every list of meetings, the
    message built by [build_interactive_blocks], reduced with the values of
    all its options, is the all-done block (the values are written with
    [json.dumps] and read with [json.loads], here the reference encoder and
    decoder). *)
Theorem render_then_check_everything (today today' : string) (ms : list meeting) :
  @rebuild_blocks_after_check reference today' (build_interactive_blocks today ms)
    (all_values (build_interactive_blocks today ms))
  = Ok (build_all_done_blocks today').
Proof.
  set (B := build_interactive_blocks today ms).
  pose proof (reference_rendered today ms) as R. fold B in R.
  unfold rendered in R. apply andb_prop in R as [R _]. apply andb_prop in R as [C _].
  assert (V : forall o, o ∈ all_options B ->
                        exists v, option_value_of o = Some v /\ v ∈ all_values B
                                  /\ is_Some (@checked_key reference v)).
  { intros o Ho. destruct (rendered_values today ms o Ho) as (m & i & item & ->).
    exists (option_value m i item). split; [reflexivity|]. split.
    - unfold all_values. apply list_elem_of_omap. exists (checkbox m i item). auto.
    - rewrite reference_checked_key. eauto. }
  apply (@rebuild_all_done reference); [exact C | |].
  - unfold checked_ok. apply forallb_forall. intros v Hv. apply bool_decide_eq_true.
    apply list_elem_of_In in Hv. unfold all_values in Hv.
    apply list_elem_of_omap in Hv as (o & Ho & Ev).
    destruct (V o Ho) as (v' & Ev' & _ & K). rewrite Ev in Ev'. now injection Ev' as <-.
  - apply survivors_none. intros g o Hg Ho.
    assert (Ho' : o ∈ all_options B) by (apply all_options_elem; eauto).
    destruct (rendered_values today ms o Ho') as (m & i & item & ->).
    exists (HStr item). split; [apply checkbox_keyed, reference_round_trip|].
    apply (checked_keys_elem _ (option_value m i item)); [|apply reference_checked_key].
    unfold all_values. apply list_elem_of_omap. exists (checkbox m i item). auto.
Qed.

(** ** Notes *)

(** X15.  The notes of a document are empty or a text of more than five
    characters without whitespace at either end, whichever of the three
    sources they come from. *)
Theorem get_notes_trimmed (doc : noted) :
  get_notes doc = EmptyString
  \/ (5 < py_len (get_notes doc)
      /\ starts_ws (get_notes doc) = false /\ ends_ws (get_notes doc) = false).
Proof.
  assert (W : forall s, worth s = true ->
                        5 < py_len (py_strip s)
                        /\ starts_ws (py_strip s) = false /\ ends_ws (py_strip s) = false).
  { intros s H. unfold worth in H. apply andb_prop in H as [_ H]. apply Nat.ltb_lt in H.
    split; [exact H|]. split; [apply rstrip_starts, lstrip_starts | apply strip_ends]. }
  unfold get_notes.
  destruct (worth (notes_markdown doc)) eqn:E1; [right; now apply W|].
  destruct (notes doc) as [[s|ntype content text marks level checked]|].
  - destruct (worth (notes_plain doc)) eqn:E3; [right; now apply W | now left].
  - destruct (worth (prosemirror_to_md _)) eqn:E2; [right; now apply W|].
    destruct (worth (notes_plain doc)) eqn:E3; [right; now apply W | now left].
  - destruct (worth (notes_plain doc)) eqn:E3; [right; now apply W | now left].
Qed.

(** ** The sync *)

(** X16.  No meeting is synced twice.  A run of [sync_meetings] that
    completes keeps the entries of the state it started from and adds the
    id of every meeting it wrote; whatever the cache holds afterwards,
    [extract_new_meetings] with the saved state returns no meeting with one
    of those ids. *)
Theorem no_meeting_synced_twice (html_to_md : string -> string) (cfg : config)
  (week_ago today_prefix today now : string) (g : granola) (st : sync) (r : sync_run) :
  sync_meetings html_to_md cfg week_ago today_prefix today now g st = Ok r ->
  let new := extract_new_meetings html_to_md week_ago today_prefix g (last_sync st) (ids_of st) in
  (forall id e, item_of (meetings st) id = Some e -> item_of (meetings (saved r)) id = Some e)
  /\ (forall id, id ∈ new_ids new -> is_Some (item_of (meetings (saved r)) id))
  /\ forall week_ago' today_prefix' g' m,
       m ∈ extract_new_meetings html_to_md week_ago' today_prefix' g' (last_sync (saved r))
             (ids_of (saved r)) ->
       (mt_id m ∉ new_ids new) /\ (mt_id m ∉ ids_of st).
Proof.
  intros H. destruct (sync_meetings_saved html_to_md _ _ _ _ _ _ _ _ H) as (_ & K & N).
  cbv zeta. split; [exact K|]. split.
  { intros id Hin. apply item_of_keys. apply N in Hin. unfold ids_of in Hin.
    now apply elem_of_list_to_set in Hin. }
  intros week_ago' today_prefix' g' m Hm.
  apply extract_new_in in Hm as (doc & _ & _ & Hk & _). split.
  - intros Hin. apply Hk, N, Hin.
  - intros Hin. apply Hk. unfold ids_of in *. apply elem_of_list_to_set, item_of_keys.
    apply elem_of_list_to_set, item_of_keys in Hin as [e He]. rewrite (K _ _ He). eauto.
Qed.

Lemma no_meeting_synced_twice_witness :
  sync_meetings (fun s => s) example_config WEEK_AGO TODAY TODAY NOW example_cache example_sync
  = Ok example_run
  /\ is_Some (item_of (meetings (saved example_run)) "doc-1")
  /\ forall week_ago' today_prefix' g' m,
       m ∈ extract_new_meetings (fun s => s) week_ago' today_prefix' g'
             (last_sync (saved example_run)) (ids_of (saved example_run)) ->
       mt_id m <> "doc-1".
Proof.
  assert (E : sync_meetings (fun s => s) example_config WEEK_AGO TODAY TODAY NOW example_cache
                example_sync = Ok example_run) by (vm_compute; reflexivity).
  split; [exact E|].
  destruct (no_meeting_synced_twice (fun s => s) example_config WEEK_AGO TODAY TODAY NOW
              example_cache example_sync example_run E) as (_ & I & K).
  split; [apply I; vm_compute; left|].
  intros week_ago' today_prefix' g' m Hm Hid. destruct (K _ _ _ _ Hm) as [N _].
  apply N. rewrite Hid. vm_compute. left.
Defined.



(** ** The folder of a meeting *)

(** X18.  When several lists of the cache hold a document, the last one
    wins: the [granola_folder] of the meeting is the title of the last list
    of [documentLists] that holds its id ([Unknown] when that list has no
    title), and it is empty when no list holds the id. *)
Theorem granola_folder_last_list (html_to_md : string -> string) (g : granola)
  (doc_id : string) (doc : document) :
  doc_id <> EmptyString ->
  (forall pre list_id list_data post,
      documentLists g = (pre ++ (list_id, list_data) :: post)%list ->
      doc_id ∈ list_data ->
      (forall x, x ∈ post -> doc_id ∉ x.2) ->
      mt_granola_folder (meeting_of html_to_md g doc_id doc) = list_title g list_id)
  /\ ((forall x, x ∈ documentLists g -> doc_id ∉ x.2) ->
      mt_granola_folder (meeting_of html_to_md g doc_id doc) = EmptyString).
Proof.
  intros Hid. cbn [meeting_of mt_granola_folder]. unfold folder_lookup.
  rewrite folder_outer. cbn [item_of]. split.
  - intros pre lid l post E Hin Hpost. rewrite E, fold_left_app. cbn [fold_left].
    rewrite folder_last by exact Hpost.
    rewrite bool_decide_eq_true_2 by exact Hin.
    unfold nonempty_str. destruct (String.eqb_spec doc_id EmptyString); [contradiction|].
    reflexivity.
  - intros H. now rewrite folder_last by exact H.
Qed.

Lemma granola_folder_last_list_witness :
  mt_granola_folder
    (meeting_of (fun s => s)
       (Granola [] [("list-1", ["doc-1"; "doc-2"]); ("list-2", ["doc-1"]); ("list-3", ["doc-3"])]
          [("list-1", "Team")] [] [])
       "doc-1" example_document)
  = "Unknown".
Proof.
  refine (proj1 (granola_folder_last_list (fun s => s)
           (Granola [] [("list-1", ["doc-1"; "doc-2"]); ("list-2", ["doc-1"]);
                        ("list-3", ["doc-3"])]
              [("list-1", "Team")] [] [])
           "doc-1" example_document _)
           [("list-1", ["doc-1"; "doc-2"])] "list-2" ["doc-1"] [("list-3", ["doc-3"])]
           eq_refl _ _).
  - discriminate.
  - left.
  - intros x Hx. apply list_elem_of_singleton in Hx as ->. cbn.
    rewrite list_elem_of_singleton. discriminate.
Defined.
